(** * Fastmail Calendar MCP server: a shallow embedding of the tool-call
      handler and of the in-place iCalendar field editor.

    The development follows the latest revision of the server source
    (the [CallToolRequestSchema] handler, [initializeClient] and
    [formatICalDate]).  JavaScript strings are sequences of UTF-16 code
    units; the parts of the ECMAScript runtime the handler relies on
    ([String.prototype.replace] with a regular expression and a replacement
    template, [String.prototype.includes], [Date.prototype.toISOString]) are
    embedded in module [JS] as executable functions. *)

From Stdlib Require Import ZArith NArith List String Ascii Bool Lia.
Import ListNotations.

(* ================================================================== *)
(** * The fragment of the ECMAScript runtime used by the server        *)
(* ================================================================== *)

Module JS.

(** A JavaScript string is a finite sequence of UTF-16 code units. *)
Definition code_unit := N.
Definition jsstring := list code_unit.

(** Code units of an 8-bit literal. *)
Definition u (s : string) : jsstring := map N_of_ascii (list_ascii_of_string s).
Arguments u s%_string.

Definition CR : code_unit := 13%N.
Definition LF : code_unit := 10%N.
Definition LS : code_unit := 8232%N.   (* U+2028 LINE SEPARATOR *)
Definition PS : code_unit := 8233%N.   (* U+2029 PARAGRAPH SEPARATOR *)
Definition DOLLAR : code_unit := 36%N.
Definition CRLF : jsstring := [CR; LF].

Fixpoint jseqb (a b : jsstring) : bool :=
  match a, b with
  | [], [] => true
  | x :: a', y :: b' => N.eqb x y && jseqb a' b'
  | _, _ => false
  end.

(** [needle] is a prefix of [s]. *)
Fixpoint starts_with (needle s : jsstring) : bool :=
  match needle, s with
  | [], _ => true
  | x :: n', y :: s' => N.eqb x y && starts_with n' s'
  | _ :: _, [] => false
  end.

(** [String.prototype.includes]: [needle] occurs somewhere in [s]. *)
Fixpoint includes (s needle : jsstring) : bool :=
  starts_with needle s ||
  match s with
  | [] => false
  | _ :: s' => includes s' needle
  end.

(** ** Regular expressions

    Every pattern of the source is a sequence of single-character atoms,
    each one plain, optional ([?]) or starred ([*]); quantifiers are greedy
    and the matcher backtracks, as the ECMAScript pattern semantics
    prescribes. *)

Inductive quant := One | Opt | Star.

Record atom := Atom { cls : code_unit -> bool; qnt : quant }.

Definition regex := list atom.

Definition lit (c : code_unit) : code_unit -> bool := fun x => N.eqb x c.

Definition is_line_terminator (c : code_unit) : bool :=
  N.eqb c LF || N.eqb c CR || N.eqb c LS || N.eqb c PS.

(** [.] without the [s] flag: any code unit but a line terminator. *)
Definition dot : code_unit -> bool := fun c => negb (is_line_terminator c).

(** [\d] *)
Definition digit : code_unit -> bool := fun c => (N.leb 48 c && N.leb c 57)%N.

(** Greedy star with continuation [k]: take as many units as possible, give
    them back one at a time while [k] fails. *)
Fixpoint star_k (p : code_unit -> bool) (k : jsstring -> option jsstring)
         (s : jsstring) : option jsstring :=
  match s with
  | c :: s' =>
      if p c then
        match star_k p k s' with
        | Some r => Some r
        | None => k s
        end
      else k s
  | [] => k []
  end.

(** [match_here re s]: match [re] at the start of [s]; the result is the
    text left after the match. *)
Fixpoint match_here (re : regex) (s : jsstring) : option jsstring :=
  match re with
  | [] => Some s
  | a :: re' =>
      match qnt a with
      | One =>
          match s with
          | c :: s' => if cls a c then match_here re' s' else None
          | [] => None
          end
      | Opt =>
          match s with
          | c :: s' =>
              if cls a c then
                match match_here re' s' with
                | Some r => Some r
                | None => match_here re' s
                end
              else match_here re' s
          | [] => match_here re' s
          end
      | Star => star_k (cls a) (match_here re') s
      end
  end.

(** The text consumed by a match that leaves [rest]. *)
Definition consumed (s rest : jsstring) : jsstring :=
  firstn (List.length s - List.length rest) s.

(** [RegExp.prototype.exec] from index 0 for a pattern without the sticky
    flag: the leftmost position at which the pattern matches.  The result is
    (text before the match, matched text, text after the match). *)
Fixpoint exec (re : regex) (s : jsstring)
  : option (jsstring * jsstring * jsstring) :=
  match match_here re s with
  | Some rest => Some ([], consumed s rest, rest)
  | None =>
      match s with
      | [] => None
      | c :: s' =>
          match exec re s' with
          | Some (pre, m, post) => Some (c :: pre, m, post)
          | None => None
          end
      end
  end.

(** [GetSubstitution] for a pattern without capture groups: [$$] is a
    dollar sign, [$&] the matched text, [$`] the text before the match,
    [$'] the text after it; a [$] followed by anything else (a digit or
    [<] included, there being no groups) stands for itself. *)
Fixpoint GetSubstitution (matched pre post tpl : jsstring) : jsstring :=
  match tpl with
  | [] => []
  | c :: t =>
      if N.eqb c DOLLAR then
        match t with
        | d :: t' =>
            if N.eqb d 36 then DOLLAR :: GetSubstitution matched pre post t'
            else if N.eqb d 38 then matched ++ GetSubstitution matched pre post t'
            else if N.eqb d 96 then pre ++ GetSubstitution matched pre post t'
            else if N.eqb d 39 then post ++ GetSubstitution matched pre post t'
            else DOLLAR :: GetSubstitution matched pre post t
        | [] => [DOLLAR]
        end
      else c :: GetSubstitution matched pre post t
  end.

(** [String.prototype.replace (re, tpl)] for a pattern without the global
    flag: only the first match is replaced; without a match the string is
    returned as it is. *)
Definition replace (re : regex) (tpl s : jsstring) : jsstring :=
  match exec re s with
  | Some (pre, m, post) => pre ++ GetSubstitution m pre post tpl ++ post
  | None => s
  end.

(** [String.prototype.replace (re, tpl)] for a pattern with the global flag:
    every match, left to right, without overlap; after an empty match the
    scan moves on by one code unit.  [before] is the text already scanned and
    [skip] the number of code units of the current match still to drop. *)
Fixpoint replace_all_from (re : regex) (tpl before : jsstring) (skip : nat)
         (s : jsstring) : jsstring :=
  match skip with
  | S k =>
      match s with
      | [] => []
      | c :: s' => replace_all_from re tpl (before ++ [c]) k s'
      end
  | O =>
      match match_here re s with
      | Some rest =>
          GetSubstitution (consumed s rest) before rest tpl ++
          match s with
          | [] => []
          | c :: s' =>
              match (List.length s - List.length rest)%nat with
              | O => c :: replace_all_from re tpl (before ++ [c]) 0 s'
              | S k => replace_all_from re tpl (before ++ [c]) k s'
              end
          end
      | None =>
          match s with
          | [] => []
          | c :: s' => c :: replace_all_from re tpl (before ++ [c]) 0 s'
          end
      end
  end.

Definition replace_all (re : regex) (tpl s : jsstring) : jsstring :=
  replace_all_from re tpl [] 0 s.

(** The atoms of a literal text. *)
Definition lits (key : jsstring) : regex := map (fun c => Atom (lit c) One) key.

(** A template without a dollar sign stands for itself. *)
Definition plain (s : jsstring) : bool :=
  forallb (fun c => negb (N.eqb c DOLLAR)) s.

(** ** Dates

    A valid [Date] is its time value, the number of milliseconds since the
    epoch; the functions below are the ones of the ECMAScript
    specification (Day Number and Time within Day, Year Number, Month
    Number, Date Number, Hours, Minutes, Second, and Milliseconds). *)

Local Open Scope Z_scope.

Definition msPerDay : Z := 86400000.
Definition msPerHour : Z := 3600000.
Definition msPerMinute : Z := 60000.
Definition msPerSecond : Z := 1000.

Definition Day (t : Z) : Z := t / msPerDay.
Definition TimeWithinDay (t : Z) : Z := t mod msPerDay.

Definition DaysInYear (y : Z) : Z :=
  if negb (y mod 4 =? 0) then 365
  else if negb (y mod 100 =? 0) then 366
  else if negb (y mod 400 =? 0) then 365
  else 366.

Definition DayFromYear (y : Z) : Z :=
  365 * (y - 1970) + (y - 1969) / 4 - (y - 1901) / 100 + (y - 1601) / 400.

(** The largest [y] with [DayFromYear y <= Day t] (lemma
    [YearFromTime_spec]): an estimate from the mean length of a year,
    corrected by at most one. *)
Definition YearFromTime (t : Z) : Z :=
  let d := Day t in
  let y := 1970 + (d * 400) / 146097 in
  if DayFromYear (y + 1) <=? d then y + 1
  else if DayFromYear y <=? d then y
  else y - 1.

Definition InLeapYear (t : Z) : Z :=
  if DaysInYear (YearFromTime t) =? 366 then 1 else 0.

Definition DayWithinYear (t : Z) : Z := Day t - DayFromYear (YearFromTime t).

Definition MonthFromTime (t : Z) : Z :=
  let d := DayWithinYear t in
  let l := InLeapYear t in
  if d <? 31 then 0
  else if d <? 59 + l then 1
  else if d <? 90 + l then 2
  else if d <? 120 + l then 3
  else if d <? 151 + l then 4
  else if d <? 181 + l then 5
  else if d <? 212 + l then 6
  else if d <? 243 + l then 7
  else if d <? 273 + l then 8
  else if d <? 304 + l then 9
  else if d <? 334 + l then 10
  else 11.

Definition DateFromTime (t : Z) : Z :=
  let d := DayWithinYear t in
  let l := InLeapYear t in
  match MonthFromTime t with
  | 0 => d + 1
  | 1 => d - 30
  | 2 => d - 58 - l
  | 3 => d - 89 - l
  | 4 => d - 119 - l
  | 5 => d - 150 - l
  | 6 => d - 180 - l
  | 7 => d - 211 - l
  | 8 => d - 242 - l
  | 9 => d - 272 - l
  | 10 => d - 303 - l
  | _ => d - 333 - l
  end.

Definition HourFromTime (t : Z) : Z := (t / msPerHour) mod 24.
Definition MinFromTime (t : Z) : Z := (t / msPerMinute) mod 60.
Definition SecFromTime (t : Z) : Z := (t / msPerSecond) mod 60.
Definition msFromTime (t : Z) : Z := t mod msPerSecond.

(** A time value is valid within 100,000,000 days of the epoch. *)
Definition valid_time (t : Z) : bool :=
  (-8640000000000000 <=? t) && (t <=? 8640000000000000).

(** The decimal digit for [n mod 10]. *)
Definition digit_of (n : Z) : code_unit := (48 + Z.to_N (n mod 10))%N.

(** [n >= 0] in decimal, on exactly [w] digits (leading zeros; the digits
    above the [w]-th are dropped). *)
Fixpoint fixed_dec (w : nat) (n : Z) : jsstring :=
  match w with
  | O => []
  | S w' => fixed_dec w' (n / 10) ++ [digit_of n]
  end.

(** The year of the Date Time String Format: four digits from 0 to 9999,
    otherwise the expanded form, a sign and six digits. *)
Definition iso_year (y : Z) : jsstring :=
  if (0 <=? y) && (y <=? 9999) then fixed_dec 4 y
  else if y <? 0 then u "-" ++ fixed_dec 6 (- y)
  else u "+" ++ fixed_dec 6 y.

(** [Date.prototype.toISOString] of a valid date. *)
Definition toISOString (t : Z) : jsstring :=
  iso_year (YearFromTime t) ++ u "-" ++
  fixed_dec 2 (MonthFromTime t + 1) ++ u "-" ++
  fixed_dec 2 (DateFromTime t) ++ u "T" ++
  fixed_dec 2 (HourFromTime t) ++ u ":" ++
  fixed_dec 2 (MinFromTime t) ++ u ":" ++
  fixed_dec 2 (SecFromTime t) ++ u "." ++
  fixed_dec 3 (msFromTime t) ++ u "Z".

(** Decimal rendering of a non-negative integer ([Number::toString]). *)
Fixpoint dec_fuel (fuel : nat) (n : Z) : jsstring :=
  match fuel with
  | O => []
  | S f => if n <? 10 then [digit_of n] else dec_fuel f (n / 10) ++ [digit_of n]
  end.

Definition Number_toString (n : Z) : jsstring :=
  if n <? 0 then u "-" ++ dec_fuel (S (Z.to_nat (Z.log2 (- n)))) (- n)
  else dec_fuel (S (Z.to_nat (Z.log2 n))) n.

End JS.

Import JS.

(* ================================================================== *)
(** * iCalendar text: timestamps and property lines                    *)
(* ================================================================== *)

Module ICal.

(** The pattern [/[-:]/g]. *)
Definition re_dash_colon : regex :=
  [Atom (fun c => N.eqb c 45 || N.eqb c 58) One].

(** The pattern [/\.\d{3}/]. *)
Definition re_millis : regex :=
  [Atom (lit 46%N) One; Atom digit One; Atom digit One; Atom digit One].

(** [formatICalDate]: the ISO string without its dashes and colons, then
    without the first dot followed by three digits. *)
Definition formatICalDate (date : Z) : jsstring :=
  replace re_millis [] (replace_all re_dash_colon [] (toISOString date)).

(** The pattern [/KEY.*\r?\n/], [KEY] being a property name with its colon:
    the key, the longest run of units that are not line terminators, an
    optional carriage return and a line feed. *)
Definition re_line (key : jsstring) : regex :=
  lits key ++
  [Atom dot Star; Atom (lit CR) Opt; Atom (lit LF) One].

Definition SUMMARY := u "SUMMARY:".
Definition DESCRIPTION := u "DESCRIPTION:".
Definition LOCATION := u "LOCATION:".
Definition DTSTART := u "DTSTART:".
Definition DTEND := u "DTEND:".

(** [Array.prototype.join]. *)
Fixpoint join (sep : jsstring) (l : list jsstring) : jsstring :=
  match l with
  | [] => []
  | [x] => x
  | x :: l' => x ++ sep ++ join sep l'
  end.

(** [Boolean] of a string: the empty string is the only falsy one. *)
Definition nonempty (s : jsstring) : bool :=
  match s with [] => false | _ :: _ => true end.

(** ** The compact timestamp, as the design describes it

    The ISO timestamp up to its seconds, the separators to strip, and the
    sixteen-character form [YYYYMMDDTHHMMSSZ]. *)

Definition iso_seconds (t : Z) : jsstring :=
  iso_year (YearFromTime t) ++ u "-" ++
  fixed_dec 2 (MonthFromTime t + 1) ++ u "-" ++
  fixed_dec 2 (DateFromTime t) ++ u "T" ++
  fixed_dec 2 (HourFromTime t) ++ u ":" ++
  fixed_dec 2 (MinFromTime t) ++ u ":" ++
  fixed_dec 2 (SecFromTime t).

Definition is_separator (c : code_unit) : bool := N.eqb c 45 || N.eqb c 58.

Definition strip_separators (s : jsstring) : jsstring :=
  filter (fun c => negb (is_separator c)) s.

Definition compact_timestamp (t : Z) : jsstring :=
  fixed_dec 4 (YearFromTime t) ++
  fixed_dec 2 (MonthFromTime t + 1) ++
  fixed_dec 2 (DateFromTime t) ++ u "T" ++
  fixed_dec 2 (HourFromTime t) ++
  fixed_dec 2 (MinFromTime t) ++
  fixed_dec 2 (SecFromTime t) ++ u "Z".

(** The year as the encoder leaves it: the sign of a year before 0 goes
    with the dashes. *)
Definition compact_year (y : Z) : jsstring :=
  if (0 <=? y)%Z && (y <=? 9999)%Z then fixed_dec 4 y
  else if (y <? 0)%Z then fixed_dec 6 (- y)
  else u "+" ++ fixed_dec 6 y.

(** The units a compact timestamp is made of. *)
Definition stamp_unit (c : code_unit) : bool :=
  digit c || N.eqb c 43 || N.eqb c 84 || N.eqb c 90.

End ICal.

Import ICal.

(* ================================================================== *)
(** * The server: session state, CalDAV calls and the tool-call handler *)
(* ================================================================== *)

Module Server.

(** ** Data *)

(** A calendar as the CalDAV client returns it ([DAVCalendar]). *)
Record DAVCalendar := {
  cal_url : jsstring;
  cal_displayName : option jsstring;
  cal_description : option jsstring;
  cal_timezone : option jsstring
}.

(** A calendar object ([DAVCalendarObject]): address, concurrency token and
    iCalendar text. *)
Record DAVCalendarObject := {
  obj_url : jsstring;
  obj_etag : option jsstring;
  obj_data : jsstring
}.

(** The argument bag of a tool call.  The handler reads it without any
    check ([args as { ... }]): every property may be missing ([None] is
    [undefined]), and properties an operation does not destructure are
    ignored. *)
Record Args := {
  calendarUrl : option jsstring;
  eventUrl : option jsstring;
  summary : option jsstring;
  description : option jsstring;
  startDate : option jsstring;
  endDate : option jsstring;
  location : option jsstring;
  etag : option jsstring
}.

(** A value thrown by the CalDAV client: an [Error] with a message, or any
    other value, given by its [String] rendering. *)
Record ExtErr := { is_Error : bool; err_text : jsstring }.

(** The exceptions that can reach the handler's [catch], by throw site. *)
Inductive Exn :=
| CalendarNotFound (calendarUrl : option jsstring)
| InvalidStartDate (startDate : option jsstring)
| InvalidEndDate (endDate : option jsstring)
| EndNotAfterStart
| EventNotFound (eventUrl : option jsstring)
| UnknownTool (name : jsstring)
| TypeError (msg : jsstring)
| External (e : ExtErr).

(** [${x}] in a template literal. *)
Definition render (x : option jsstring) : jsstring :=
  match x with
  | Some s => s
  | None => u "undefined"
  end.

(** [error instanceof Error ? error.message : String(error)] *)
Definition errorMessage (e : Exn) : jsstring :=
  match e with
  | CalendarNotFound x => u "Calendar not found: " ++ render x
  | InvalidStartDate x => u "Invalid start date: " ++ render x
  | InvalidEndDate x => u "Invalid end date: " ++ render x
  | EndNotAfterStart => u "End date must be after start date"
  | EventNotFound x => u "Event not found: " ++ render x
  | UnknownTool n => u "Unknown tool: " ++ n
  | TypeError m => m
  | External e => err_text e
  end.

(** The record [list_calendars] builds for each calendar. *)
Record CalendarInfo := {
  displayName : option jsstring;
  url : jsstring;
  info_description : jsstring;
  timezone : jsstring
}.

(** The text of a result.  The two list operations print a value with
    [JSON.stringify (v, null, 2)]; the value is kept, its rendering is not
    expanded. *)
Inductive Text :=
| Plain (s : jsstring)
| JsonCalendars (calendarList : list CalendarInfo)
| JsonEvents (events : list DAVCalendarObject).

(** The result of a tool call: [{ content: [{ type: "text", text }],
    isError }]; [isError] is absent ([false]) from a success. *)
Record ToolResult := { text : Text; isError : bool }.

(** The requests sent to the CalDAV server, with their arguments. *)
Inductive NetCall :=
| CreateDAVClient
| FetchCalendars
| FetchCalendarObjects (calendar : DAVCalendar)
    (timeRange : option (option jsstring * option jsstring))
| CreateCalendarObject (calendar : DAVCalendar) (filename iCalString : jsstring)
| UpdateCalendarObject (url : option jsstring) (data : jsstring)
    (etag : option jsstring)
| DeleteCalendarObject (url etag : option jsstring).

(** Truthiness of an optional string: [undefined] and the empty string are
    falsy. *)
Definition truthy (x : option jsstring) : bool :=
  match x with
  | Some (_ :: _) => true
  | _ => false
  end.

(** [x || ""] *)
Definition or_empty (x : option jsstring) : jsstring :=
  match x with
  | Some s => s
  | None => []
  end.

(** [a === b] for a string and a possibly missing string. *)
Definition eq_arg (a : jsstring) (b : option jsstring) : bool :=
  match b with
  | Some s => jseqb a s
  | None => false
  end.


(** The request the search for an event sends for a calendar. *)
Definition fetch_call (calendar : DAVCalendar) : NetCall :=
  FetchCalendarObjects calendar None.

(** The same arguments with another [etag] property. *)
Definition with_etag (a : Args) (tag : option jsstring) : Args :=
  {| calendarUrl := calendarUrl a; eventUrl := eventUrl a;
     summary := summary a; description := description a;
     startDate := startDate a; endDate := endDate a;
     location := location a; etag := tag |}.

(** This address, if any, is the address of the object. *)
Definition at_url (url : option jsstring) (e : DAVCalendarObject) : bool :=
  eq_arg (obj_url e) url.

(** The outside world: the CalDAV server behind the client library, the
    clock and the date parser of the runtime. *)
Class Env := {
  World : Type;
  (** The client object [createDAVClient] resolves to. *)
  Client : Type;
  createDAVClient : World -> World * (ExtErr + Client);
  fetchCalendars : Client -> World -> World * (ExtErr + list DAVCalendar);
  fetchCalendarObjects :
    Client -> DAVCalendar -> option (option jsstring * option jsstring) ->
    World -> World * (ExtErr + list DAVCalendarObject);
  (** The result of a creation is read through [result.url] only. *)
  createCalendarObject :
    Client -> DAVCalendar -> jsstring -> jsstring ->
    World -> World * (ExtErr + option jsstring);
  updateCalendarObject :
    Client -> option jsstring -> jsstring -> option jsstring ->
    World -> World * (ExtErr + unit);
  deleteCalendarObject :
    Client -> option jsstring -> option jsstring ->
    World -> World * (ExtErr + unit);
  (** [Date.now ()] and [new Date ()]: the current time value. *)
  clock : World -> World * Z;
  (** The time value of [new Date (s)]; [None] is [NaN] (the grammar of
      accepted date strings is the runtime's). *)
  Date_parse : jsstring -> option Z;
  (** Message of the [TypeError] raised by reading a property of
      [undefined] or [null] (the text is the engine's). *)
  TypeError_message : jsstring
}.

Section Handler.

Context {E : Env}.

(** [new Date (x)] for an argument that may be missing:
    [new Date (undefined)] is an invalid date. *)
Definition new_Date (x : option jsstring) : option Z :=
  match x with
  | Some s => Date_parse s
  | None => None
  end.

(** ** Session state and the handler monad *)

(** The two variables the handlers close over, the world, and the requests
    sent so far. *)
Record State := {
  davClient : option Client;
  calendars : list DAVCalendar;
  world : World;
  trace : list NetCall
}.

(** A computation reads and writes the state and returns or throws. *)
Definition M (A : Type) : Type := State -> State * (Exn + A).

Definition ret {A} (a : A) : M A := fun st => (st, inr a).
Definition throw {A} (e : Exn) : M A := fun st => (st, inl e).
Definition bind {A B} (m : M A) (k : A -> M B) : M B :=
  fun st =>
    match m st with
    | (st', inr a) => k a st'
    | (st', inl e) => (st', inl e)
    end.

Notation "x <- m ;; k" := (bind m (fun x => k))
  (at level 61, m at next level, right associativity).
Notation "m ;;; k" := (bind m (fun _ => k))
  (at level 61, right associativity).

(** [await f (...)]: the request is recorded, the world answers. *)
Definition await {A} (call : NetCall) (f : World -> World * (ExtErr + A)) : M A :=
  fun st =>
    let (w', r) := f (world st) in
    let st' := {| davClient := davClient st; calendars := calendars st;
                  world := w'; trace := trace st ++ [call] |} in
    match r with
    | inr a => (st', inr a)
    | inl e => (st', inl (External e))
    end.

Definition now : M Z :=
  fun st =>
    let (w', t) := clock (world st) in
    ({| davClient := davClient st; calendars := calendars st;
        world := w'; trace := trace st |}, inr t).

Definition get_calendars : M (list DAVCalendar) := fun st => (st, inr (calendars st)).

(** Reading [davClient] to call one of its methods: a method call on
    [null] throws. *)
Definition the_client : M Client :=
  fun st =>
    match davClient st with
    | Some c => (st, inr c)
    | None => (st, inl (TypeError TypeError_message))
    end.

Definition set_davClient (c : Client) : M unit :=
  fun st => ({| davClient := Some c; calendars := calendars st;
                world := world st; trace := trace st |}, inr tt).

Definition set_calendars (l : list DAVCalendar) : M unit :=
  fun st => ({| davClient := davClient st; calendars := l;
                world := world st; trace := trace st |}, inr tt).

(** [initializeClient]: connect and fetch the calendar list unless a client
    is there already.  [davClient] is assigned as soon as the connection is
    made, before the calendars are fetched. *)
Definition initializeClient : M unit :=
  fun st =>
    match davClient st with
    | None =>
        (c <- await CreateDAVClient createDAVClient ;;
         set_davClient c ;;;
         l <- await FetchCalendars (fetchCalendars c) ;;
         set_calendars l) st
    | Some _ => (st, inr tt)
    end.

Definition lift {A} (r : Exn + A) : M A := fun st => (st, r).

(** ** The patch block of [update_event]

    The statements between [let updatedIcal = existingEvent.data] and the
    call of [updateCalendarObject], one definition for each [if]. *)

Definition patch_summary (args : Args) (updatedIcal : jsstring) : jsstring :=
  if truthy (summary args) then
    replace (re_line SUMMARY) (SUMMARY ++ render (summary args) ++ CRLF)
            updatedIcal
  else updatedIcal.

Definition patch_description (args : Args) (updatedIcal : jsstring) : jsstring :=
  match description args with
  | Some d =>
      if includes updatedIcal DESCRIPTION then
        replace (re_line DESCRIPTION) (DESCRIPTION ++ d ++ CRLF) updatedIcal
      else
        replace (re_line SUMMARY) (u "$&" ++ DESCRIPTION ++ d ++ CRLF)
                updatedIcal
  | None => updatedIcal
  end.

Definition patch_location (args : Args) (updatedIcal : jsstring) : jsstring :=
  match location args with
  | Some l =>
      if includes updatedIcal LOCATION then
        replace (re_line LOCATION) (LOCATION ++ l ++ CRLF) updatedIcal
      else
        replace (re_line SUMMARY) (u "$&" ++ LOCATION ++ l ++ CRLF)
                updatedIcal
  | None => updatedIcal
  end.

Definition patch_startDate (args : Args) (updatedIcal : jsstring)
  : Exn + jsstring :=
  if truthy (startDate args) then
    match new_Date (startDate args) with
    | None => inl (InvalidStartDate (startDate args))
    | Some start =>
        inr (replace (re_line DTSTART) (DTSTART ++ formatICalDate start ++ CRLF)
                     updatedIcal)
    end
  else inr updatedIcal.

Definition patch_endDate (args : Args) (updatedIcal : jsstring)
  : Exn + jsstring :=
  if truthy (endDate args) then
    match new_Date (endDate args) with
    | None => inl (InvalidEndDate (endDate args))
    | Some end_ =>
        inr (replace (re_line DTEND) (DTEND ++ formatICalDate end_ ++ CRLF)
                     updatedIcal)
    end
  else inr updatedIcal.

(** The whole block: the body sent back to the server, or the exception
    thrown on the way. *)
Definition applyPatch (args : Args) (data : jsstring) : Exn + jsstring :=
  let updatedIcal := data in
  let updatedIcal := patch_summary args updatedIcal in
  let updatedIcal := patch_description args updatedIcal in
  let updatedIcal := patch_location args updatedIcal in
  match patch_startDate args updatedIcal with
  | inl e => inl e
  | inr updatedIcal => patch_endDate args updatedIcal
  end.

(** ** The operations *)

(** [const { ... } = args]: reading the properties of a missing bag
    throws. *)
Definition destructure (args : option Args) : M Args :=
  match args with
  | Some a => ret a
  | None => throw (TypeError TypeError_message)
  end.

(** [calendars.find ((cal) => cal.url === calendarUrl)] and the [throw] that
    follows it. *)
Definition find_calendar (calendarUrl : option jsstring) : M DAVCalendar :=
  cals <- get_calendars ;;
  match find (fun cal => eq_arg (cal_url cal) calendarUrl) cals with
  | Some calendar => ret calendar
  | None => throw (CalendarNotFound calendarUrl)
  end.

Definition parse_start (startDate : option jsstring) : M Z :=
  match new_Date startDate with
  | Some start => ret start
  | None => throw (InvalidStartDate startDate)
  end.

Definition parse_end (endDate : option jsstring) : M Z :=
  match new_Date endDate with
  | Some end_ => ret end_
  | None => throw (InvalidEndDate endDate)
  end.

Definition list_calendars : M ToolResult :=
  cals <- get_calendars ;;
  let calendarList :=
    map (fun cal => {| displayName := cal_displayName cal;
                       url := cal_url cal;
                       info_description := or_empty (cal_description cal);
                       timezone := or_empty (cal_timezone cal) |}) cals in
  ret {| text := JsonCalendars calendarList; isError := false |}.

Definition list_events (args : option Args) : M ToolResult :=
  a <- destructure args ;;
  calendar <- find_calendar (calendarUrl a) ;;
  parse_start (startDate a) ;;;
  parse_end (endDate a) ;;;
  c <- the_client ;;
  let timeRange := Some (startDate a, endDate a) in
  calendarObjects <- await (FetchCalendarObjects calendar timeRange)
                           (fetchCalendarObjects c calendar timeRange) ;;
  let events := map (fun obj => {| obj_url := obj_url obj;
                                   obj_etag := obj_etag obj;
                                   obj_data := obj_data obj |}) calendarObjects in
  ret {| text := JsonEvents events; isError := false |}.

(** The text [create_event] sends: the lines that are not empty, joined by
    CR LF. *)
Definition icalString (uid : jsstring) (stamp start end_ : Z)
           (summary description location : option jsstring) : jsstring :=
  join CRLF
    (filter nonempty
       [ u "BEGIN:VCALENDAR";
         u "VERSION:2.0";
         u "PRODID:-//Fastmail Calendar MCP//EN";
         u "BEGIN:VEVENT";
         u "UID:" ++ uid;
         u "DTSTAMP:" ++ formatICalDate stamp;
         DTSTART ++ formatICalDate start;
         DTEND ++ formatICalDate end_;
         SUMMARY ++ render summary;
         if truthy description then DESCRIPTION ++ render description else [];
         if truthy location then LOCATION ++ render location else [];
         u "END:VEVENT";
         u "END:VCALENDAR" ]).

Definition create_event (args : option Args) : M ToolResult :=
  a <- destructure args ;;
  calendar <- find_calendar (calendarUrl a) ;;
  start <- parse_start (startDate a) ;;
  end_ <- parse_end (endDate a) ;;
  if (end_ <=? start)%Z then throw EndNotAfterStart
  else
    t <- now ;;
    let uid := Number_toString t ++ u "@fastmail-mcp" in
    stamp <- now ;;
    let ical := icalString uid stamp start end_
                           (summary a) (description a) (location a) in
    c <- the_client ;;
    let filename := uid ++ u ".ics" in
    result_url <- await (CreateCalendarObject calendar filename ical)
                        (createCalendarObject c calendar filename ical) ;;
    ret {| text := Plain (u "Event created successfully: " ++ render (summary a)
                          ++ [LF] ++ u "URL: " ++ render result_url);
           isError := false |}.

(** The loop over [calendars] of [update_event]: each calendar's objects
    are fetched without a time range and searched for the address; the
    first hit ends the loop. *)
Fixpoint locate (cals : list DAVCalendar) (eventUrl : option jsstring)
  : M (option DAVCalendarObject) :=
  match cals with
  | [] => ret None
  | calendar :: rest =>
      c <- the_client ;;
      events <- await (FetchCalendarObjects calendar None)
                      (fetchCalendarObjects c calendar None) ;;
      match find (at_url eventUrl) events with
      | Some existingEvent => ret (Some existingEvent)
      | None => locate rest eventUrl
      end
  end.

Definition update_event (args : option Args) : M ToolResult :=
  a <- destructure args ;;
  cals <- get_calendars ;;
  found <- locate cals (eventUrl a) ;;
  match found with
  | None => throw (EventNotFound (eventUrl a))
  | Some existingEvent =>
      updatedIcal <- lift (applyPatch a (obj_data existingEvent)) ;;
      c <- the_client ;;
      await (UpdateCalendarObject (eventUrl a) updatedIcal (obj_etag existingEvent))
            (updateCalendarObject c (eventUrl a) updatedIcal
                                  (obj_etag existingEvent)) ;;;
      ret {| text := Plain (u "Event updated successfully: " ++ render (eventUrl a));
             isError := false |}
  end.

Definition delete_event (args : option Args) : M ToolResult :=
  a <- destructure args ;;
  c <- the_client ;;
  await (DeleteCalendarObject (eventUrl a) (etag a))
        (deleteCalendarObject c (eventUrl a) (etag a)) ;;;
  ret {| text := Plain (u "Event deleted successfully: " ++ render (eventUrl a));
         isError := false |}.

(** The body of the [try] block. *)
Definition dispatch (name : jsstring) (args : option Args) : M ToolResult :=
  initializeClient ;;;
  if jseqb name (u "list_calendars") then list_calendars
  else if jseqb name (u "list_events") then list_events args
  else if jseqb name (u "create_event") then create_event args
  else if jseqb name (u "update_event") then update_event args
  else if jseqb name (u "delete_event") then delete_event args
  else throw (UnknownTool name).

(** The result the [catch] block builds. *)
Definition error_result (error : Exn) : ToolResult :=
  {| text := Plain (u "Error: " ++ errorMessage error); isError := true |}.

(** The [CallToolRequestSchema] handler: [try { ... } catch (error) { ... }]. *)
Definition handler (name : jsstring) (args : option Args) (st : State)
  : State * ToolResult :=
  match dispatch name args st with
  | (st', inr result) => (st', result)
  | (st', inl error) => (st', error_result error)
  end.

(** The state after more requests have been sent, all else unchanged. *)
Definition sent (st : State) (calls : list NetCall) : State :=
  {| davClient := davClient st; calendars := calendars st;
     world := world st; trace := trace st ++ calls |}.

(** What the server holds for a calendar in world [w], as a fetch without a
    time range returns it to client [c]. *)
Definition objects (c : Client) (w : World) (calendar : DAVCalendar)
  : ExtErr + list DAVCalendarObject :=
  snd (fetchCalendarObjects c calendar None w).

(** The calendar can be fetched and none of its objects is at [url]. *)
Definition without_match (c : Client) (w : World) (url : option jsstring)
           (calendar : DAVCalendar) : Prop :=
  exists evs, objects c w calendar = inr evs /\ find (at_url url) evs = None.

End Handler.

End Server.

(* ================================================================== *)
(** * Interleaved calls of [initializeClient]                          *)
(* ================================================================== *)

(** The handler is an [async] function: it runs without interruption from
    one [await] to the next, and while it is suspended other calls of the
    handler may run.  [initializeClient] has two [await]s, so a call of it
    goes through the stages below; the calls share [davClient] and
    [calendars]. *)

Module Bootstrap.
Import Server.

Section Interleaving.

Context {E : Env}.

Inductive Stage :=
| Entry
    (* about to test [!davClient] *)
| AwaitCreate (answer : ExtErr + Client)
    (* suspended at [await createDAVClient (...)] *)
| AwaitFetch (answer : ExtErr + list DAVCalendar)
    (* suspended at [await davClient.fetchCalendars ()] *)
| Returned (seen : list DAVCalendar)
    (* back in the handler, which finds [calendars] as [seen] *)
| Failed (error : Exn).

(** One uninterrupted run of a call, from its stage to its next [await] or
    to its end. *)
Definition advance (st : State) (s : Stage) : State * Stage :=
  match s with
  | Entry =>
      match davClient st with
      | Some _ => (st, Returned (calendars st))
      | None =>
          let (w', r) := createDAVClient (world st) in
          ({| davClient := davClient st; calendars := calendars st;
              world := w'; trace := trace st ++ [CreateDAVClient] |},
           AwaitCreate r)
      end
  | AwaitCreate (inr c) =>
      let (w', r) := fetchCalendars c (world st) in
      ({| davClient := Some c; calendars := calendars st;
          world := w'; trace := trace st ++ [FetchCalendars] |},
       AwaitFetch r)
  | AwaitCreate (inl e) => (st, Failed (External e))
  | AwaitFetch (inr l) =>
      ({| davClient := davClient st; calendars := l;
          world := world st; trace := trace st |}, Returned l)
  | AwaitFetch (inl e) => (st, Failed (External e))
  | Returned _ | Failed _ => (st, s)
  end.

(** The shared state and the stage of every call in flight. *)
Record System := { shared : State; stages : list Stage }.

Fixpoint set_nth {A} (i : nat) (a : A) (l : list A) : list A :=
  match l, i with
  | [], _ => []
  | _ :: l', O => a :: l'
  | x :: l', S i' => x :: set_nth i' a l'
  end.

(** The event loop resumes call [i]. *)
Definition resume (i : nat) (sys : System) : System :=
  match nth_error (stages sys) i with
  | Some s =>
      let (st', s') := advance (shared sys) s in
      {| shared := st'; stages := set_nth i s' (stages sys) |}
  | None => sys
  end.

(** A schedule names the calls in the order the event loop resumes them. *)
Fixpoint run (schedule : list nat) (sys : System) : System :=
  match schedule with
  | [] => sys
  | i :: rest => run rest (resume i sys)
  end.

Definition is_handshake (c : NetCall) : bool :=
  match c with
  | CreateDAVClient => true
  | _ => false
  end.

(** The number of authentication handshakes among the requests sent. *)
Definition handshakes (st : State) : nat :=
  List.length (filter is_handshake (trace st)).

(** The calendar list a call found on its return, if it has returned. *)
Definition seen_by (s : Stage) : option (list DAVCalendar) :=
  match s with
  | Returned seen => Some seen
  | _ => None
  end.

(** Two calls of the handler, neither of which has started. *)
Definition two_calls (st : State) : System :=
  {| shared := st; stages := [Entry; Entry] |}.

End Interleaving.
End Bootstrap.

(* ================================================================== *)
(** * A reference world, to run the handler                            *)
(* ================================================================== *)

Module Scenario.
Import Server.

Local Open Scope Z_scope.

(** ** A parser for the UTC forms of the Date Time String Format

    [YYYY-MM-DD], [YYYY-MM-DDTHH:mm:ssZ] and [YYYY-MM-DDTHH:mm:ss.sssZ];
    every other string is rejected. *)

Fixpoint digits_val (acc : Z) (s : jsstring) : option Z :=
  match s with
  | [] => Some acc
  | c :: s' =>
      if digit c then digits_val (10 * acc + (Z.of_N c - 48)) s' else None
  end.

Definition number (s : jsstring) : option Z :=
  match s with
  | [] => None
  | _ :: _ => digits_val 0 s
  end.

Definition DaysInMonth (y m : Z) : Z :=
  match m with
  | 2 => DaysInYear y - 337
  | 4 | 6 | 9 | 11 => 30
  | _ => 31
  end.

(** Days from the start of the year to the start of month [m] (1 to 12). *)
Definition month_start (y m : Z) : Z :=
  let l := DaysInYear y - 365 in
  match m with
  | 1 => 0
  | 2 => 31
  | 3 => 59 + l
  | 4 => 90 + l
  | 5 => 120 + l
  | 6 => 151 + l
  | 7 => 181 + l
  | 8 => 212 + l
  | 9 => 243 + l
  | 10 => 273 + l
  | 11 => 304 + l
  | _ => 334 + l
  end.

Definition parse_date (s : jsstring) : option Z :=
  match s with
  | [y1; y2; y3; y4; 45%N; m1; m2; 45%N; d1; d2] =>
      match number [y1; y2; y3; y4], number [m1; m2], number [d1; d2] with
      | Some y, Some m, Some d =>
          if (1 <=? m) && (m <=? 12) && (1 <=? d) && (d <=? DaysInMonth y m)
          then Some ((DayFromYear y + month_start y m + d - 1) * msPerDay)
          else None
      | _, _, _ => None
      end
  | _ => None
  end.

Definition parse_time (s : jsstring) : option Z :=
  match s with
  | h1 :: h2 :: 58%N :: m1 :: m2 :: 58%N :: s1 :: s2 :: frac =>
      match number [h1; h2], number [m1; m2], number [s1; s2] with
      | Some h, Some m, Some sec =>
          if (h <=? 23) && (m <=? 59) && (sec <=? 59) then
            let t := h * msPerHour + m * msPerMinute + sec * msPerSecond in
            match frac with
            | [90%N] => Some t
            | [46%N; f1; f2; f3; 90%N] =>
                match number [f1; f2; f3] with
                | Some ms => Some (t + ms)
                | None => None
                end
            | _ => None
            end
          else None
      | _, _, _ => None
      end
  | _ => None
  end.

Definition Date_parse_utc (s : jsstring) : option Z :=
  match parse_date (firstn 10 s), skipn 10 s with
  | Some day, [] => Some day
  | Some day, 84%N :: time =>
      match parse_time time with
      | Some t => Some (day + t)
      | None => None
      end
  | _, _ => None
  end.

(** ** An in-memory calendar store

    Calendars with their objects, and a clock that advances by one
    millisecond at each reading.  Connecting always succeeds; a fetch
    returns every object of the calendar (the time range is not applied);
    an update or a deletion takes effect when the token matches the stored
    one and is refused otherwise. *)

Record Store := {
  store : list (DAVCalendar * list DAVCalendarObject);
  time : Z
}.

Definition refused (msg : string) : ExtErr :=
  {| is_Error := true; err_text := u msg |}.

Definition eq_opt (a b : option jsstring) : bool :=
  match a, b with
  | Some x, Some y => jseqb x y
  | None, None => true
  | _, _ => false
  end.

Definition connect (w : Store) : Store * (ExtErr + unit) := (w, inr tt).

Definition calendars_of (_ : unit) (w : Store)
  : Store * (ExtErr + list DAVCalendar) :=
  (w, inr (map fst (store w))).

Definition objects_of (_ : unit) (calendar : DAVCalendar)
           (_ : option (option jsstring * option jsstring)) (w : Store)
  : Store * (ExtErr + list DAVCalendarObject) :=
  match find (fun e => jseqb (cal_url (fst e)) (cal_url calendar)) (store w) with
  | Some e => (w, inr (snd e))
  | None => (w, inl (refused "404 Not Found"))
  end.

Definition add_object (_ : unit) (calendar : DAVCalendar)
           (filename iCalString : jsstring) (w : Store)
  : Store * (ExtErr + option jsstring) :=
  let address := cal_url calendar ++ filename in
  let obj := {| obj_url := address; obj_etag := Some (u "etag-1");
                obj_data := iCalString |} in
  ({| store := map (fun e => if jseqb (cal_url (fst e)) (cal_url calendar)
                             then (fst e, snd e ++ [obj]) else e) (store w);
      time := time w |}, inr (Some address)).

Definition current (url etag : option jsstring) (o : DAVCalendarObject) : bool :=
  eq_arg (obj_url o) url && eq_opt (obj_etag o) etag.

Definition holds (url etag : option jsstring) (w : Store) : bool :=
  existsb (fun e => existsb (current url etag) (snd e)) (store w).

Definition put_object (_ : unit) (url : option jsstring)
           (data : jsstring) (etag : option jsstring) (w : Store)
  : Store * (ExtErr + unit) :=
  if holds url etag w then
    ({| store := map (fun e =>
                   (fst e,
                    map (fun o => if current url etag o
                                  then {| obj_url := obj_url o;
                                          obj_etag := option_map (fun t => t ++ u "'") (obj_etag o);
                                          obj_data := data |}
                                  else o) (snd e))) (store w);
        time := time w |}, inr tt)
  else (w, inl (refused "412 Precondition Failed")).

Definition remove_object (_ : unit) (url etag : option jsstring)
           (w : Store) : Store * (ExtErr + unit) :=
  if holds url etag w then
    ({| store := map (fun e =>
                   (fst e, filter (fun o => negb (current url etag o)) (snd e)))
                   (store w);
        time := time w |}, inr tt)
  else (w, inl (refused "412 Precondition Failed")).

Definition tick (w : Store) : Store * Z :=
  ({| store := store w; time := time w + 1 |}, time w).

#[export] Instance memory : Env := {|
  World := Store;
  Client := unit;
  createDAVClient := connect;
  fetchCalendars := calendars_of;
  fetchCalendarObjects := objects_of;
  createCalendarObject := add_object;
  updateCalendarObject := put_object;
  deleteCalendarObject := remove_object;
  clock := tick;
  Date_parse := Date_parse_utc;
  TypeError_message := u "Cannot read properties of undefined"
|}.

(** A session that has not connected yet. *)
Definition fresh (w : Store) : State :=
  {| davClient := None; calendars := []; world := w; trace := [] |}.

(** ** Sample data *)

Definition calendar_at (url name : string) : DAVCalendar :=
  {| cal_url := u url; cal_displayName := Some (u name);
     cal_description := None; cal_timezone := None |}.

Definition work : DAVCalendar := calendar_at "/dav/work/" "Work".
Definition home : DAVCalendar := calendar_at "/dav/home/" "Home".
Definition family : DAVCalendar := calendar_at "/dav/family/" "Family".
Definition shared_cal : DAVCalendar := calendar_at "/dav/shared/" "Shared".

(** 15 June 2024, 10:00:00.123 UTC. *)
Definition june15 : Z := 1718445600123.

(** An event as [create_event] writes it, without description or
    location. *)
Definition planning : jsstring :=
  icalString (u "1718445600123@fastmail-mcp") june15 june15 (june15 + 3600000)
             (Some (u "Planning")) None None.

(** An event as [create_event] writes it, whose title mentions another
    property name. *)
Definition venue : jsstring :=
  icalString (u "1718445600123@fastmail-mcp") june15 june15 (june15 + 3600000)
             (Some (u "Confirm LOCATION: with venue")) None (Some (u "Room 1")).

Definition planning_object : DAVCalendarObject :=
  {| obj_url := u "/dav/family/planning.ics"; obj_etag := Some (u "v1");
     obj_data := planning |}.

(** Four calendars, the event in the third. *)
Definition account : Store :=
  {| store := [(work, []); (home, []); (family, [planning_object]);
               (shared_cal, [])];
     time := june15 |}.

(** The session after its initialization against [account]. *)
Definition initialized : State :=
  {| davClient := Some tt;
     calendars := [work; home; family; shared_cal];
     world := account;
     trace := [CreateDAVClient; FetchCalendars] |}.

(** A description of two lines. *)
Definition with_agenda : Args :=
  {| calendarUrl := None; eventUrl := Some (u "/dav/family/planning.ics");
     summary := None;
     description := Some (u "Agenda:" ++ [LF] ++ u "- budget");
     startDate := None; endDate := None; location := None; etag := None |}.

Definition with_room2 : Args :=
  {| calendarUrl := None; eventUrl := Some (u "/dav/family/planning.ics");
     summary := None; description := None;
     startDate := None; endDate := None;
     location := Some (u "Room 2"); etag := None |}.


Definition with_summary (s : string) : Args :=
  {| calendarUrl := None; eventUrl := Some (u "/dav/family/planning.ics");
     summary := Some (u s); description := None;
     startDate := None; endDate := None; location := None; etag := None |}.

Definition with_start (s : string) : Args :=
  {| calendarUrl := None; eventUrl := Some (u "/dav/family/planning.ics");
     summary := None; description := None;
     startDate := Some (u s); endDate := None; location := None;
     etag := None |}.

Definition event_args (calendar start end_ : string) : Args :=
  {| calendarUrl := Some (u calendar); eventUrl := None;
     summary := Some (u "Planning"); description := None;
     startDate := Some (u start); endDate := Some (u end_);
     location := None; etag := None |}.

(** The text of both events up to their [SUMMARY] line. *)
Definition event_head : jsstring :=
  u "BEGIN:VCALENDAR" ++ CRLF ++ u "VERSION:2.0" ++ CRLF ++
  u "PRODID:-//Fastmail Calendar MCP//EN" ++ CRLF ++
  u "BEGIN:VEVENT" ++ CRLF ++
  u "UID:1718445600123@fastmail-mcp" ++ CRLF ++
  u "DTSTAMP:20240615T100000Z" ++ CRLF ++
  u "DTSTART:20240615T100000Z" ++ CRLF ++
  u "DTEND:20240615T110000Z" ++ CRLF.

(** The text of [planning] up to and with its [SUMMARY] line, and the rest
    of it. *)
Definition planning_head : jsstring :=
  event_head ++ u "SUMMARY:Planning" ++ CRLF.

Definition planning_tail : jsstring :=
  u "END:VEVENT" ++ CRLF ++ u "END:VCALENDAR".

(** The texts the store holds, calendar by calendar. *)
Definition stored (st : State) : list (list jsstring) :=
  map (fun e => map obj_data (snd e)) (store (world st)).

End Scenario.

(* ================================================================== *)
(** * Line ends                                                        *)
(* ================================================================== *)

Module Lines.

(** What is left of a text after its first line end, when the first line
    terminator met is a line feed, or a carriage return that a line feed
    follows: the scan the tail [.*\r?\n] of a property pattern amounts
    to. *)
Fixpoint line_rest (t : jsstring) : option jsstring :=
  match t with
  | [] => None
  | c :: t' =>
      if dot c then line_rest t'
      else if N.eqb c CR then
        match t' with
        | d :: r => if N.eqb d LF then Some r else None
        | [] => None
        end
      else if N.eqb c LF then Some t'
      else None
  end.

(** A line end: CR LF or LF. *)
Definition is_eol (e : jsstring) : Prop := e = CRLF \/ e = [LF].

(** A value that can stand on one line of a replacement: no line
    terminator and no dollar sign. *)
Definition one_line (v : jsstring) : bool := forallb dot v && plain v.

Definition one_line_opt (x : option jsstring) : bool :=
  match x with
  | Some v => one_line v
  | None => true
  end.

(** The step of [update_event] for [description] and for [location], for a
    property name [key] and a value [v]: replace the first line of the
    property when the name occurs in the text, else put a line after the
    first [SUMMARY] line. *)
Definition insert_or_replace (key v updatedIcal : jsstring) : jsstring :=
  if includes updatedIcal key then
    replace (re_line key) (key ++ v ++ CRLF) updatedIcal
  else
    replace (re_line SUMMARY) (u "$&" ++ key ++ v ++ CRLF) updatedIcal.

(** [out] is [body] with at most one segment rewritten, a segment that
    runs from one of the names [keys] to the next line end on the same
    line; the text before and after the segment is the same. *)
Definition rewrites_line (keys : list jsstring) (body out : jsstring) : Prop :=
  out = body \/
  exists pre key run e new post,
    In key keys /\ forallb dot run = true /\ is_eol e /\
    body = pre ++ (key ++ run ++ e) ++ post /\
    out = pre ++ new ++ post.

(** No unit of [s] is [c]. *)
Definition lacks (c : code_unit) (s : jsstring) : bool :=
  forallb (fun x => negb (N.eqb x c)) s.

(** The text of [icalString] in front of its [DTSTART] line, and behind
    its [SUMMARY] line. *)
Definition ical_head (uid : jsstring) (stamp : Z) : jsstring :=
  u "BEGIN:VCALENDAR" ++ CRLF ++ u "VERSION:2.0" ++ CRLF ++
  u "PRODID:-//Fastmail Calendar MCP//EN" ++ CRLF ++
  u "BEGIN:VEVENT" ++ CRLF ++ u "UID:" ++ uid ++ CRLF ++
  u "DTSTAMP:" ++ formatICalDate stamp ++ CRLF.

Definition ical_tail (description location : option jsstring) : jsstring :=
  join CRLF
    (filter nonempty
       [ if Server.truthy description
         then DESCRIPTION ++ Server.render description else [];
         if Server.truthy location
         then LOCATION ++ Server.render location else [];
         u "END:VEVENT";
         u "END:VCALENDAR" ]).

Definition created_uid (t : Z) : jsstring :=
  Number_toString t ++ u "@fastmail-mcp".

End Lines.

(* ================================================================== *)
(** * The requests of a call                                           *)
(* ================================================================== *)

Module Requests.
Import Server.

(** The two requests of [initializeClient]. *)
Definition session_call (call : NetCall) : bool :=
  match call with
  | CreateDAVClient | FetchCalendars => true
  | _ => false
  end.

Definition data_call (call : NetCall) : bool := negb (session_call call).

(** The requests found in the [case] of an operation name, and the two of
    [initializeClient], which runs in front of the [switch]. *)
Definition allowed (name : jsstring) (call : NetCall) : bool :=
  match call with
  | CreateDAVClient | FetchCalendars => true
  | FetchCalendarObjects _ _ =>
      jseqb name (u "list_events") || jseqb name (u "update_event")
  | CreateCalendarObject _ _ _ => jseqb name (u "create_event")
  | UpdateCalendarObject _ _ _ => jseqb name (u "update_event")
  | DeleteCalendarObject _ _ => jseqb name (u "delete_event")
  end.

Section WithEnv.

Context {E : Env}.

(** Every request of the computation satisfies [P]. *)
Definition sends {A} (P : NetCall -> bool) (m : M A) : Prop :=
  forall st, exists calls,
    trace (fst (m st)) = trace st ++ calls /\ forallb P calls = true.

(** The computation assigns neither [davClient] nor [calendars]. *)
Definition stable {A} (m : M A) : Prop :=
  forall st, davClient (fst (m st)) = davClient st /\
             calendars (fst (m st)) = calendars st.

(** The [switch] of the handler: the five operations and the default. *)
Definition operation (name : jsstring) (args : option Args) : M ToolResult :=
  if jseqb name (u "list_calendars") then list_calendars
  else if jseqb name (u "list_events") then list_events args
  else if jseqb name (u "create_event") then create_event args
  else if jseqb name (u "update_event") then update_event args
  else if jseqb name (u "delete_event") then delete_event args
  else throw (UnknownTool name).

(** The session after a sequence of tool calls. *)
Fixpoint run_calls (l : list (jsstring * option Args)) (st : State) : State :=
  match l with
  | [] => st
  | (name, args) :: l' => run_calls l' (fst (handler name args st))
  end.

End WithEnv.

End Requests.

(* ================================================================== *)
(** * A server that is reachable but refuses the calendar list         *)
(* ================================================================== *)

Module Outage.
Import Server Scenario.

Definition no_calendars (_ : unit) (w : Store)
  : Store * (ExtErr + list DAVCalendar) :=
  (w, inl (refused "503 Service Unavailable")).

(** The in-memory store, its calendar list out of reach. *)
Definition offline : Env := {|
  World := Store;
  Client := unit;
  createDAVClient := connect;
  fetchCalendars := no_calendars;
  fetchCalendarObjects := objects_of;
  createCalendarObject := add_object;
  updateCalendarObject := put_object;
  deleteCalendarObject := remove_object;
  clock := tick;
  Date_parse := Date_parse_utc;
  TypeError_message := u "Cannot read properties of undefined"
|}.

Definition cold : @State offline :=
  @Build_State offline None [] account [].

End Outage.

(* ================================================================== *)
(** * [encodeURIComponent] and [decodeURIComponent]                    *)
(* ================================================================== *)

(** The abstract operations Encode and Decode of the ECMAScript
    specification, with the unescaped set of [encodeURIComponent] and the
    empty preserved set of [decodeURIComponent].  [None] is the [URIError]
    they throw. *)

Module URI.
Import JS.

Local Open Scope N_scope.

Definition PERCENT : code_unit := 37.

Definition alpha (c : code_unit) : bool :=
  (65 <=? c) && (c <=? 90) || (97 <=? c) && (c <=? 122).

(** The ASCII word characters and [-.!~*'()]. *)
Definition unescaped (c : code_unit) : bool :=
  alpha c || digit c ||
  existsb (N.eqb c) [95; 45; 46; 33; 126; 42; 39; 40; 41].

Definition is_leading_surrogate (c : code_unit) : bool :=
  (0xD800 <=? c) && (c <=? 0xDBFF).

Definition is_trailing_surrogate (c : code_unit) : bool :=
  (0xDC00 <=? c) && (c <=? 0xDFFF).

Definition UTF16SurrogatePairToCodePoint (lead trail : code_unit) : N :=
  (lead - 0xD800) * 0x400 + (trail - 0xDC00) + 0x10000.

(** The octets of the UTF-8 form of a code point. *)
Definition UTF8_encode (cp : N) : list N :=
  if cp <? 0x80 then [cp]
  else if cp <? 0x800 then [0xC0 + cp / 64; 0x80 + cp mod 64]
  else if cp <? 0x10000 then
    [0xE0 + cp / 4096; 0x80 + (cp / 64) mod 64; 0x80 + cp mod 64]
  else
    [0xF0 + cp / 262144; 0x80 + (cp / 4096) mod 64;
     0x80 + (cp / 64) mod 64; 0x80 + cp mod 64].

(** A hexadecimal digit, in upper case. *)
Definition hex_digit (n : N) : code_unit :=
  if n <? 10 then 48 + n else 55 + n.

Definition escape_octet (b : N) : jsstring :=
  [PERCENT; hex_digit (b / 16); hex_digit (b mod 16)].

Definition escape (octets : list N) : jsstring := flat_map escape_octet octets.

Definition prepend (a : jsstring) (r : option jsstring) : option jsstring :=
  match r with
  | Some s => Some (a ++ s)
  | None => None
  end.

(** Encode: an unescaped unit stands for itself; any other code point is
    written as the escaped octets of its UTF-8 form; a surrogate that is
    not part of a pair is an error. *)
Fixpoint Encode (s : jsstring) : option jsstring :=
  match s with
  | [] => Some []
  | c :: rest =>
      if unescaped c then prepend [c] (Encode rest)
      else if is_trailing_surrogate c then None
      else if is_leading_surrogate c then
        match rest with
        | d :: rest' =>
            if is_trailing_surrogate d then
              prepend (escape (UTF8_encode (UTF16SurrogatePairToCodePoint c d)))
                      (Encode rest')
            else None
        | [] => None
        end
      else prepend (escape (UTF8_encode c)) (Encode rest)
  end.

Definition encodeURIComponent (uriComponent : jsstring) : option jsstring :=
  Encode uriComponent.

Definition hex_value (c : code_unit) : option N :=
  if digit c then Some (c - 48)
  else if (65 <=? c) && (c <=? 70) then Some (c - 55)
  else if (97 <=? c) && (c <=? 102) then Some (c - 87)
  else None.

Definition ParseHexOctet (h1 h2 : code_unit) : option N :=
  match hex_value h1, hex_value h2 with
  | Some a, Some b => Some (16 * a + b)
  | _, _ => None
  end.

(** The number of leading one bits of an octet (five stands for five and
    more). *)
Definition leading_ones (B : N) : nat :=
  if B <? 0x80 then 0
  else if B <? 0xC0 then 1
  else if B <? 0xE0 then 2
  else if B <? 0xF0 then 3
  else if B <? 0xF8 then 4
  else 5.

Definition continuation (b : N) : bool := (0x80 <=? b) && (b <? 0xC0).

Definition is_surrogate (v : N) : bool := (0xD800 <=? v) && (v <=? 0xDFFF).

(** The code point of a well-formed UTF-8 sequence of two to four octets
    whose first octet has as many leading one bits: continuation octets,
    the shortest form, no surrogate, at most [0x10FFFF]. *)
Definition UTF8_decode (octets : list N) : option N :=
  match octets with
  | [b0; b1] =>
      let v := (b0 - 0xC0) * 64 + (b1 - 0x80) in
      if continuation b1 && (0x80 <=? v) then Some v else None
  | [b0; b1; b2] =>
      let v := (b0 - 0xE0) * 4096 + (b1 - 0x80) * 64 + (b2 - 0x80) in
      if continuation b1 && continuation b2 && (0x800 <=? v)
         && negb (is_surrogate v)
      then Some v else None
  | [b0; b1; b2; b3] =>
      let v := (b0 - 0xF0) * 262144 + (b1 - 0x80) * 4096
               + (b2 - 0x80) * 64 + (b3 - 0x80) in
      if continuation b1 && continuation b2 && continuation b3
         && (0x10000 <=? v) && (v <=? 0x10FFFF)
      then Some v else None
  | _ => None
  end.

Definition UTF16EncodeCodePoint (cp : N) : jsstring :=
  if cp <=? 0xFFFF then [cp]
  else [(cp - 0x10000) / 0x400 + 0xD800; (cp - 0x10000) mod 0x400 + 0xDC00].

(** Decode.  [need] is the number of octets of the current sequence still
    to be read and [octets] the ones read so far; outside a sequence [need]
    is zero.  A unit other than [%] stands for itself; an escape whose octet
    has no leading one bit stands for that unit; an octet with two to four
    leading one bits opens a sequence of that many escapes, which stands
    for the UTF-16 form of the code point they encode. *)
Fixpoint Decode_from (need : nat) (octets : list N) (s : jsstring)
  : option jsstring :=
  match need with
  | O =>
      match s with
      | [] => Some []
      | c :: rest =>
          if N.eqb c PERCENT then
            match rest with
            | h1 :: h2 :: rest' =>
                match ParseHexOctet h1 h2 with
                | Some B =>
                    match leading_ones B with
                    | O => prepend [B] (Decode_from 0 [] rest')
                    | 2%nat => Decode_from 1 [B] rest'
                    | 3%nat => Decode_from 2 [B] rest'
                    | 4%nat => Decode_from 3 [B] rest'
                    | _ => None
                    end
                | None => None
                end
            | _ => None
            end
          else prepend [c] (Decode_from 0 [] rest)
      end
  | S need' =>
      match s with
      | c :: h1 :: h2 :: rest' =>
          if N.eqb c PERCENT then
            match ParseHexOctet h1 h2 with
            | Some B =>
                match need' with
                | O =>
                    match UTF8_decode (octets ++ [B]) with
                    | Some V =>
                        prepend (UTF16EncodeCodePoint V)
                                (Decode_from 0 [] rest')
                    | None => None
                    end
                | S _ => Decode_from need' (octets ++ [B]) rest'
                end
            | None => None
            end
          else None
      | _ => None
      end
  end.

Definition Decode (s : jsstring) : option jsstring := Decode_from 0 [] s.

Definition decodeURIComponent (encodedURIComponent : jsstring)
  : option jsstring :=
  Decode encodedURIComponent.

(** A code unit is a 16-bit value. *)
Definition code_units (s : jsstring) : bool := forallb (fun c => c <? 0x10000) s.

(** The units an encoded component is made of. *)
Definition uri_safe (c : code_unit) : bool := unescaped c || N.eqb c PERCENT.

(** [String.prototype.isWellFormed]: no surrogate stands alone. *)
Fixpoint isWellFormed (s : jsstring) : bool :=
  match s with
  | [] => true
  | c :: rest =>
      if is_trailing_surrogate c then false
      else if is_leading_surrogate c then
        match rest with
        | d :: rest' => is_trailing_surrogate d && isWellFormed rest'
        | [] => false
        end
      else isWellFormed rest
  end.

End URI.

(* ================================================================== *)
(** * Local time and [setDate]                                         *)
(* ================================================================== *)

Module LocalDates.
Import JS.

Local Open Scope Z_scope.

(** The time zone of the host: the offset of local time at a time value,
    which is a UTC time ([true]) or a local time ([false]). *)
Class Zone := { LocalTZA : Z -> bool -> Z }.

(** Days from the start of a year to the start of its month [m] (0 to
    11). *)
Definition MonthStart (y m : Z) : Z :=
  let l := if DaysInYear y =? 366 then 1 else 0 in
  match m with
  | 0 => 0
  | 1 => 31
  | 2 => 59 + l
  | 3 => 90 + l
  | 4 => 120 + l
  | 5 => 151 + l
  | 6 => 181 + l
  | 7 => 212 + l
  | 8 => 243 + l
  | 9 => 273 + l
  | 10 => 304 + l
  | _ => 334 + l
  end.

(** MakeDay: the day number of the first day of the month, plus the date
    less one. *)
Definition MakeDay (year month date : Z) : Z :=
  let ym := year + month / 12 in
  let mn := month mod 12 in
  DayFromYear ym + MonthStart ym mn + date - 1.

Definition MakeDate (day time : Z) : Z := day * msPerDay + time.

(** TimeClip; [None] is [NaN]. *)
Definition TimeClip (time : Z) : option Z :=
  if valid_time time then Some time else None.

Section Hosted.

Context {zone : Zone}.

Definition LocalTime (t : Z) : Z := t + LocalTZA t true.
Definition UTC (t : Z) : Z := t - LocalTZA t false.

(** [Date.prototype.getDate] and [Date.prototype.setDate] of a valid
    date; [setDate] gives the new time value. *)
Definition getDate (t : Z) : Z := DateFromTime (LocalTime t).

Definition setDate (t dt : Z) : option Z :=
  let t' := LocalTime t in
  let newDate :=
    MakeDate (MakeDay (YearFromTime t') (MonthFromTime t') dt)
             (TimeWithinDay t') in
  TimeClip (UTC newDate).

(** [d.setDate (d.getDate () + days)] *)
Definition add_days (t days : Z) : option Z := setDate t (getDate t + days).

End Hosted.

(** [s.split ('T') [0]]: the text in front of the first [T]. *)
Fixpoint before_T (s : jsstring) : jsstring :=
  match s with
  | [] => []
  | c :: s' => if N.eqb c 84 then [] else c :: before_T s'
  end.

(** The date part of the ISO form. *)
Definition iso_date (t : Z) : jsstring :=
  iso_year (YearFromTime t) ++ u "-" ++
  fixed_dec 2 (MonthFromTime t + 1) ++ u "-" ++
  fixed_dec 2 (DateFromTime t).

End LocalDates.

(* ================================================================== *)
(** * The resource handlers                                            *)
(* ================================================================== *)

Module Resources.
Import JS Server URI LocalDates.

(** [String.prototype.replace] with a string as pattern: the first
    occurrence is replaced; [None] when there is none. *)
Fixpoint split_at_first (pattern s : jsstring) : option (jsstring * jsstring) :=
  if starts_with pattern s then Some ([], skipn (List.length pattern) s)
  else
    match s with
    | [] => None
    | c :: s' =>
        match split_at_first pattern s' with
        | Some (pre, post) => Some (c :: pre, post)
        | None => None
        end
    end.

Definition replace_string (pattern replacement s : jsstring) : jsstring :=
  match split_at_first pattern s with
  | Some (pre, post) =>
      pre ++ GetSubstitution pattern pre post replacement ++ post
  | None => s
  end.

Definition scheme : jsstring := u "calendar://".

(** [x || d] *)
Definition or_else (x : option jsstring) (d : jsstring) : jsstring :=
  if truthy x then render x else d.

(** An entry of the resource list. *)
Record Resource := {
  res_uri : jsstring;
  res_name : jsstring;
  res_description : jsstring;
  res_mimeType : jsstring
}.

(** What the two handlers throw; they have no [catch]. *)
Inductive ResourceError :=
| Thrown (e : Exn)
    (* by [initializeClient], by the request, or [Calendar not found] *)
| URIError
| RangeError
| UnknownResource (uri : jsstring).

(** The object [ReadResource] prints with [JSON.stringify]; the value is
    kept, its rendering is not expanded. *)
Record Contents := {
  con_uri : jsstring;
  con_mimeType : jsstring;
  con_calendar : DAVCalendar;
  con_events : list DAVCalendarObject;
  con_eventCount : nat;
  con_start : jsstring;
  con_end : jsstring
}.

(** The element [calendars.map] builds for a calendar; [None] when
    [encodeURIComponent] throws. *)
Definition resource_of (cal : DAVCalendar) : option Resource :=
  match encodeURIComponent (cal_url cal) with
  | Some e =>
      Some {| res_uri := scheme ++ e;
              res_name := or_else (cal_displayName cal) (u "Unnamed Calendar");
              res_description :=
                or_else (cal_description cal)
                        (u "Calendar: " ++ render (cal_displayName cal));
              res_mimeType := u "application/json" |}
  | None => None
  end.

Fixpoint map_or_throw {A B} (f : A -> option B) (l : list A) : option (list B) :=
  match l with
  | [] => Some []
  | a :: l' =>
      match f a with
      | Some b =>
          match map_or_throw f l' with
          | Some r => Some (b :: r)
          | None => None
          end
      | None => None
      end
  end.

(** The calendar a resource address stands for: the test of the scheme,
    the decoding of the rest and the search of the list. *)
Definition resolve (cals : list DAVCalendar) (uri : jsstring)
  : ResourceError + DAVCalendar :=
  if starts_with scheme uri then
    match decodeURIComponent (replace_string scheme [] uri) with
    | Some calendarUrl =>
        match find (fun cal => jseqb (cal_url cal) calendarUrl) cals with
        | Some calendar => inr calendar
        | None => inl (Thrown (CalendarNotFound (Some calendarUrl)))
        end
    | None => inl URIError
    end
  else inl (UnknownResource uri).

Section Handlers.

Context {E : Env} {zone : Zone}.

Definition R (A : Type) : Type := State -> State * (ResourceError + A).

(** A computation of the tool handler run in a resource handler. *)
Definition run {A} (m : M A) : R A :=
  fun st =>
    match m st with
    | (st', inr a) => (st', inr a)
    | (st', inl e) => (st', inl (Thrown e))
    end.

Definition and_then {A B} (m : R A) (k : A -> R B) : R B :=
  fun st =>
    match m st with
    | (st', inr a) => k a st'
    | (st', inl e) => (st', inl e)
    end.

Definition give {A} (r : ResourceError + A) : R A := fun st => (st, r).

Definition or_throw {A} (e : ResourceError) (x : option A) : R A :=
  give (match x with Some a => inr a | None => inl e end).

Definition ListResources : R (list Resource) :=
  and_then (run initializeClient) (fun _ =>
  and_then (run get_calendars) (fun cals =>
  or_throw URIError (map_or_throw resource_of cals))).

Definition ReadResource (uri : jsstring) : R Contents :=
  and_then (run initializeClient) (fun _ =>
  and_then (run get_calendars) (fun cals =>
  and_then (give (resolve cals uri)) (fun calendar =>
  and_then (run now) (fun now_ =>
  let thirtyDaysLater := add_days now_ 30 in
  and_then (run the_client) (fun c =>
  let start := toISOString now_ in
  and_then (or_throw RangeError (option_map toISOString thirtyDaysLater))
           (fun end_ =>
  let timeRange := Some (Some start, Some end_) in
  and_then (run (await (FetchCalendarObjects calendar timeRange)
                       (fetchCalendarObjects c calendar timeRange)))
           (fun calendarObjects =>
  let events := map (fun obj => {| obj_url := obj_url obj;
                                   obj_etag := obj_etag obj;
                                   obj_data := obj_data obj |})
                    calendarObjects in
  give (inr {| con_uri := uri;
               con_mimeType := u "application/json";
               con_calendar := calendar;
               con_events := events;
               con_eventCount := List.length events;
               con_start := start;
               con_end := end_ |})))))))).

End Handlers.

End Resources.

(* ================================================================== *)
(** * The prompt handler                                               *)
(* ================================================================== *)

Module Prompts.
Import JS Server LocalDates Resources.

(** The arguments of a prompt, each of which may be missing. *)
Record PromptArgs := {
  topic : option jsstring;
  duration : option jsstring;
  date : option jsstring;
  within_days : option jsstring
}.

(** [args?.f] *)
Definition field (args : option PromptArgs)
           (f : PromptArgs -> option jsstring) : option jsstring :=
  match args with
  | Some a => f a
  | None => None
  end.

Inductive PromptError :=
| UnknownPrompt (name : jsstring)
| InvalidTime.   (* the [RangeError] of [toISOString] *)

Definition QUOTE : code_unit := 34%N.

Definition schedule_meeting (args : option PromptArgs) : jsstring :=
  u "Help me schedule a meeting about " ++ [QUOTE] ++
  or_else (field args topic) (u "a topic") ++ [QUOTE] ++ u ". " ++
  (if truthy (field args duration)
   then u "It should be " ++ render (field args duration) ++ u " long."
   else []) ++
  u " " ++ [LF] ++ u "                " ++ [LF] ++
  u "First, use list_calendars to see available calendars, then help me create the event with create_event. Ask me for the date and time if I haven't specified them.".

Definition daily_agenda_text (agendaDate : jsstring) : jsstring :=
  u "Show me my agenda for " ++ agendaDate ++ u ". " ++ [LF; LF] ++
  u "Use list_calendars to get my calendars, then use list_events with the date range for that day to show all my events. Format them nicely with times and titles.".

Definition find_free_time (args : option PromptArgs) : jsstring :=
  u "Help me find " ++ or_else (field args duration) (u "some") ++
  u " free time in my calendar over the next " ++
  or_else (field args within_days) (u "7") ++ u " days." ++ [LF; LF] ++
  u "Use list_calendars and list_events to check my schedule, then identify gaps where I'm free. Present the available slots clearly.".

Definition weekly_summary_text (from to : jsstring) : jsstring :=
  u "Give me a summary of my schedule for the next 7 days (" ++ from ++
  u " to " ++ to ++ u ")." ++ [LF; LF] ++
  u "Use list_calendars and list_events to fetch my events, then organize them by day and provide a helpful overview.".

Section Handler.

Context {E : Env} {zone : Zone}.

(** The [GetPromptRequestSchema] handler: the text of the one message it
    returns, or what it throws.  It reads the clock where the source has
    [new Date ()]. *)
Definition GetPrompt (name : jsstring) (args : option PromptArgs) (w : World)
  : World * (PromptError + jsstring) :=
  if jseqb name (u "schedule_meeting") then (w, inr (schedule_meeting args))
  else if jseqb name (u "daily_agenda") then
    if truthy (field args date)
    then (w, inr (daily_agenda_text (render (field args date))))
    else
      let (w', t) := clock w in
      (w', inr (daily_agenda_text (before_T (toISOString t))))
  else if jseqb name (u "find_free_time") then (w, inr (find_free_time args))
  else if jseqb name (u "weekly_summary") then
    let (w', today) := clock w in
    match add_days today 7 with
    | Some nextWeek =>
        (w', inr (weekly_summary_text (before_T (toISOString today))
                                      (before_T (toISOString nextWeek))))
    | None => (w', inl InvalidTime)
    end
  else (w, inl (UnknownPrompt name)).

End Handler.

End Prompts.

(* ================================================================== *)
(** * More sample data                                                 *)
(* ================================================================== *)

Module Samples.
Import Server Scenario.

(** A patch of the three text fields. *)
Definition review : Args :=
  {| calendarUrl := None; eventUrl := Some (u "/dav/family/planning.ics");
     summary := Some (u "Review"); description := Some (u "Quarterly");
     startDate := None; endDate := None;
     location := Some (u "Room 2"); etag := Some (u "v1") |}.

(** A patch of the title and of both dates. *)
Definition moved : Args :=
  {| calendarUrl := None; eventUrl := Some (u "/dav/family/planning.ics");
     summary := Some (u "Review"); description := None;
     startDate := Some (u "2024-06-16T09:00:00Z");
     endDate := Some (u "2024-06-16T09:30:00Z");
     location := None; etag := None |}.

(** Some calls of a session. *)
Definition afternoon : list (jsstring * option Args) :=
  [ (u "list_calendars", None);
    (u "create_event",
     Some (event_args "/dav/work/" "2024-06-15T10:00:00Z"
                      "2024-06-15T11:00:00Z"));
    (u "update_event", Some review);
    (u "delete_event", Some review);
    (u "list_tasks", None) ].

(** An event as [create_event] writes it, with a description and a
    location. *)
Definition offsite (d l : option jsstring) : jsstring :=
  icalString (Lines.created_uid june15) june15 june15 (june15 + 3600000)
             (Some (u "Offsite")) d l.

(** A host whose local time is UTC, and one two hours ahead of it. *)
Definition utc : LocalDates.Zone := {| LocalDates.LocalTZA := fun _ _ => 0%Z |}.
Definition east : LocalDates.Zone :=
  {| LocalDates.LocalTZA := fun _ _ => 7200000%Z |}.

(** The resources of the four calendars. *)
Definition listed : list Resources.Resource :=
  map (fun p =>
         {| Resources.res_uri := u (fst p);
            Resources.res_name := u (snd p);
            Resources.res_description := u "Calendar: " ++ u (snd p);
            Resources.res_mimeType := u "application/json" |})
      [ ("calendar://%2Fdav%2Fwork%2F", "Work");
        ("calendar://%2Fdav%2Fhome%2F", "Home");
        ("calendar://%2Fdav%2Ffamily%2F", "Family");
        ("calendar://%2Fdav%2Fshared%2F", "Shared") ]%string.

End Samples.

(* ================================================================== *)
(** * Facts about strings and patterns                                 *)
(* ================================================================== *)

Module JSFacts.

Lemma jseqb_eq (a b : jsstring) : jseqb a b = true <-> a = b.
Proof.
  revert b; induction a as [|x a IH]; intros [|y b]; simpl; split;
    try easy; intro H.
  - apply andb_true_iff in H as [H1 H2].
    apply N.eqb_eq in H1; apply IH in H2; now subst.
  - injection H as -> ->. rewrite N.eqb_refl; simpl. now apply IH.
Qed.

Lemma jseqb_refl (a : jsstring) : jseqb a a = true.
Proof. now apply jseqb_eq. Qed.

Lemma starts_with_app (n s : jsstring) : starts_with n (n ++ s) = true.
Proof.
  induction n as [|x n IH]; simpl; [easy|].
  now rewrite N.eqb_refl.
Qed.

Lemma starts_with_split (n s : jsstring) :
  starts_with n s = true -> exists r, s = n ++ r.
Proof.
  revert s; induction n as [|x n IH]; intros s H; simpl in *.
  - now exists s.
  - destruct s as [|y s]; [easy|].
    apply andb_true_iff in H as [H1 H2].
    apply N.eqb_eq in H1; subst y.
    destruct (IH _ H2) as [r ->]. now exists r.
Qed.

Lemma includes_here (s needle : jsstring) :
  starts_with needle s = true -> includes s needle = true.
Proof. intro H; destruct s; simpl in *; now rewrite H. Qed.

Lemma includes_app (pre s needle : jsstring) :
  includes s needle = true -> includes (pre ++ s) needle = true.
Proof.
  intro H; induction pre as [|c pre IH]; simpl; [easy|].
  rewrite IH. apply orb_true_r.
Qed.

Lemma match_lits_app (key : jsstring) (re : regex) (s : jsstring) :
  match_here (lits key ++ re) (key ++ s) = match_here re s.
Proof.
  induction key as [|c key IH]; simpl; [easy|].
  unfold lit at 1; now rewrite N.eqb_refl.
Qed.

Lemma match_lits_starts (key : jsstring) (re : regex) (s r : jsstring) :
  match_here (lits key ++ re) s = Some r -> starts_with key s = true.
Proof.
  revert s; induction key as [|c key IH]; intros s H; simpl in *; [easy|].
  destruct s as [|y s]; [easy|].
  unfold lit in H at 1.
  destruct (N.eqb y c) eqn:Hy; [|easy].
  apply N.eqb_eq in Hy; subst y. rewrite N.eqb_refl; simpl. eauto.
Qed.

(** What a match leaves is a suffix of the text. *)
Lemma star_k_suffix p (k : jsstring -> option jsstring) :
  (forall s r, k s = Some r -> exists m, s = m ++ r) ->
  forall s r, star_k p k s = Some r -> exists m, s = m ++ r.
Proof.
  intros Hk s; induction s as [|c s IH]; intros r H; simpl in H.
  - now apply Hk.
  - destruct (p c); [|now apply Hk].
    destruct (star_k p k s) as [r'|] eqn:Hs.
    + injection H as ->. destruct (IH _ eq_refl) as [m ->].
      now exists (c :: m).
    + now apply Hk.
Qed.

Lemma match_here_suffix (re : regex) :
  forall s r, match_here re s = Some r -> exists m, s = m ++ r.
Proof.
  induction re as [|a re IH]; intros s r H; simpl in H.
  - injection H as ->. now exists [].
  - destruct (qnt a).
    + destruct s as [|c s]; [easy|].
      destruct (cls a c); [|easy].
      destruct (IH _ _ H) as [m ->]. now exists (c :: m).
    + destruct s as [|c s]; [now apply IH|].
      destruct (cls a c); [|now apply IH].
      destruct (match_here re s) as [r'|] eqn:Hs; [|now apply IH].
      injection H as ->. destruct (IH _ _ Hs) as [m ->]. now exists (c :: m).
    + now apply (star_k_suffix (cls a) (match_here re) IH).
Qed.

Lemma consumed_app (m r : jsstring) : consumed (m ++ r) r = m.
Proof.
  unfold consumed. rewrite length_app.
  replace (List.length m + List.length r - List.length r)%nat
    with (List.length m) by lia.
  rewrite firstn_app, Nat.sub_diag, firstn_all. simpl. apply app_nil_r.
Qed.

(** [exec] splits the text around the match it reports. *)
Lemma exec_sound (re : regex) :
  forall s pre m post,
    exec re s = Some (pre, m, post) ->
    s = pre ++ m ++ post /\ match_here re (m ++ post) = Some post.
Proof.
  intros s; induction s as [|c s IH]; intros pre m post H; simpl in H.
  - destruct (match_here re []) as [r|] eqn:Hm; [|easy].
    injection H as <- <- <-.
    destruct (match_here_suffix _ _ _ Hm) as [m Hs].
    symmetry in Hs; apply app_eq_nil in Hs as [-> ->]. now simpl.
  - destruct (match_here re (c :: s)) as [r|] eqn:Hm.
    + injection H as <- <- <-.
      destruct (match_here_suffix _ _ _ Hm) as [m Hs].
      rewrite Hs, consumed_app. simpl. split; [easy|]. now rewrite <- Hs.
    + destruct (exec re s) as [[[p' m'] q']|] eqn:He; [|easy].
      injection H as <- <- <-.
      destruct (IH _ _ _ eq_refl) as [-> Hm']. now simpl.
Qed.

(** The leftmost position wins: when the pattern matches nowhere in front
    of [s], the match found in [pre ++ s] is the one at [s]. *)
Lemma exec_found (re : regex) (pre s m r : jsstring) :
  (forall i, (i < List.length pre)%nat ->
             match_here re (skipn i (pre ++ s)) = None) ->
  match_here re (m ++ r) = Some r ->
  s = m ++ r ->
  exec re (pre ++ s) = Some (pre, m, r).
Proof.
  intros Hpre Hm ->. induction pre as [|c pre IH]; simpl.
  - destruct (m ++ r) eqn:Hs; simpl; rewrite Hm.
    + now rewrite <- Hs, consumed_app.
    + now rewrite <- Hs, consumed_app.
  - pose proof (Hpre 0%nat ltac:(simpl; lia)) as H0.
    simpl in H0; rewrite H0.
    rewrite IH; [easy|].
    intros i Hi. apply (Hpre (S i)). simpl; lia.
Qed.

(** ** Lines

    The pattern of a property finds the first line that starts with the
    property name, when the name occurs nowhere before it. *)

Lemma star_k_run p (k : jsstring -> option jsstring) (run s r : jsstring) :
  forallb p run = true -> star_k p k s = Some r ->
  star_k p k (run ++ s) = Some r.
Proof.
  intros Hrun Hs. induction run as [|c run IH]; simpl; [exact Hs|].
  simpl in Hrun. apply andb_true_iff in Hrun as [Hc Hrun].
  now rewrite Hc, IH.
Qed.

Lemma match_line (key value eol rest : jsstring) :
  forallb dot value = true -> eol = CRLF \/ eol = [LF] ->
  match_here (re_line key) (key ++ value ++ eol ++ rest) = Some rest.
Proof.
  intros Hv Heol. unfold re_line. rewrite match_lits_app.
  cbn [match_here qnt cls]. apply star_k_run; [exact Hv|].
  destruct Heol as [-> | ->]; reflexivity.
Qed.

Lemma starts_with_long (key s x : jsstring) :
  (List.length key <= List.length s)%nat ->
  starts_with key (s ++ x) = starts_with key s.
Proof.
  revert s; induction key as [|c key IH]; intros s H; [reflexivity|].
  destruct s as [|d s]; simpl in *; [lia|].
  rewrite IH by lia. reflexivity.
Qed.

Lemma includes_skipn (s key : jsstring) :
  includes s key = false ->
  forall i, starts_with key (skipn i s) = false.
Proof.
  induction s as [|c s IH]; intros H i.
  - destruct i; simpl in *; now apply orb_false_iff in H as [H _].
  - simpl in H. apply orb_false_iff in H as [H1 H2].
    destruct i as [|i]; [exact H1|]. simpl. now apply IH.
Qed.

Lemma exec_first_line (key pre value eol rest : jsstring) :
  key <> [] ->
  includes (pre ++ removelast key) key = false ->
  forallb dot value = true -> eol = CRLF \/ eol = [LF] ->
  exec (re_line key) (pre ++ key ++ value ++ eol ++ rest)
  = Some (pre, key ++ value ++ eol, rest).
Proof.
  intros Hk Hpre Hv Heol.
  apply exec_found.
  - intros i Hi.
    destruct (match_here (re_line key) (skipn i (pre ++ key ++ value ++ eol ++ rest)))
      as [r|] eqn:Hm; [|reflexivity].
    exfalso. unfold re_line in Hm. apply match_lits_starts in Hm.
    rewrite (app_removelast_last 0%N Hk) in Hm at 2.
    rewrite <- app_assoc, app_assoc in Hm.
    rewrite skipn_app in Hm.
    pose proof (includes_skipn _ _ Hpre i) as Hn.
    unfold jsstring, code_unit in *.
    match type of Hm with
    | context [skipn ?n ([_] ++ _)] =>
        replace n with 0%nat in Hm by (rewrite length_app; lia)
    end.
    rewrite skipn_O in Hm.
    rewrite starts_with_long in Hm.
    + congruence.
    + rewrite length_skipn, length_app.
      assert (List.length key = S (List.length (removelast key))).
      { rewrite (app_removelast_last 0%N Hk) at 1.
        rewrite length_app. simpl. rewrite Nat.add_1_r. reflexivity. }
      unfold jsstring, code_unit in *. lia.
  - rewrite <- !app_assoc. now apply match_line.
  - now rewrite <- !app_assoc.
Qed.

Lemma exec_none_app (re : regex) (s : jsstring) :
  exec re s = None -> replace re [] s = s.
Proof. intro H; unfold replace; now rewrite H. Qed.

Lemma GetSubstitution_plain (m pre post tpl : jsstring) :
  plain tpl = true -> GetSubstitution m pre post tpl = tpl.
Proof.
  induction tpl as [|c t IH]; simpl; [easy|].
  intro H; apply andb_true_iff in H as [H1 H2].
  apply negb_true_iff in H1. rewrite H1. now rewrite IH.
Qed.

Lemma GetSubstitution_matched (m pre post tpl : jsstring) :
  plain tpl = true -> GetSubstitution m pre post (u "$&" ++ tpl) = m ++ tpl.
Proof. intro H; simpl. now rewrite GetSubstitution_plain. Qed.

Lemma plain_app (a b : jsstring) : plain (a ++ b) = plain a && plain b.
Proof. apply forallb_app. Qed.

End JSFacts.

(* ================================================================== *)
(** * The compact timestamp encoder                                    *)
(* ================================================================== *)

Module DateFacts.
Import JSFacts.

Local Open Scope Z_scope.

(** [YearFromTime] is the year of the ECMAScript specification: the largest
    [y] whose first day is not after the day of [t]. *)
Lemma leap_step_4 (y : Z) :
  (y + 1 - 1969) / 4 = (y - 1969) / 4 + (if y mod 4 =? 0 then 1 else 0).
Proof. destruct (Z.eqb_spec (y mod 4) 0); Z.div_mod_to_equations; lia. Qed.

Lemma leap_step_100 (y : Z) :
  (y + 1 - 1901) / 100 = (y - 1901) / 100 + (if y mod 100 =? 0 then 1 else 0).
Proof. destruct (Z.eqb_spec (y mod 100) 0); Z.div_mod_to_equations; lia. Qed.

Lemma leap_step_400 (y : Z) :
  (y + 1 - 1601) / 400 = (y - 1601) / 400 + (if y mod 400 =? 0 then 1 else 0).
Proof. destruct (Z.eqb_spec (y mod 400) 0); Z.div_mod_to_equations; lia. Qed.

Lemma mod_100_4 (y : Z) : y mod 100 = 0 -> y mod 4 = 0.
Proof. intros. Z.div_mod_to_equations; lia. Qed.

Lemma mod_400_100 (y : Z) : y mod 400 = 0 -> y mod 100 = 0.
Proof. intros. Z.div_mod_to_equations; lia. Qed.

(** A year begins [DaysInYear] days after the one before. *)
Lemma DayFromYear_step (y : Z) :
  DayFromYear (y + 1) = DayFromYear y + DaysInYear y.
Proof.
  unfold DayFromYear, DaysInYear.
  rewrite leap_step_4, leap_step_100, leap_step_400.
  destruct (Z.eqb_spec (y mod 4) 0) as [H4|H4],
           (Z.eqb_spec (y mod 100) 0) as [H100|H100],
           (Z.eqb_spec (y mod 400) 0) as [H400|H400]; cbn [negb];
    try lia;
    try (apply mod_400_100 in H400; contradiction);
    try (apply mod_100_4 in H100; contradiction).
Qed.

Lemma DayFromYear_bounds (y : Z) :
  146097 * (y - 1970) - 506 <= 400 * DayFromYear y
  <= 146097 * (y - 1970) + 589.
Proof. unfold DayFromYear. Z.div_mod_to_equations. lia. Qed.

(** [YearFromTime] is the year of the ECMAScript specification: the largest
    [y] whose first day is not after the day of [t]. *)
Lemma YearFromTime_spec (t : Z) :
  DayFromYear (YearFromTime t) <= Day t < DayFromYear (YearFromTime t + 1).
Proof.
  unfold YearFromTime.
  set (d := Day t). set (y := 1970 + d * 400 / 146097).
  assert (Hq : 146097 * (y - 1970) <= 400 * d < 146097 * (y - 1970) + 146097).
  { unfold y. Z.div_mod_to_equations. lia. }
  pose proof (DayFromYear_bounds (y - 1)) as Hlo.
  pose proof (DayFromYear_bounds (y + 2)) as Hhi.
  destruct (Z.leb_spec (DayFromYear (y + 1)) d).
  - replace (y + 1 + 1) with (y + 2) by lia. lia.
  - destruct (Z.leb_spec (DayFromYear y) d).
    + lia.
    + replace (y - 1 + 1) with y by lia. lia.
Qed.

Lemma DayWithinYear_range (t : Z) :
  0 <= DayWithinYear t < DaysInYear (YearFromTime t).
Proof.
  unfold DayWithinYear. pose proof (YearFromTime_spec t) as H.
  rewrite DayFromYear_step in H. lia.
Qed.

Lemma DaysInYear_cases (y : Z) : DaysInYear y = 365 \/ DaysInYear y = 366.
Proof.
  unfold DaysInYear.
  destruct (y mod 4 =? 0), (y mod 100 =? 0), (y mod 400 =? 0); simpl; auto.
Qed.

(** The fields printed by [toISOString] are in their calendar ranges. *)
Lemma fields_in_range (t : Z) :
  1 <= MonthFromTime t + 1 <= 12 /\ 1 <= DateFromTime t <= 31 /\
  0 <= HourFromTime t <= 23 /\ 0 <= MinFromTime t <= 59 /\
  0 <= SecFromTime t <= 59 /\ 0 <= msFromTime t <= 999.
Proof.
  pose proof (DayWithinYear_range t) as Hd.
  assert (Hl : InLeapYear t = DaysInYear (YearFromTime t) - 365).
  { unfold InLeapYear. destruct (DaysInYear_cases (YearFromTime t)) as [H|H];
      rewrite H; reflexivity. }
  repeat split.
  - unfold MonthFromTime.
    repeat match goal with |- context [if ?b then _ else _] => destruct b end; lia.
  - unfold MonthFromTime.
    repeat match goal with |- context [if ?b then _ else _] => destruct b end; lia.
  - unfold DateFromTime, MonthFromTime.
    repeat match goal with
           | |- context [if ?a <? ?b then _ else _] => destruct (Z.ltb_spec a b)
           end; cbn [Z.add]; lia.
  - unfold DateFromTime, MonthFromTime.
    destruct (DaysInYear_cases (YearFromTime t)) as [H|H];
    repeat match goal with
           | |- context [if ?a <? ?b then _ else _] => destruct (Z.ltb_spec a b)
           end; lia.
  - unfold HourFromTime. pose proof (Z.mod_pos_bound (t / msPerHour) 24). lia.
  - unfold HourFromTime. pose proof (Z.mod_pos_bound (t / msPerHour) 24). lia.
  - unfold MinFromTime. pose proof (Z.mod_pos_bound (t / msPerMinute) 60). lia.
  - unfold MinFromTime. pose proof (Z.mod_pos_bound (t / msPerMinute) 60). lia.
  - unfold SecFromTime. pose proof (Z.mod_pos_bound (t / msPerSecond) 60). lia.
  - unfold SecFromTime. pose proof (Z.mod_pos_bound (t / msPerSecond) 60). lia.
  - unfold msFromTime, msPerSecond. pose proof (Z.mod_pos_bound t 1000). lia.
  - unfold msFromTime, msPerSecond. pose proof (Z.mod_pos_bound t 1000). lia.
Qed.

Lemma digit_of_digit (n : Z) : digit (digit_of n) = true.
Proof.
  unfold digit, digit_of. pose proof (Z.mod_pos_bound n 10 ltac:(lia)).
  apply andb_true_iff; split; apply N.leb_le; lia.
Qed.

Lemma fixed_dec_digits (w : nat) : forall n, forallb digit (fixed_dec w n) = true.
Proof.
  induction w as [|w IH]; intro n; simpl; [easy|].
  rewrite forallb_app, IH. simpl. now rewrite digit_of_digit.
Qed.

Lemma fixed_dec_length (w : nat) : forall n, List.length (fixed_dec w n) = w.
Proof.
  induction w as [|w IH]; intro n; simpl; [easy|].
  rewrite length_app, IH. simpl. lia.
Qed.

Lemma digit_not_separator (c : code_unit) :
  digit c = true -> is_separator c = false.
Proof.
  unfold digit, is_separator. intro H.
  apply andb_true_iff in H as [H1 H2]. apply N.leb_le in H1, H2.
  apply orb_false_iff; split; apply N.eqb_neq; lia.
Qed.

Lemma digit_stamp_unit (c : code_unit) : digit c = true -> stamp_unit c = true.
Proof. unfold stamp_unit. now intros ->. Qed.

Lemma forallb_impl {A} (p q : A -> bool) (l : list A) :
  (forall a, p a = true -> q a = true) ->
  forallb p l = true -> forallb q l = true.
Proof.
  intros H; induction l as [|a l IH]; simpl; [easy|].
  intro Hl; apply andb_true_iff in Hl as [H1 H2].
  now rewrite (H _ H1), IH.
Qed.

Lemma strip_digits (s : jsstring) :
  forallb digit s = true -> strip_separators s = s.
Proof.
  induction s as [|c s IH]; simpl; [easy|].
  intro H; apply andb_true_iff in H as [H1 H2].
  rewrite (digit_not_separator _ H1). simpl. now rewrite IH.
Qed.

Lemma strip_app (a b : jsstring) :
  strip_separators (a ++ b) = strip_separators a ++ strip_separators b.
Proof. apply filter_app. Qed.

Lemma strip_fixed_dec (w : nat) (n : Z) :
  strip_separators (fixed_dec w n) = fixed_dec w n.
Proof. apply strip_digits, fixed_dec_digits. Qed.

Lemma strip_iso_year (y : Z) : strip_separators (iso_year y) = compact_year y.
Proof.
  unfold iso_year, compact_year.
  destruct ((0 <=? y) && (y <=? 9999)); [apply strip_fixed_dec|].
  destruct (y <? 0); rewrite strip_app, strip_fixed_dec; reflexivity.
Qed.

(** A global replacement of one class of units by nothing is a filter. *)
Lemma replace_all_class (p : code_unit -> bool) (s : jsstring) :
  forall scanned,
    replace_all_from [Atom p One] [] scanned 0 s = filter (fun c => negb (p c)) s.
Proof.
  induction s as [|c s IH]; intro scanned; simpl; [easy|].
  destruct (p c); simpl.
  - destruct (List.length s) as [|l] eqn:Hl.
    + apply IH.
    + replace (S l - l)%nat with 1%nat by lia. apply IH.
  - f_equal. apply IH.
Qed.

Lemma strip_is_replace_all (s : jsstring) :
  replace_all re_dash_colon [] s = strip_separators s.
Proof. apply replace_all_class. Qed.

(** The pattern does not match where the first unit is not a dot. *)
Lemma no_millis_in_stamp (a s : jsstring) :
  forallb stamp_unit a = true ->
  forall i, (i < List.length a)%nat ->
            match_here re_millis (skipn i (a ++ s)) = None.
Proof.
  induction a as [|c a IH]; intros Ha i Hi; simpl in *; [lia|].
  apply andb_true_iff in Ha as [Hc Ha].
  destruct i as [|i]; simpl.
  - unfold lit. destruct (N.eqb_spec c 46) as [->|]; [discriminate Hc|easy].
  - apply IH; [easy|lia].
Qed.

Lemma drop_millis (a : jsstring) (n : Z) :
  forallb stamp_unit a = true ->
  replace re_millis [] (a ++ u "." ++ fixed_dec 3 n ++ u "Z") = a ++ u "Z".
Proof.
  intro Ha. unfold replace.
  rewrite (exec_found re_millis a _ (u "." ++ fixed_dec 3 n) (u "Z")).
  - reflexivity.
  - now apply no_millis_in_stamp.
  - simpl. unfold lit; simpl. now rewrite !digit_of_digit.
  - simpl. reflexivity.
Qed.

Lemma stamp_units_dec (w : nat) (n : Z) :
  forallb stamp_unit (fixed_dec w n) = true.
Proof. apply (forallb_impl digit), fixed_dec_digits. apply digit_stamp_unit. Qed.

Lemma stamp_units_year (y : Z) : forallb stamp_unit (compact_year y) = true.
Proof.
  unfold compact_year.
  destruct ((0 <=? y) && (y <=? 9999)); [apply stamp_units_dec|].
  destruct (y <? 0); [apply stamp_units_dec|].
  rewrite forallb_app, stamp_units_dec. reflexivity.
Qed.

(** The encoder on any time value, field by field. *)
Lemma formatICalDate_fields (t : Z) :
  formatICalDate t =
  compact_year (YearFromTime t) ++
  fixed_dec 2 (MonthFromTime t + 1) ++
  fixed_dec 2 (DateFromTime t) ++ u "T" ++
  fixed_dec 2 (HourFromTime t) ++
  fixed_dec 2 (MinFromTime t) ++
  fixed_dec 2 (SecFromTime t) ++ u "Z".
Proof.
  unfold formatICalDate. rewrite strip_is_replace_all. unfold toISOString.
  repeat rewrite strip_app. rewrite strip_iso_year, !strip_fixed_dec.
  change (strip_separators (u "-")) with (@nil code_unit).
  change (strip_separators (u ":")) with (@nil code_unit).
  change (strip_separators (u "T")) with (u "T").
  change (strip_separators (u ".")) with (u ".").
  change (strip_separators (u "Z")) with (u "Z").
  cbn [app].
  set (Y := compact_year _). set (Mo := fixed_dec 2 (MonthFromTime t + 1)).
  set (D := fixed_dec 2 (DateFromTime t)). set (H := fixed_dec 2 (HourFromTime t)).
  set (Mi := fixed_dec 2 (MinFromTime t)). set (S := fixed_dec 2 (SecFromTime t)).
  replace (Y ++ Mo ++ D ++ u "T" ++ H ++ Mi ++ S ++ u "." ++
             fixed_dec 3 (msFromTime t) ++ u "Z")
    with ((Y ++ Mo ++ D ++ u "T" ++ H ++ Mi ++ S) ++ u "." ++
             fixed_dec 3 (msFromTime t) ++ u "Z")
    by (now rewrite <- !app_assoc).
  rewrite drop_millis.
  - now rewrite <- !app_assoc.
  - unfold Y, Mo, D, H, Mi, S.
    rewrite !forallb_app, stamp_units_year, !stamp_units_dec. reflexivity.
Qed.

End DateFacts.

(* ================================================================== *)
(** * The tool-call handler                                            *)
(* ================================================================== *)

Module HandlerFacts.
Import Server JSFacts.

Section WithEnv.

Context {E : Env}.


Lemma bind_inl {A B} (m : M A) (k : A -> M B) (st st' : State) (e : Exn) :
  bind m k st = (st', inl e) ->
  m st = (st', inl e) \/
  exists st1 a, m st = (st1, inr a) /\ k a st1 = (st', inl e).
Proof.
  unfold bind. destruct (m st) as [st1 [e1|a]]; intro H; [left|right].
  - now injection H as -> ->.
  - eauto.
Qed.

Lemma bind_ok {A B} (m : M A) (k : A -> M B) (st st1 : State) (a : A) :
  m st = (st1, inr a) -> bind m k st = k a st1.
Proof. unfold bind. now intros ->. Qed.

Lemma bind_fail {A B} (m : M A) (k : A -> M B) (st st1 : State) (e : Exn) :
  m st = (st1, inl e) -> bind m k st = (st1, inl e).
Proof. unfold bind. now intros ->. Qed.

(** The requests [initializeClient] may send. *)
Lemma initializeClient_trace (st st' : State) (r : Exn + unit) :
  initializeClient st = (st', r) ->
  trace st' = trace st \/
  trace st' = trace st ++ [CreateDAVClient] \/
  trace st' = trace st ++ [CreateDAVClient; FetchCalendars].
Proof.
  unfold initializeClient. destruct (davClient st) as [c|].
  - intro H; injection H as <- <-. now left.
  - unfold bind, await, set_davClient, set_calendars. simpl.
    destruct (createDAVClient (world st)) as [w1 [e|c]]; simpl.
    + intro H; injection H as <- <-. right; left. reflexivity.
    + destruct (fetchCalendars c w1) as [w2 [e|l]]; simpl;
        intro H; injection H as <- <-; right; right; simpl;
        now rewrite <- app_assoc.
Qed.

(** After a successful [initializeClient] there is a client. *)
Lemma initializeClient_client (st st' : State) :
  initializeClient st = (st', inr tt) -> exists c, davClient st' = Some c.
Proof.
  unfold initializeClient. destruct (davClient st) as [c|] eqn:Hc.
  - intro H; injection H as <-. eauto.
  - unfold bind, await, set_davClient, set_calendars. simpl.
    destruct (createDAVClient (world st)) as [w1 [e|c]]; simpl; [discriminate|].
    destruct (fetchCalendars c w1) as [w2 [e|l]]; simpl; [discriminate|].
    intro H; injection H as <-. simpl. eauto.
Qed.

Lemma find_calendar_none (url : option jsstring) (st : State) :
  (forall cal, In cal (calendars st) -> Some (cal_url cal) <> url) ->
  find_calendar url st = (st, inl (CalendarNotFound url)).
Proof.
  intro H. unfold find_calendar, bind, get_calendars.
  destruct (find _ (calendars st)) as [cal|] eqn:Hf; [|reflexivity].
  apply find_some in Hf as [Hin Heq]. exfalso. apply (H cal Hin).
  unfold eq_arg in Heq. destruct url as [s|]; [|discriminate].
  apply jseqb_eq in Heq. now subst.
Qed.



Lemma dispatch_init_fails (name : jsstring) (args : option Args)
      (st st1 : State) (e : Exn) :
  initializeClient st = (st1, inl e) ->
  dispatch name args st = (st1, inl e).
Proof. intro Hi. unfold dispatch. now rewrite (bind_fail _ _ _ _ _ Hi). Qed.

Lemma dispatch_list_events (args : option Args) (st st1 : State) :
  initializeClient st = (st1, inr tt) ->
  dispatch (u "list_events") args st = list_events args st1.
Proof. intro Hi. unfold dispatch. now rewrite (bind_ok _ _ _ _ _ Hi). Qed.

Lemma dispatch_create_event (args : option Args) (st st1 : State) :
  initializeClient st = (st1, inr tt) ->
  dispatch (u "create_event") args st = create_event args st1.
Proof. intro Hi. unfold dispatch. now rewrite (bind_ok _ _ _ _ _ Hi). Qed.

Lemma dispatch_update_event (args : option Args) (st st1 : State) :
  initializeClient st = (st1, inr tt) ->
  dispatch (u "update_event") args st = update_event args st1.
Proof. intro Hi. unfold dispatch. now rewrite (bind_ok _ _ _ _ _ Hi). Qed.

Lemma initializeClient_unit (st st1 : State) (x : unit) :
  initializeClient st = (st1, inr x) -> initializeClient st = (st1, inr tt).
Proof. now destruct x. Qed.



(** C6.  Once the session is initialized, [list_events] and
    [create_event] with a [calendarUrl] that is the address of no calendar
    of the cached list end with the error "Calendar not found" and leave
    the session as the initialization left it: the only requests of the
    call are those of the initialization, and no fetch of events and no
    creation is sent. *)
Theorem unknown_calendar_is_not_found
        (a : Args) (st st1 : State) :
  initializeClient st = (st1, inr tt) ->
  (forall cal, In cal (calendars st1) -> Some (cal_url cal) <> calendarUrl a) ->
  handler (u "list_events") (Some a) st
    = (st1, error_result (CalendarNotFound (calendarUrl a))) /\
  handler (u "create_event") (Some a) st
    = (st1, error_result (CalendarNotFound (calendarUrl a))) /\
  errorMessage (CalendarNotFound (calendarUrl a))
    = u "Calendar not found: " ++ render (calendarUrl a) /\
  (forall call, In call (trace st1) ->
                In call (trace st) \/ call = CreateDAVClient \/ call = FetchCalendars).
Proof.
  intros Hi Hc. pose proof (find_calendar_none _ _ Hc) as Hf.
  repeat split.
  - unfold handler. rewrite (dispatch_list_events _ _ _ Hi).
    unfold list_events. unfold destructure.
    rewrite (bind_ok _ _ _ _ _ (eq_refl : ret a st1 = (st1, inr a))).
    now rewrite (bind_fail _ _ _ _ _ Hf).
  - unfold handler. rewrite (dispatch_create_event _ _ _ Hi).
    unfold create_event. unfold destructure.
    rewrite (bind_ok _ _ _ _ _ (eq_refl : ret a st1 = (st1, inr a))).
    now rewrite (bind_fail _ _ _ _ _ Hf).
  - intros call Hin.
    destruct (initializeClient_trace _ _ _ Hi) as [H|[H|H]];
      rewrite H in Hin; [now left| |];
      apply in_app_or in Hin as [Hin|Hin]; auto;
      simpl in Hin; intuition auto.
Qed.

(** ** The search for the event *)

Lemma sent_nil (st : State) : sent st [] = st.
Proof. destruct st; unfold sent; simpl. now rewrite app_nil_r. Qed.

Lemma sent_sent (st : State) (a b : list NetCall) :
  sent (sent st a) b = sent st (a ++ b).
Proof. unfold sent; simpl. now rewrite app_assoc. Qed.

(** One turn of the loop. *)
Lemma locate_step (c : Client) (calendar : DAVCalendar)
      (rest : list DAVCalendar) (url : option jsstring) (st : State) :
  davClient st = Some c ->
  locate (calendar :: rest) url st =
  let (w, r) := fetchCalendarObjects c calendar None (world st) in
  let st1 := {| davClient := davClient st; calendars := calendars st;
                world := w; trace := trace st ++ [fetch_call calendar] |} in
  match r with
  | inl e => (st1, inl (External e))
  | inr evs =>
      match find (at_url url) evs with
      | Some ev => (st1, inr (Some ev))
      | None => locate rest url st1
      end
  end.
Proof.
  intro Hc. simpl. unfold bind, the_client, await.
  destruct st as [dc cs w0 tr]; simpl in *; subst dc.
  cbn [world davClient calendars trace].
  destruct (fetchCalendarObjects c calendar None w0) as [w [e|evs]];
    [reflexivity|].
  destruct (find (at_url url) evs); reflexivity.
Qed.

(** The search sends fetches only, for a prefix of the calendar list in
    the order of the list, and leaves the session variables alone. *)
Lemma locate_trace (cals : list DAVCalendar) (url : option jsstring) :
  forall st st' r,
    locate cals url st = (st', r) ->
    davClient st' = davClient st /\ calendars st' = calendars st /\
    exists visited rest,
      cals = visited ++ rest /\
      trace st' = trace st ++ map fetch_call visited.
Proof.
  induction cals as [|cal cals IH]; intros st st' r H.
  - injection H as <- <-. split; [easy|]. split; [easy|].
    exists [], []. simpl. now rewrite app_nil_r.
  - destruct (davClient st) as [c|] eqn:Hc.
    + rewrite (locate_step c) in H by assumption.
      destruct (fetchCalendarObjects c cal None (world st)) as [w [e|evs]].
      * injection H as <- <-. simpl. split; [easy|]. split; [easy|].
        exists [cal], cals. now simpl.
      * destruct (find (at_url url) evs) as [ev|].
        -- injection H as <- <-. simpl. split; [easy|]. split; [easy|].
           exists [cal], cals. now simpl.
        -- apply IH in H as (H1 & H2 & visited & rest & -> & H3). simpl in *.
           split; [congruence|]. split; [easy|].
           exists (cal :: visited), rest. split; [easy|].
           rewrite H3. simpl. now rewrite <- app_assoc.
    + simpl in H. unfold bind, the_client in H. rewrite Hc in H.
      injection H as <- <-. split; [easy|]. split; [easy|].
      exists [], (cal :: cals). simpl. now rewrite app_nil_r.
Qed.

(** What the search can throw. *)
Lemma locate_errors (cals : list DAVCalendar) (url : option jsstring) :
  forall st st' e,
    locate cals url st = (st', inl e) ->
    (exists x, e = External x) \/ (exists m, e = TypeError m).
Proof.
  induction cals as [|cal cals IH]; intros st st' e H.
  - discriminate.
  - destruct (davClient st) as [c|] eqn:Hc.
    + rewrite (locate_step c) in H by assumption.
      destruct (fetchCalendarObjects c cal None (world st)) as [w [x|evs]].
      * injection H as _ <-. left; eauto.
      * destruct (find (at_url url) evs) as [ev|]; [discriminate|].
        now apply IH in H.
    + simpl in H. unfold bind, the_client in H. rewrite Hc in H.
      injection H as _ <-. right; eauto.
Qed.

Section Locator.

(** The session is connected, and fetching the objects of a calendar
    changes nothing in the world. *)
Variable c : Client.
Hypothesis read_only :
  forall calendar w, fst (fetchCalendarObjects c calendar None w) = w.

Lemma locate_step_ro (calendar : DAVCalendar) (rest : list DAVCalendar)
      (url : option jsstring) (st : State) :
  davClient st = Some c ->
  locate (calendar :: rest) url st =
  match objects c (world st) calendar with
  | inl e => (sent st [fetch_call calendar], inl (External e))
  | inr evs =>
      match find (at_url url) evs with
      | Some ev => (sent st [fetch_call calendar], inr (Some ev))
      | None => locate rest url (sent st [fetch_call calendar])
      end
  end.
Proof.
  intros Hc. rewrite (locate_step c) by assumption.
  unfold objects. pose proof (read_only calendar (world st)) as Hro.
  destruct (fetchCalendarObjects c calendar None (world st)) as [w' r].
  simpl in *. rewrite Hro. reflexivity.
Qed.

Lemma locate_exhausts (url : option jsstring) (cals : list DAVCalendar) :
  forall st, davClient st = Some c ->
             Forall (without_match c (world st) url) cals ->
             locate cals url st = (sent st (map fetch_call cals), inr None).
Proof.
  induction cals as [|cal cals IH]; intros st Hc Hall.
  - simpl. unfold ret. now rewrite sent_nil.
  - inversion_clear Hall as [|? ? (evs & He & Hf) Hrest].
    rewrite locate_step_ro by assumption. rewrite He, Hf.
    rewrite IH by assumption. now rewrite sent_sent.
Qed.

Lemma locate_none_inv (url : option jsstring) (cals : list DAVCalendar) :
  forall st st', davClient st = Some c ->
                 locate cals url st = (st', inr None) ->
                 Forall (without_match c (world st) url) cals.
Proof.
  induction cals as [|cal cals IH]; intros st st' Hc H; [constructor|].
  rewrite locate_step_ro in H by assumption.
  destruct (objects c (world st) cal) as [e|evs] eqn:He; [discriminate|].
  destruct (find (at_url url) evs) as [ev|] eqn:Hf; [discriminate|].
  constructor; [now exists evs|].
  now apply (IH (sent st [fetch_call cal]) st').
Qed.

Lemma locate_finds (url : option jsstring) (pre : list DAVCalendar) :
  forall st cal post evs ev,
    davClient st = Some c ->
    Forall (without_match c (world st) url) pre ->
    objects c (world st) cal = inr evs -> find (at_url url) evs = Some ev ->
    locate (pre ++ cal :: post) url st
    = (sent st (map fetch_call (pre ++ [cal])), inr (Some ev)).
Proof.
  induction pre as [|p pre IH]; intros st cal post evs ev Hc Hall He Hf.
  - simpl app. rewrite locate_step_ro by assumption. now rewrite He, Hf.
  - inversion_clear Hall as [|? ? (evs' & He' & Hf') Hrest].
    simpl app. rewrite locate_step_ro by assumption. rewrite He', Hf'.
    rewrite (IH _ _ _ evs ev) by assumption. now rewrite sent_sent.
Qed.

End Locator.

(** What the patch block can throw. *)
Lemma applyPatch_errors (a : Args) (data : jsstring) (e : Exn) :
  applyPatch a data = inl e ->
  (e = InvalidStartDate (startDate a) /\ truthy (startDate a) = true /\
   new_Date (startDate a) = None) \/
  (e = InvalidEndDate (endDate a) /\ truthy (endDate a) = true /\
   new_Date (endDate a) = None).
Proof.
  unfold applyPatch, patch_startDate, patch_endDate.
  destruct (truthy (startDate a)) eqn:Hs.
  - destruct (new_Date (startDate a)) eqn:Hd.
    + destruct (truthy (endDate a)) eqn:Ht; [|discriminate].
      destruct (new_Date (endDate a)) eqn:Hn; [discriminate|].
      intro H; injection H as <-. now right.
    + intro H; injection H as <-. now left.
  - destruct (truthy (endDate a)) eqn:Ht; [|discriminate].
    destruct (new_Date (endDate a)) eqn:Hn; [discriminate|].
    intro H; injection H as <-. now right.
Qed.

Lemma update_event_run (a : Args) (st : State) :
  update_event (Some a) st =
  match locate (calendars st) (eventUrl a) st with
  | (st2, inl e) => (st2, inl e)
  | (st2, inr None) => (st2, inl (EventNotFound (eventUrl a)))
  | (st2, inr (Some existingEvent)) =>
      match applyPatch a (obj_data existingEvent) with
      | inl e => (st2, inl e)
      | inr updatedIcal =>
          bind the_client (fun c =>
            bind (await (UpdateCalendarObject (eventUrl a) updatedIcal
                                              (obj_etag existingEvent))
                        (updateCalendarObject c (eventUrl a) updatedIcal
                                              (obj_etag existingEvent)))
                 (fun _ =>
                    ret {| text := Plain (u "Event updated successfully: "
                                          ++ render (eventUrl a));
                           isError := false |})) st2
      end
  end.
Proof.
  unfold update_event, destructure. unfold bind at 1 2 3. unfold ret at 1.
  unfold get_calendars.
  destruct (locate (calendars st) (eventUrl a) st) as [st2 [e|[ev|]]];
    [reflexivity| |reflexivity].
  unfold bind at 1. unfold lift.
  destruct (applyPatch a (obj_data ev)); reflexivity.
Qed.

(** C4.  The search [update_event] makes for its event, in a connected
    session whose fetches leave the world as it is.  The calendars of the
    cached list are fetched in the order of the list, each without a time
    range, and each answer is searched for an object at the requested
    address.  When a calendar holds one and none before it does, the search
    returns the first such object of that calendar, having fetched the
    calendars up to that one and none after it.  When no calendar holds
    one, every calendar has been fetched, in order; and [update_event]
    throws "Event not found" exactly in that case. *)
Theorem locator_first_match (c : Client) (a : Args) (st : State) :
  davClient st = Some c ->
  (forall calendar w, fst (fetchCalendarObjects c calendar None w) = w) ->
  (forall pre cal post evs ev,
      calendars st = pre ++ cal :: post ->
      Forall (without_match c (world st) (eventUrl a)) pre ->
      objects c (world st) cal = inr evs ->
      find (at_url (eventUrl a)) evs = Some ev ->
      locate (calendars st) (eventUrl a) st
      = (sent st (map fetch_call (pre ++ [cal])), inr (Some ev)) /\
      Some (obj_url ev) = eventUrl a) /\
  (Forall (without_match c (world st) (eventUrl a)) (calendars st) ->
   locate (calendars st) (eventUrl a) st
   = (sent st (map fetch_call (calendars st)), inr None) /\
   update_event (Some a) st
   = (sent st (map fetch_call (calendars st)),
      inl (EventNotFound (eventUrl a)))) /\
  ((exists st', update_event (Some a) st = (st', inl (EventNotFound (eventUrl a))))
   <-> Forall (without_match c (world st) (eventUrl a)) (calendars st)).
Proof.
  intros Hc Hro.
  assert (Hnone : Forall (without_match c (world st) (eventUrl a)) (calendars st) ->
                  locate (calendars st) (eventUrl a) st
                  = (sent st (map fetch_call (calendars st)), inr None) /\
                  update_event (Some a) st
                  = (sent st (map fetch_call (calendars st)),
                     inl (EventNotFound (eventUrl a)))).
  { intro Hall. pose proof (locate_exhausts c Hro _ _ st Hc Hall) as Hl.
    split; [exact Hl|]. rewrite update_event_run. now rewrite Hl. }
  split; [|split; [exact Hnone|split]].
  - intros pre cal post evs ev Hcals Hall He Hf. split.
    + rewrite Hcals. now apply (locate_finds c Hro _ pre st cal post evs ev).
    + apply find_some in Hf as [_ Hf]. unfold at_url, eq_arg in Hf.
      destruct (eventUrl a) as [s|]; [|discriminate].
      apply jseqb_eq in Hf. now subst.
  - intros [st' H]. rewrite update_event_run in H.
    destruct (locate (calendars st) (eventUrl a) st) as [st2 [e|[ev|]]] eqn:Hl.
    + injection H as _ ->.
      destruct (locate_errors _ _ _ _ _ Hl) as [[x Hx]|[m Hm]]; discriminate.
    + exfalso.
      destruct (applyPatch a (obj_data ev)) as [e|d] eqn:Hp.
      * injection H as _ ->.
        destruct (applyPatch_errors _ _ _ Hp) as [[Hx _]|[Hx _]]; discriminate.
      * unfold bind, the_client, await, ret in H.
        destruct (davClient st2); [|discriminate].
        destruct (updateCalendarObject _ _ _ _ _) as [w' [x|[]]]; discriminate.
    + now apply (locate_none_inv c Hro _ _ st st2).
  - intro Hall. eexists. apply (proj2 (Hnone Hall)).
Qed.

Lemma initializeClient_cases (st : State) :
  (exists st1 e, initializeClient st = (st1, inl e)) \/
  (exists st1, initializeClient st = (st1, inr tt)).
Proof. destruct (initializeClient st) as [st1 [e|[]]]; eauto. Qed.

Lemma find_calendar_state (url : option jsstring) (st : State) :
  exists r, find_calendar url st = (st, r) /\
            (forall e, r = inl e -> e = CalendarNotFound url).
Proof.
  unfold find_calendar, bind, get_calendars.
  destruct (find _ (calendars st)) as [cal|]; eexists; split;
    try reflexivity; intros e H; now inversion H.
Qed.

Lemma applyPatch_invalid (a : Args) (data : jsstring) :
  (truthy (startDate a) = true /\ new_Date (startDate a) = None) \/
  (truthy (endDate a) = true /\ new_Date (endDate a) = None) ->
  exists e, applyPatch a data = inl e /\
            (e = InvalidStartDate (startDate a) \/ e = InvalidEndDate (endDate a)).
Proof.
  unfold applyPatch, patch_startDate, patch_endDate.
  intros [[Ht Hd]|[Ht Hd]].
  - rewrite Ht, Hd. eauto.
  - destruct (truthy (startDate a)).
    + destruct (new_Date (startDate a)); [|eauto].
      rewrite Ht, Hd. eauto.
    + rewrite Ht, Hd. eauto.
Qed.

(** The search starts with the fetch of the first calendar. *)
Lemma locate_first_fetch (c : Client) (cal : DAVCalendar)
      (cals : list DAVCalendar) (url : option jsstring) (st st' : State)
      (r : Exn + option DAVCalendarObject) :
  davClient st = Some c ->
  locate (cal :: cals) url st = (st', r) ->
  exists more, trace st' = trace st ++ fetch_call cal :: map fetch_call more.
Proof.
  intros Hc H. rewrite (locate_step c) in H by assumption.
  destruct (fetchCalendarObjects c cal None (world st)) as [w [e|evs]].
  - injection H as <- <-. now exists [].
  - destruct (find (at_url url) evs) as [ev|].
    + injection H as <- <-. now exists [].
    + apply locate_trace in H as (_ & _ & visited & rest & _ & Ht).
      exists visited. rewrite Ht. cbn [trace]. now rewrite <- app_assoc.
Qed.

(** The requests of [update_event] in a connected session: the fetches of
    the search and, when an object was found and patched, one update, with
    the address asked for, the patched text and the token of the object
    found. *)
Lemma update_event_trace (a : Args) (st st' : State) (r : Exn + ToolResult) :
  (exists c, davClient st = Some c) ->
  update_event (Some a) st = (st', r) ->
  exists visited,
    (trace st' = trace st ++ map fetch_call visited /\
     (exists e, r = inl e) /\
     (forall st2 ev, locate (calendars st) (eventUrl a) st = (st2, inr (Some ev)) ->
                     exists e, applyPatch a (obj_data ev) = inl e /\ r = inl e)) \/
    (exists st2 ev data,
        locate (calendars st) (eventUrl a) st = (st2, inr (Some ev)) /\
        applyPatch a (obj_data ev) = inr data /\
        trace st' = trace st ++ map fetch_call visited ++
                    [UpdateCalendarObject (eventUrl a) data (obj_etag ev)]).
Proof.
  intros [c Hc] H. rewrite update_event_run in H.
  destruct (locate (calendars st) (eventUrl a) st) as [st2 [e|[ev|]]] eqn:Hl;
    destruct (locate_trace _ _ _ _ _ Hl) as (Hd & _ & visited & rest & _ & Ht);
    exists visited.
  - injection H as <- <-. left. split; [easy|]. split; [eauto|].
    intros ? ? [=].
  - destruct (applyPatch a (obj_data ev)) as [e|data] eqn:Hp.
    + injection H as <- <-. left. split; [easy|]. split; [eauto|].
      intros ? ? [= <- <-]. eauto.
    + right. exists st2, ev, data. split; [easy|]. split; [easy|].
      unfold bind, the_client, await, ret in H. rewrite Hd, Hc in H.
      destruct (updateCalendarObject _ _ _ _ _) as [w' [x|[]]];
        injection H as <- <-; simpl; rewrite Ht; now rewrite <- app_assoc.
  - injection H as <- <-. left. split; [easy|]. split; [eauto|].
    intros ? ? [=].
Qed.

(** C5, as the handler has it.  After the initialization (which, on the
    first call, sends its own two requests before anything else),
    [list_events] and [create_event] check their arguments before they send
    anything: with a date that does not parse, or for [create_event] an end
    that is not after the start, the call ends with an error and the session
    is as the initialization left it, no request sent.  [update_event]
    checks a start or end date only after the search for the event: with a
    date that is not empty and does not parse the call ends with an error
    in the very state the search left, so every fetch of the search has
    been sent (the one of the first calendar at least, when there is a
    calendar) and no update after them; the error is the one of the search
    when the search failed or found nothing, and the one of the date when
    the event was found. *)
Theorem validation_before_requests (a : Args) (st st1 : State) :
  initializeClient st = (st1, inr tt) ->
  (new_Date (startDate a) = None \/ new_Date (endDate a) = None ->
   exists e, handler (u "list_events") (Some a) st = (st1, error_result e) /\
             (e = CalendarNotFound (calendarUrl a) \/
              e = InvalidStartDate (startDate a) \/
              e = InvalidEndDate (endDate a))) /\
  (new_Date (startDate a) = None \/ new_Date (endDate a) = None \/
   (exists s e, new_Date (startDate a) = Some s /\
                new_Date (endDate a) = Some e /\ (e <= s)%Z) ->
   exists e, handler (u "create_event") (Some a) st = (st1, error_result e) /\
             (e = CalendarNotFound (calendarUrl a) \/
              e = InvalidStartDate (startDate a) \/
              e = InvalidEndDate (endDate a) \/
              e = EndNotAfterStart)) /\
  ((truthy (startDate a) = true /\ new_Date (startDate a) = None) \/
   (truthy (endDate a) = true /\ new_Date (endDate a) = None) ->
   exists st2 found e,
     locate (calendars st1) (eventUrl a) st1 = (st2, found) /\
     handler (u "update_event") (Some a) st = (st2, error_result e) /\
     (exists visited rest,
         calendars st1 = visited ++ rest /\
         trace st2 = trace st1 ++ map fetch_call visited) /\
     (forall cal cals,
         calendars st1 = cal :: cals ->
         exists more,
           trace st2 = trace st1 ++ fetch_call cal :: map fetch_call more) /\
     match found with
     | inl x => e = x
     | inr None => e = EventNotFound (eventUrl a)
     | inr (Some ev) =>
         applyPatch a (obj_data ev) = inl e /\
         (e = InvalidStartDate (startDate a) \/
          e = InvalidEndDate (endDate a))
     end).
Proof.
  intro Hi. split; [|split].
  - intro Hbad. unfold handler. rewrite (dispatch_list_events _ _ _ Hi).
    unfold list_events, destructure, parse_start, parse_end.
    unfold bind at 1. unfold ret at 1. unfold bind at 1.
    destruct (find_calendar_state (calendarUrl a) st1) as (r & -> & Hr).
    destruct r as [e|cal]; [rewrite (Hr e eq_refl); eauto|].
    unfold bind at 1.
    destruct (new_Date (startDate a)) as [s|]; [|unfold throw; eauto 6].
    unfold ret at 1. unfold bind at 1.
    destruct (new_Date (endDate a)) as [e|]; [|unfold throw; eauto 6].
    now destruct Hbad.
  - intro Hbad. unfold handler. rewrite (dispatch_create_event _ _ _ Hi).
    unfold create_event, destructure, parse_start, parse_end.
    unfold bind at 1. unfold ret at 1. unfold bind at 1.
    destruct (find_calendar_state (calendarUrl a) st1) as (r & -> & Hr).
    destruct r as [e|cal]; [rewrite (Hr e eq_refl); eauto|].
    unfold bind at 1.
    destruct (new_Date (startDate a)) as [s|]; [|unfold throw; eauto 6].
    unfold ret at 1. unfold bind at 1.
    destruct (new_Date (endDate a)) as [e|]; [|unfold throw; eauto 7].
    unfold ret at 1.
    destruct Hbad as [H|[H|(s' & e' & Hs & He & Hle)]]; try discriminate.
    injection Hs as <-. injection He as <-.
    apply Z.leb_le in Hle. rewrite Hle. unfold throw. eauto 7.
  - intro Hbad. unfold handler. rewrite (dispatch_update_event _ _ _ Hi).
    destruct (initializeClient_client _ _ Hi) as [c Hc].
    rewrite update_event_run.
    destruct (locate (calendars st1) (eventUrl a) st1) as [st2 found] eqn:Hl.
    destruct (locate_trace _ _ _ _ _ Hl) as (_ & _ & visited & rest & Hv & Ht).
    assert (Hfirst : forall cal cals,
               calendars st1 = cal :: cals ->
               exists more,
                 trace st2 = trace st1 ++ fetch_call cal :: map fetch_call more).
    { intros cal cals Hcs. rewrite Hcs in Hl.
      exact (locate_first_fetch c cal cals (eventUrl a) st1 st2 found Hc Hl). }
    assert (Hsent : exists visited rest,
               calendars st1 = visited ++ rest /\
               trace st2 = trace st1 ++ map fetch_call visited)
      by (exists visited, rest; now split).
    destruct found as [x|[ev|]].
    + exists st2, (inl x), x.
      split; [reflexivity|]. split; [reflexivity|].
      split; [exact Hsent|]. split; [exact Hfirst|reflexivity].
    + destruct (applyPatch_invalid a (obj_data ev) Hbad) as (e & He & Hd).
      rewrite He. exists st2, (inr (Some ev)), e.
      split; [reflexivity|]. split; [reflexivity|].
      split; [exact Hsent|]. split; [exact Hfirst|].
      split; [exact He|exact Hd].
    + exists st2, (inr None), (EventNotFound (eventUrl a)).
      split; [reflexivity|]. split; [reflexivity|].
      split; [exact Hsent|]. split; [exact Hfirst|reflexivity].
Qed.

(** C10.  [update_event] does not read the [etag] property of its
    arguments: the call runs the same whatever that property is.  Every
    update request sent during the call carries the address asked for, the
    patched text and the token of the object that the search of this very
    call fetched. *)
Theorem update_sends_located_etag (a : Args) (tag : option jsstring) (st : State) :
  handler (u "update_event") (Some (with_etag a tag)) st
  = handler (u "update_event") (Some a) st /\
  forall st' result,
    handler (u "update_event") (Some a) st = (st', result) ->
    exists new,
      trace st' = trace st ++ new /\
      forall url data token,
        In (UpdateCalendarObject url data token) new ->
        exists st1 st2 ev,
          initializeClient st = (st1, inr tt) /\
          locate (calendars st1) (eventUrl a) st1 = (st2, inr (Some ev)) /\
          url = eventUrl a /\
          applyPatch a (obj_data ev) = inr data /\
          token = obj_etag ev.
Proof.
  split; [reflexivity|].
  intros st' result. unfold handler.
  destruct (initializeClient_cases st) as [(st1 & e & Hi)|(st1 & Hi)].
  - rewrite (dispatch_init_fails _ _ _ _ _ Hi). intro H; injection H as <- _.
    destruct (initializeClient_trace _ _ _ Hi) as [Ht|[Ht|Ht]].
    + exists []. rewrite app_nil_r. split; [easy|]. intros ? ? ? [].
    + eexists; split; [exact Ht|]. simpl. intros ? ? ? [[=]|[]].
    + eexists; split; [exact Ht|]. simpl. intros ? ? ? [[=]|[[=]|[]]].
  - rewrite (dispatch_update_event _ _ _ Hi).
    destruct (update_event (Some a) st1) as [st2 r] eqn:Hu.
    assert (Hst : st' = st2 -> exists new,
      trace st' = trace st ++ new /\
      forall url data token,
        In (UpdateCalendarObject url data token) new ->
        exists st1 st2 ev,
          initializeClient st = (st1, inr tt) /\
          locate (calendars st1) (eventUrl a) st1 = (st2, inr (Some ev)) /\
          url = eventUrl a /\
          applyPatch a (obj_data ev) = inr data /\
          token = obj_etag ev).
    { intros ->.
      assert (Hinit : exists i, trace st1 = trace st ++ i /\
                                forall url data token,
                                  ~ In (UpdateCalendarObject url data token) i).
      { destruct (initializeClient_trace _ _ _ Hi) as [Ht|[Ht|Ht]].
        - exists []. rewrite app_nil_r. split; [easy|]. intros ? ? ? [].
        - eexists; split; [exact Ht|]. simpl. intros ? ? ? [[=]|[]].
        - eexists; split; [exact Ht|]. simpl. intros ? ? ? [[=]|[[=]|[]]]. }
      destruct Hinit as (i & Hti & Hni).
      assert (Hfetch : forall visited url data token,
                 ~ In (UpdateCalendarObject url data token)
                      (map fetch_call visited)).
      { intros visited url data token Hin.
        apply in_map_iff in Hin as (x & Hx & _). discriminate. }
      destruct (update_event_trace _ _ _ _ (initializeClient_client _ _ Hi) Hu)
        as [visited [(Ht & _ & _)|(st3 & ev & data & Hl & Hp & Ht)]].
      - exists (i ++ map fetch_call visited).
        rewrite Ht, Hti, app_assoc. split; [easy|].
        intros url data token Hin. exfalso.
        apply in_app_or in Hin as [Hin|Hin];
          [eapply Hni|eapply Hfetch]; eauto.
      - exists (i ++ map fetch_call visited ++
                [UpdateCalendarObject (eventUrl a) data (obj_etag ev)]).
        rewrite Ht, Hti, <- !app_assoc. split; [easy|].
        intros url d token Hin.
        apply in_app_or in Hin as [Hin|Hin]; [exfalso; eapply Hni; eauto|].
        apply in_app_or in Hin as [Hin|Hin]; [exfalso; eapply Hfetch; eauto|].
        destruct Hin as [[= <- <- <-]|[]].
        exists st1, st3, ev. auto. }
    destruct r as [e|r]; intro H; injection H as <- _; now apply Hst.
Qed.

End WithEnv.
End HandlerFacts.

(* ================================================================== *)
(** * The patch block                                                  *)
(* ================================================================== *)

Module PatchFacts.
Import Server JSFacts DateFacts.

Lemma replace_found (re : regex) (tpl s pre m post : jsstring) :
  exec re s = Some (pre, m, post) -> plain tpl = true ->
  replace re tpl s = pre ++ tpl ++ post.
Proof.
  intros He Hp. unfold replace. rewrite He. now rewrite GetSubstitution_plain.
Qed.

Lemma replace_after (re : regex) (tpl s pre m post : jsstring) :
  exec re s = Some (pre, m, post) -> plain tpl = true ->
  replace re (u "$&" ++ tpl) s = pre ++ m ++ tpl ++ post.
Proof.
  intros He Hp. unfold replace. rewrite He.
  rewrite GetSubstitution_matched by assumption. now rewrite <- app_assoc.
Qed.

Lemma replace_absent (re : regex) (tpl s : jsstring) :
  exec re s = None -> replace re tpl s = s.
Proof. intro He. unfold replace. now rewrite He. Qed.

Lemma exec_includes (key s pre m post : jsstring) :
  exec (re_line key) s = Some (pre, m, post) -> includes s key = true.
Proof.
  intro He. apply exec_sound in He as [-> Hm].
  apply includes_app, includes_here.
  unfold re_line in Hm. now apply match_lits_starts in Hm.
Qed.

Lemma stamp_unit_plain (s : jsstring) :
  forallb stamp_unit s = true -> plain s = true.
Proof.
  apply forallb_impl. intros c Hc. apply negb_true_iff, N.eqb_neq.
  intros ->. discriminate Hc.
Qed.

Lemma plain_formatICalDate (t : Z) : plain (formatICalDate t) = true.
Proof.
  apply stamp_unit_plain. rewrite formatICalDate_fields.
  rewrite !forallb_app, stamp_units_year, !stamp_units_dec. reflexivity.
Qed.

Lemma plain_line (key value : jsstring) :
  plain key = true -> plain value = true -> plain (key ++ value ++ CRLF) = true.
Proof. intros Hk Hv. rewrite !plain_app, Hk, Hv. reflexivity. Qed.

Lemma truthy_some (s : jsstring) : s <> [] -> truthy (Some s) = true.
Proof. now destruct s. Qed.

Section WithEnv.

Context {E : Env}.

Lemma patch_summary_applied (a : Args) (body s pre m post : jsstring) :
  summary a = Some s -> s <> [] -> plain s = true ->
  exec (re_line SUMMARY) body = Some (pre, m, post) ->
  patch_summary a body = pre ++ SUMMARY ++ s ++ CRLF ++ post.
Proof.
  intros Hs Hne Hp He. unfold patch_summary.
  rewrite Hs, (truthy_some _ Hne). simpl render.
  rewrite (replace_found _ _ _ _ _ _ He) by now apply plain_line.
  now rewrite <- !app_assoc.
Qed.

Lemma patch_description_replaced (a : Args) (body d pre m post : jsstring) :
  description a = Some d -> plain d = true ->
  exec (re_line DESCRIPTION) body = Some (pre, m, post) ->
  patch_description a body = pre ++ DESCRIPTION ++ d ++ CRLF ++ post.
Proof.
  intros Hd Hp He. unfold patch_description.
  rewrite Hd, (exec_includes _ _ _ _ _ He).
  rewrite (replace_found _ _ _ _ _ _ He) by now apply plain_line.
  now rewrite <- !app_assoc.
Qed.

Lemma patch_description_inserted (a : Args) (body d pre m post : jsstring) :
  description a = Some d -> plain d = true ->
  includes body DESCRIPTION = false ->
  exec (re_line SUMMARY) body = Some (pre, m, post) ->
  patch_description a body = pre ++ m ++ DESCRIPTION ++ d ++ CRLF ++ post.
Proof.
  intros Hd Hp Hi He. unfold patch_description. rewrite Hd, Hi.
  rewrite (replace_after _ _ _ _ _ _ He) by now apply plain_line.
  now rewrite <- !app_assoc.
Qed.

Lemma patch_location_replaced (a : Args) (body l pre m post : jsstring) :
  location a = Some l -> plain l = true ->
  exec (re_line LOCATION) body = Some (pre, m, post) ->
  patch_location a body = pre ++ LOCATION ++ l ++ CRLF ++ post.
Proof.
  intros Hl Hp He. unfold patch_location.
  rewrite Hl, (exec_includes _ _ _ _ _ He).
  rewrite (replace_found _ _ _ _ _ _ He) by now apply plain_line.
  now rewrite <- !app_assoc.
Qed.

Lemma patch_location_inserted (a : Args) (body l pre m post : jsstring) :
  location a = Some l -> plain l = true ->
  includes body LOCATION = false ->
  exec (re_line SUMMARY) body = Some (pre, m, post) ->
  patch_location a body = pre ++ m ++ LOCATION ++ l ++ CRLF ++ post.
Proof.
  intros Hl Hp Hi He. unfold patch_location. rewrite Hl, Hi.
  rewrite (replace_after _ _ _ _ _ _ He) by now apply plain_line.
  now rewrite <- !app_assoc.
Qed.

Lemma patch_startDate_applied (a : Args) (body s pre m post : jsstring) (t : Z) :
  startDate a = Some s -> s <> [] -> Date_parse s = Some t ->
  exec (re_line DTSTART) body = Some (pre, m, post) ->
  patch_startDate a body
  = inr (pre ++ DTSTART ++ formatICalDate t ++ CRLF ++ post).
Proof.
  intros Hs Hne Hd He. unfold patch_startDate, new_Date.
  rewrite Hs, (truthy_some _ Hne), Hd.
  rewrite (replace_found _ _ _ _ _ _ He)
    by (apply plain_line; [reflexivity|apply plain_formatICalDate]).
  now rewrite <- !app_assoc.
Qed.

Lemma patch_endDate_applied (a : Args) (body s pre m post : jsstring) (t : Z) :
  endDate a = Some s -> s <> [] -> Date_parse s = Some t ->
  exec (re_line DTEND) body = Some (pre, m, post) ->
  patch_endDate a body
  = inr (pre ++ DTEND ++ formatICalDate t ++ CRLF ++ post).
Proof.
  intros Hs Hne Hd He. unfold patch_endDate, new_Date.
  rewrite Hs, (truthy_some _ Hne), Hd.
  rewrite (replace_found _ _ _ _ _ _ He)
    by (apply plain_line; [reflexivity|apply plain_formatICalDate]).
  now rewrite <- !app_assoc.
Qed.

(** On a text whose first [SUMMARY:] starts a line that ends with CR LF or
    LF, a title is put in place of the old one and nothing else changes. *)
Lemma patch_summary_first_line (a : Args) (pre old eol post s : jsstring) :
  summary a = Some s -> s <> [] -> plain s = true ->
  includes (pre ++ removelast SUMMARY) SUMMARY = false ->
  forallb dot old = true -> eol = CRLF \/ eol = [LF] ->
  patch_summary a (pre ++ SUMMARY ++ old ++ eol ++ post)
  = pre ++ SUMMARY ++ s ++ CRLF ++ post.
Proof.
  intros Hs Hne Hp Hpre Hold Heol.
  apply (patch_summary_applied a _ s pre (SUMMARY ++ old ++ eol) post);
    try assumption.
  apply exec_first_line; try assumption. discriminate.
Qed.


End WithEnv.
End PatchFacts.

(* ================================================================== *)
(** * The patch block on events written by [create_event]              *)
(* ================================================================== *)

Module PatchCases.
Import Server JSFacts Scenario.

Lemma planning_text : planning = planning_head ++ planning_tail.
Proof. reflexivity. Qed.

Lemma venue_text :
  venue = event_head ++ u "SUMMARY:Confirm LOCATION: with venue" ++ CRLF ++
          u "LOCATION:Room 1" ++ CRLF ++ planning_tail.
Proof. reflexivity. Qed.

(** C1.  The patch block is not idempotent on a description of two lines.
    On an event without description, written by [create_event], the first
    [update_event] puts the two lines after the [SUMMARY] line; the second,
    with the same arguments, finds the property, replaces its first line
    only by the two lines, and so leaves the second line twice. *)
Theorem agenda_patch_twice {E : Env} :
  applyPatch with_agenda planning
  = inr (planning_head ++
         u "DESCRIPTION:Agenda:" ++ [LF] ++ u "- budget" ++ CRLF ++
         planning_tail) /\
  applyPatch with_agenda
    (planning_head ++
     u "DESCRIPTION:Agenda:" ++ [LF] ++ u "- budget" ++ CRLF ++
     planning_tail)
  = inr (planning_head ++
         u "DESCRIPTION:Agenda:" ++ [LF] ++ u "- budget" ++ CRLF ++
         u "- budget" ++ CRLF ++
         planning_tail) /\
  planning_head ++
    u "DESCRIPTION:Agenda:" ++ [LF] ++ u "- budget" ++ CRLF ++ planning_tail
  <> planning_head ++
    u "DESCRIPTION:Agenda:" ++ [LF] ++ u "- budget" ++ CRLF ++
    u "- budget" ++ CRLF ++ planning_tail.
Proof.
  split; [|split].
  - vm_compute. reflexivity.
  - vm_compute. reflexivity.
  - intro H. apply (f_equal (@List.length _)) in H. vm_compute in H.
    discriminate H.
Qed.

(** The same with a title that holds [$&], which the replacement template
    reads as "the matched text": each application wraps the line once
    more. *)
Lemma dollar_patch_twice {E : Env} :
  exists once twice,
    applyPatch (with_summary "Cost: $&") planning = inr once /\
    applyPatch (with_summary "Cost: $&") once = inr twice /\
    (List.length once < List.length twice)%nat.
Proof.
  do 2 eexists. split; [vm_compute; reflexivity|].
  split; [vm_compute; reflexivity|]. vm_compute. lia.
Qed.

(** C2.  A patch of the location alone rewrites the [SUMMARY] line of an
    event, written by [create_event], whose title holds the text
    [LOCATION:]: the first text matching the [LOCATION] pattern starts
    inside the title.  The title is cut, and the [LOCATION] line keeps its
    old value. *)
Theorem location_patch_rewrites_summary {E : Env} :
  summary with_room2 = None /\
  applyPatch with_room2 venue
  = inr (event_head ++ u "SUMMARY:Confirm LOCATION:Room 2" ++ CRLF ++
         u "LOCATION:Room 1" ++ CRLF ++ planning_tail) /\
  includes venue (u "SUMMARY:Confirm LOCATION: with venue" ++ CRLF) = true /\
  includes (event_head ++ u "SUMMARY:Confirm LOCATION:Room 2" ++ CRLF ++
            u "LOCATION:Room 1" ++ CRLF ++ planning_tail)
           (u "SUMMARY:Confirm LOCATION: with venue" ++ CRLF) = false.
Proof. repeat split; vm_compute; reflexivity. Qed.


End PatchCases.

(* ================================================================== *)
(** * The compact timestamp                                            *)
(* ================================================================== *)

Module Encoder.
Import Server JSFacts DateFacts PatchFacts.

Local Open Scope Z_scope.

Lemma Day_floor (t : Z) : Day (t - msFromTime t) = Day t.
Proof.
  unfold Day, msFromTime, msPerDay, msPerSecond.
  Z.div_mod_to_equations. lia.
Qed.

Lemma YearFromTime_floor (t : Z) :
  YearFromTime (t - msFromTime t) = YearFromTime t.
Proof. unfold YearFromTime. now rewrite Day_floor. Qed.

Lemma MonthFromTime_floor (t : Z) :
  MonthFromTime (t - msFromTime t) = MonthFromTime t.
Proof.
  unfold MonthFromTime, DayWithinYear, InLeapYear.
  now rewrite Day_floor, YearFromTime_floor.
Qed.

Lemma DateFromTime_floor (t : Z) :
  DateFromTime (t - msFromTime t) = DateFromTime t.
Proof.
  unfold DateFromTime. rewrite MonthFromTime_floor.
  unfold DayWithinYear, InLeapYear.
  now rewrite Day_floor, YearFromTime_floor.
Qed.

Lemma HourFromTime_floor (t : Z) :
  HourFromTime (t - msFromTime t) = HourFromTime t.
Proof.
  unfold HourFromTime, msFromTime, msPerHour, msPerSecond.
  Z.div_mod_to_equations. lia.
Qed.

Lemma MinFromTime_floor (t : Z) :
  MinFromTime (t - msFromTime t) = MinFromTime t.
Proof.
  unfold MinFromTime, msFromTime, msPerMinute, msPerSecond.
  Z.div_mod_to_equations. lia.
Qed.

Lemma SecFromTime_floor (t : Z) :
  SecFromTime (t - msFromTime t) = SecFromTime t.
Proof.
  unfold SecFromTime, msFromTime, msPerSecond.
  Z.div_mod_to_equations. lia.
Qed.

(** The fraction of a second is cut, not rounded: the encoder gives the
    same text for [t] and for the whole second before it. *)
Lemma formatICalDate_truncates (t : Z) :
  formatICalDate (t - msFromTime t) = formatICalDate t.
Proof.
  rewrite !formatICalDate_fields.
  now rewrite YearFromTime_floor, MonthFromTime_floor, DateFromTime_floor,
    HourFromTime_floor, MinFromTime_floor, SecFromTime_floor.
Qed.

(** The encoder is the ISO string up to the seconds, without its dashes and
    colons, and [Z]. *)
Lemma formatICalDate_strips (t : Z) :
  toISOString t = iso_seconds t ++ u "." ++ fixed_dec 3 (msFromTime t) ++ u "Z" /\
  formatICalDate t = strip_separators (iso_seconds t) ++ u "Z".
Proof.
  split.
  - unfold toISOString, iso_seconds. now rewrite <- !app_assoc.
  - rewrite formatICalDate_fields. unfold iso_seconds.
    repeat rewrite strip_app. rewrite strip_iso_year, !strip_fixed_dec.
    change (strip_separators (u "-")) with (@nil code_unit).
    change (strip_separators (u ":")) with (@nil code_unit).
    change (strip_separators (u "T")) with (u "T").
    cbn [app]. now rewrite <- !app_assoc.
Qed.

Lemma icalString_dates (uid : jsstring) (stamp start end_ : Z)
      (s d l : option jsstring) :
  exists before after,
    icalString uid stamp start end_ s d l
    = before ++ DTSTART ++ formatICalDate start ++ CRLF ++
      DTEND ++ formatICalDate end_ ++ CRLF ++ after.
Proof.
  exists (u "BEGIN:VCALENDAR" ++ CRLF ++ u "VERSION:2.0" ++ CRLF ++
          u "PRODID:-//Fastmail Calendar MCP//EN" ++ CRLF ++
          u "BEGIN:VEVENT" ++ CRLF ++ u "UID:" ++ uid ++ CRLF ++
          u "DTSTAMP:" ++ formatICalDate stamp ++ CRLF),
         (join CRLF (filter nonempty
            [ SUMMARY ++ render s;
              if truthy d then DESCRIPTION ++ render d else [];
              if truthy l then LOCATION ++ render l else [];
              u "END:VEVENT"; u "END:VCALENDAR" ])).
  unfold icalString.
  generalize (formatICalDate stamp), (formatICalDate start),
    (formatICalDate end_). intros fs fb fe.
  generalize (render s), (render d), (render l). intros rs rd rl.
  destruct (truthy d), (truthy l);
    cbn; rewrite <- ?app_assoc; cbn; rewrite <- ?app_assoc; reflexivity.
Qed.

Section WithEnv.

Context {E : Env}.

(** C8, for the years the compact form can hold.  For a date whose UTC
    year is from 0 to 9999, [formatICalDate] gives the ISO string up to the
    seconds without its dashes and colons, the fraction dropped, followed
    by [Z]: the sixteen units [YYYYMMDDTHHMMSSZ], the fraction of a second
    cut and not rounded.  [create_event] writes its [DTSTART] and [DTEND]
    lines with this encoder, and the date steps of [update_event] write
    the line they replace with it. *)
Theorem formatICalDate_compact (t : Z) :
  0 <= YearFromTime t <= 9999 ->
  toISOString t = iso_seconds t ++ u "." ++ fixed_dec 3 (msFromTime t) ++ u "Z" /\
  formatICalDate t = strip_separators (iso_seconds t) ++ u "Z" /\
  formatICalDate t = compact_timestamp t /\
  List.length (formatICalDate t) = 16%nat /\
  (1 <= MonthFromTime t + 1 <= 12 /\ 1 <= DateFromTime t <= 31 /\
   0 <= HourFromTime t <= 23 /\ 0 <= MinFromTime t <= 59 /\
   0 <= SecFromTime t <= 59 /\ 0 <= msFromTime t <= 999) /\
  formatICalDate (t - msFromTime t) = formatICalDate t /\
  (forall uid stamp end_ s d l, exists before after,
      icalString uid stamp t end_ s d l
      = before ++ DTSTART ++ compact_timestamp t ++ CRLF ++
        DTEND ++ formatICalDate end_ ++ CRLF ++ after) /\
  (forall uid stamp start s d l, exists before after,
      icalString uid stamp start t s d l
      = before ++ DTSTART ++ formatICalDate start ++ CRLF ++
        DTEND ++ compact_timestamp t ++ CRLF ++ after) /\
  (forall a body x pre m post,
      startDate a = Some x -> x <> [] -> Date_parse x = Some t ->
      exec (re_line DTSTART) body = Some (pre, m, post) ->
      patch_startDate a body
      = inr (pre ++ DTSTART ++ compact_timestamp t ++ CRLF ++ post)) /\
  (forall a body x pre m post,
      endDate a = Some x -> x <> [] -> Date_parse x = Some t ->
      exec (re_line DTEND) body = Some (pre, m, post) ->
      patch_endDate a body
      = inr (pre ++ DTEND ++ compact_timestamp t ++ CRLF ++ post)).
Proof.
  intro Hy.
  assert (Hc : formatICalDate t = compact_timestamp t).
  { rewrite formatICalDate_fields. unfold compact_timestamp, compact_year.
    replace ((0 <=? YearFromTime t) && (YearFromTime t <=? 9999)) with true
      by (symmetry; apply andb_true_iff; split; apply Z.leb_le; lia).
    reflexivity. }
  destruct (formatICalDate_strips t) as [H1 H2].
  split; [exact H1|]. split; [exact H2|]. split; [exact Hc|].
  split; [|split; [apply fields_in_range|]].
  { rewrite Hc. unfold compact_timestamp.
    rewrite !length_app, !fixed_dec_length. reflexivity. }
  split; [apply formatICalDate_truncates|].
  split; [|split; [|split]].
  - intros. rewrite <- Hc. apply icalString_dates.
  - intros. rewrite <- Hc. apply icalString_dates.
  - intros a body x pre m post Hs Hne Hd He. rewrite <- Hc.
    now apply (patch_startDate_applied a body x pre m post t).
  - intros a body x pre m post Hs Hne Hd He. rewrite <- Hc.
    now apply (patch_endDate_applied a body x pre m post t).
Qed.

End WithEnv.

(** C8 fails past the year 9999: the year has a sign and six digits. *)
Lemma formatICalDate_year_10000 :
  valid_time 253402300800000 = true /\
  toISOString 253402300800000 = u "+010000-01-01T00:00:00.000Z" /\
  formatICalDate 253402300800000 = u "+0100000101T000000Z" /\
  List.length (formatICalDate 253402300800000) <> 16%nat.
Proof.
  repeat split; try (vm_compute; reflexivity).
  vm_compute. discriminate.
Qed.

End Encoder.

(* ================================================================== *)
(** * Interleaved initializations                                      *)
(* ================================================================== *)

Module BootstrapFacts.
Import Server Bootstrap.

Section WithEnv.

Context {E : Env}.

(** A call that runs alone goes through [initializeClient]. *)
Lemma alone_is_initializeClient (st : State) :
  shared (run [0; 0; 0]%nat {| shared := st; stages := [Entry] |})
  = fst (initializeClient st) /\
  stages (run [0; 0; 0]%nat {| shared := st; stages := [Entry] |})
  = [match snd (initializeClient st) with
     | inr _ => Returned (calendars (fst (initializeClient st)))
     | inl e => Failed e
     end].
Proof.
  unfold initializeClient, run, resume, advance, bind, await, set_davClient,
    set_calendars.
  destruct st as [dc cs w tr]. simpl.
  destruct dc as [c|]; simpl; [split; reflexivity|].
  destruct (createDAVClient w) as [w1 [e|c]]; simpl; [split; reflexivity|].
  destruct (fetchCalendars c w1) as [w2 [e|l]]; simpl; split; reflexivity.
Qed.

Lemma handshakes_snoc (st st' : State) (call : NetCall) :
  trace st' = trace st ++ [call] ->
  handshakes st' = (handshakes st + if is_handshake call then 1 else 0)%nat.
Proof.
  unfold handshakes. intros ->. rewrite filter_app, length_app. simpl.
  destruct (is_handshake call); reflexivity.
Qed.

(** A call past its entry sends no handshake and does not go back. *)
Lemma advance_past_entry (st : State) (s : Stage) :
  s <> Entry ->
  handshakes (fst (advance st s)) = handshakes st /\
  snd (advance st s) <> Entry.
Proof.
  intro Hs. destruct s as [|[e|c]|[e|l]|seen|e]; simpl;
    try (split; [reflexivity|discriminate]); [contradiction|].
  destruct (fetchCalendars c (world st)) as [w' r]. simpl.
  split; [|discriminate].
  rewrite (handshakes_snoc st _ FetchCalendars) by reflexivity. simpl. lia.
Qed.

Lemma set_nth_past_entry (i : nat) (s : Stage) (l : list Stage) :
  s <> Entry -> Forall (fun x => x <> Entry) l ->
  Forall (fun x => x <> Entry) (set_nth i s l).
Proof.
  intros Hs Hl. revert i. induction Hl as [|x l Hx Hl IH]; intro i.
  - destruct i; constructor.
  - destruct i; simpl; constructor; auto.
Qed.

Lemma nth_error_Forall {A} (P : A -> Prop) (l : list A) (i : nat) (a : A) :
  Forall P l -> nth_error l i = Some a -> P a.
Proof.
  intros Hl Hn. apply nth_error_In in Hn.
  rewrite Forall_forall in Hl. auto.
Qed.

(** Once every call is past its entry, no schedule adds a handshake. *)
Lemma run_past_entry (schedule : list nat) :
  forall sys,
    Forall (fun x => x <> Entry) (stages sys) ->
    handshakes (shared (run schedule sys)) = handshakes (shared sys).
Proof.
  induction schedule as [|i rest IH]; intros sys Hall; simpl; [reflexivity|].
  unfold resume. destruct (nth_error (stages sys) i) as [s|] eqn:Hn.
  - pose proof (nth_error_Forall _ _ _ _ Hall Hn) as Hs.
    destruct (advance_past_entry (shared sys) s Hs) as [Hh He].
    destruct (advance (shared sys) s) as [st' s']. simpl in *.
    rewrite IH; simpl; [exact Hh|]. now apply set_nth_past_entry.
  - now apply IH.
Qed.

(** C9, as the code has it.  [initializeClient] has no guard for an
    initialization in flight: [davClient] is assigned only when the
    handshake has completed.  When two calls enter before that, each sends
    its own handshake, two in all, whatever the order in which the event
    loop resumes them afterwards.  When the second call enters after the
    first has finished its initialization, one handshake is sent and both
    calls find the same calendar list. *)
Theorem bootstrap_handshakes (st : State) (c : Client) (w1 w2 : World)
        (l : list DAVCalendar) :
  davClient st = None ->
  createDAVClient (world st) = (w1, inr c) ->
  fetchCalendars c w1 = (w2, inr l) ->
  (forall schedule,
      handshakes (shared (run (0 :: 1 :: schedule)%nat (two_calls st)))
      = (handshakes st + 2)%nat) /\
  handshakes (shared (run [0; 0; 0; 1]%nat (two_calls st)))
  = (handshakes st + 1)%nat /\
  map seen_by (stages (run [0; 0; 0; 1]%nat (two_calls st)))
  = [Some l; Some l].
Proof.
  intros Hd Hc Hf. unfold two_calls. split; [|split].
  - intro schedule. cbn [run]. unfold resume at 2. cbn [stages nth_error shared].
    unfold advance at 1. rewrite Hd, Hc. cbn [set_nth].
    unfold resume at 1. cbn [stages nth_error shared].
    unfold advance at 1. cbn [davClient world calendars trace].
    destruct (createDAVClient w1) as [w1' r]. cbn [set_nth].
    rewrite run_past_entry.
    + unfold handshakes. cbn [trace shared].
      rewrite !filter_app, !length_app. simpl. lia.
    + cbn [stages]. repeat constructor; discriminate.
  - unfold run, resume, advance. simpl. rewrite Hd, Hc. simpl.
    rewrite Hf. simpl. unfold handshakes. simpl.
    rewrite !filter_app, !length_app. simpl. lia.
  - unfold run, resume, advance. simpl. rewrite Hd, Hc. simpl.
    rewrite Hf. simpl. reflexivity.
Qed.

End WithEnv.

Import Scenario.

(** C9 fails on the handler: two calls that enter one after the other
    before any answer has come send two handshakes. *)
Lemma two_calls_two_handshakes :
  handshakes (fresh account) = 0%nat /\
  handshakes (shared (run [0; 1; 0; 1; 0; 1]%nat (two_calls (fresh account))))
  = 2%nat /\
  trace (shared (run [0; 1; 0; 1; 0; 1]%nat (two_calls (fresh account))))
  = [CreateDAVClient; CreateDAVClient; FetchCalendars; FetchCalendars] /\
  map seen_by (stages (run [0; 1; 0; 1; 0; 1]%nat (two_calls (fresh account))))
  = [Some [work; home; family; shared_cal];
     Some [work; home; family; shared_cal]].
Proof. repeat split; vm_compute; reflexivity. Qed.

(** A call that enters between the handshake and the answer to the fetch of
    the calendars of another call finds an empty calendar list. *)
Lemma early_call_sees_no_calendar :
  map seen_by (stages (run [0; 0; 1; 0]%nat (two_calls (fresh account))))
  = [Some [work; home; family; shared_cal]; Some []].
Proof. vm_compute. reflexivity. Qed.

End BootstrapFacts.

(* ================================================================== *)
(** * The handler against the reference world                          *)
(* ================================================================== *)

Module Cases.
Import Server Bootstrap Scenario JSFacts.

Lemma first_call_initializes :
  initializeClient (fresh account) = (initialized, inr tt).
Proof. reflexivity. Qed.

Lemma fetch_is_read_only (calendar : DAVCalendar) (w : Store) :
  fst (objects_of tt calendar None w) = w.
Proof. unfold objects_of. now destruct (find _ (store w)). Qed.

(** C5 fails for [update_event]: with a start date that does not parse,
    the error of the date comes after the three fetches of the search. *)
Lemma update_event_validates_after_fetch :
  truthy (startDate (with_start "next tuesday")) = true /\
  new_Date (startDate (with_start "next tuesday")) = None /\
  snd (handler (u "update_event") (Some (with_start "next tuesday"))
               initialized)
  = error_result (InvalidStartDate (Some (u "next tuesday"))) /\
  trace (fst (handler (u "update_event") (Some (with_start "next tuesday"))
                      initialized))
  = trace initialized ++ [fetch_call work; fetch_call home; fetch_call family].
Proof. repeat split; vm_compute; reflexivity. Qed.

Lemma validation_before_requests_witness :
  initializeClient (fresh account) = (initialized, inr tt) /\
  exists e,
    handler (u "create_event")
            (Some (event_args "/dav/work/" "2024-06-15T11:00:00Z"
                              "2024-06-15T10:00:00Z"))
            (fresh account)
    = (initialized, error_result e) /\
    (e = CalendarNotFound (Some (u "/dav/work/")) \/
     e = InvalidStartDate (Some (u "2024-06-15T11:00:00Z")) \/
     e = InvalidEndDate (Some (u "2024-06-15T10:00:00Z")) \/
     e = EndNotAfterStart).
Proof.
  split; [exact first_call_initializes|].
  apply (proj1 (proj2 (HandlerFacts.validation_before_requests
                         (event_args "/dav/work/" "2024-06-15T11:00:00Z"
                                     "2024-06-15T10:00:00Z")
                         (fresh account) initialized first_call_initializes))).
  right; right. exists 1718449200000%Z, 1718445600000%Z.
  split; [reflexivity|]. split; [reflexivity|]. discriminate.
Defined.

Lemma unknown_calendar_is_not_found_witness :
  initializeClient (fresh account) = (initialized, inr tt) /\
  (forall cal, In cal (calendars initialized) ->
               Some (cal_url cal)
               <> calendarUrl (event_args "/dav/none/" "2024-06-15"
                                          "2024-06-16")) /\
  handler (u "list_events")
          (Some (event_args "/dav/none/" "2024-06-15" "2024-06-16"))
          (fresh account)
  = (initialized, error_result (CalendarNotFound (Some (u "/dav/none/")))).
Proof.
  assert (H : forall cal, In cal (calendars initialized) ->
                          Some (cal_url cal)
                          <> calendarUrl (event_args "/dav/none/" "2024-06-15"
                                                     "2024-06-16")).
  { simpl. intros cal [<-|[<-|[<-|[<-|[]]]]]; intro H; cbv in H;
      discriminate H. }
  split; [exact first_call_initializes|]. split; [exact H|].
  exact (proj1 (HandlerFacts.unknown_calendar_is_not_found
                  (event_args "/dav/none/" "2024-06-15" "2024-06-16")
                  (fresh account) initialized first_call_initializes H)).
Defined.

Lemma locator_first_match_witness :
  davClient initialized = Some tt /\
  (forall calendar w,
      fst (@fetchCalendarObjects memory tt calendar None w) = w) /\
  locate (calendars initialized) (eventUrl with_agenda)
         initialized
  = (sent initialized (map fetch_call ([work; home] ++ [family])),
     inr (Some planning_object)) /\
  Some (obj_url planning_object) = eventUrl with_agenda.
Proof.
  split; [reflexivity|]. split; [exact fetch_is_read_only|].
  apply (proj1 (HandlerFacts.locator_first_match (E:=memory)
                  tt with_agenda initialized eq_refl
                  fetch_is_read_only)
               [work; home] family [shared_cal] [planning_object]
               planning_object).
  - reflexivity.
  - repeat constructor; exists []; split; reflexivity.
  - reflexivity.
  - reflexivity.
Defined.


Lemma formatICalDate_compact_witness :
  (0 <= YearFromTime june15 <= 9999)%Z /\
  formatICalDate june15 = compact_timestamp june15 /\
  List.length (formatICalDate june15) = 16%nat.
Proof.
  assert (H : (0 <= YearFromTime june15 <= 9999)%Z)
    by (vm_compute; split; discriminate).
  split; [exact H|].
  pose proof (Encoder.formatICalDate_compact (E:=memory) june15 H)
    as (_ & _ & H3 & H4 & _).
  split; assumption.
Defined.

Lemma bootstrap_handshakes_witness :
  davClient (fresh account) = None /\
  @createDAVClient memory (world (fresh account)) = (account, inr tt) /\
  @fetchCalendars memory tt account
  = (account, inr [work; home; family; shared_cal]) /\
  (forall schedule,
      handshakes (shared (run (0 :: 1 :: schedule)%nat
                              (two_calls (fresh account))))
      = (handshakes (fresh account) + 2)%nat) /\
  handshakes (shared (run [0; 0; 0; 1]%nat (two_calls (fresh account))))
  = (handshakes (fresh account) + 1)%nat /\
  map seen_by (stages (run [0; 0; 0; 1]%nat (two_calls (fresh account))))
  = [Some [work; home; family; shared_cal];
     Some [work; home; family; shared_cal]].
Proof.
  split; [reflexivity|]. split; [reflexivity|]. split; [reflexivity|].
  exact (BootstrapFacts.bootstrap_handshakes (E:=memory)
           (fresh account) tt account account
           [work; home; family; shared_cal] eq_refl eq_refl eq_refl).
Defined.

(** The same [update_event] call, made twice in a row, leaves a different
    text in the store the second time. *)
Lemma update_event_twice_differs :
  isError (snd (handler (u "update_event") (Some with_agenda) initialized))
  = false /\
  stored (fst (handler (u "update_event") (Some with_agenda) initialized))
  = [[]; [];
     [planning_head ++ u "DESCRIPTION:Agenda:" ++ [LF] ++ u "- budget" ++ CRLF
      ++ planning_tail]; []] /\
  isError (snd (handler (u "update_event") (Some with_agenda)
                  (fst (handler (u "update_event") (Some with_agenda)
                                initialized))))
  = false /\
  stored (fst (handler (u "update_event") (Some with_agenda)
                 (fst (handler (u "update_event") (Some with_agenda)
                               initialized))))
  = [[]; [];
     [planning_head ++ u "DESCRIPTION:Agenda:" ++ [LF] ++ u "- budget" ++ CRLF
      ++ u "- budget" ++ CRLF ++ planning_tail]; []].
Proof. repeat split; vm_compute; reflexivity. Qed.

(** The timestamp of the sample date. *)
Example formatICalDate_june15 : formatICalDate june15 = u "20240615T100000Z".
Proof. vm_compute. reflexivity. Qed.

End Cases.

(* ================================================================== *)
(** * Property patterns as line scans                                  *)
(* ================================================================== *)

Module LineFacts.
Import Lines JSFacts.

Lemma match_lits (key : jsstring) (re : regex) :
  forall s,
    match_here (lits key ++ re) s
    = if starts_with key s then match_here re (skipn (List.length key) s)
      else None.
Proof.
  induction key as [|c key IH]; intro s; simpl; [reflexivity|].
  destruct s as [|y s]; [reflexivity|].
  unfold lit at 1. rewrite (N.eqb_sym c y).
  destruct (N.eqb y c); simpl; [apply IH|reflexivity].
Qed.

(** The backtracking matcher on the tail of a property pattern does what
    the scan does: giving back units of the run never helps. *)
Lemma tail_is_line_rest (t : jsstring) :
  match_here [Atom dot Star; Atom (lit CR) Opt; Atom (lit LF) One] t
  = line_rest t.
Proof.
  cbn [match_here qnt cls].
  induction t as [|c t IH]; [reflexivity|].
  cbn [star_k line_rest]. destruct (dot c) eqn:Hd.
  - rewrite IH. destruct (line_rest t) as [r|]; [reflexivity|].
    cbn [match_here qnt cls]. unfold dot, is_line_terminator in Hd.
    apply negb_true_iff in Hd.
    apply orb_false_iff in Hd as [Hd _]. apply orb_false_iff in Hd as [Hd _].
    apply orb_false_iff in Hd as [Hlf Hcr].
    unfold lit. now rewrite Hcr, Hlf.
  - cbn [match_here qnt cls]. unfold lit.
    destruct (N.eqb c CR) eqn:Hcr.
    + destruct t as [|d r]; [|destruct (N.eqb d LF) eqn:Hlf].
      * apply N.eqb_eq in Hcr. now subst c.
      * reflexivity.
      * apply N.eqb_eq in Hcr. now subst c.
    + destruct (N.eqb c LF); reflexivity.
Qed.

(** A property pattern matches where the property name stands and a line
    end follows on the same line. *)
Lemma match_line_scan (key s : jsstring) :
  match_here (re_line key) s
  = if starts_with key s then line_rest (skipn (List.length key) s) else None.
Proof.
  unfold re_line. rewrite match_lits. now rewrite tail_is_line_rest.
Qed.

Lemma line_rest_shape (d e post : jsstring) :
  forallb dot d = true -> is_eol e -> line_rest (d ++ e ++ post) = Some post.
Proof.
  intros Hd He. induction d as [|c d IH]; simpl.
  - destruct He as [-> | ->]; reflexivity.
  - simpl in Hd. apply andb_true_iff in Hd as [Hc Hd]. rewrite Hc. now apply IH.
Qed.

Lemma line_rest_inv (t r : jsstring) :
  line_rest t = Some r ->
  exists run e, t = run ++ e ++ r /\ forallb dot run = true /\ is_eol e.
Proof.
  induction t as [|c t IH]; simpl; [discriminate|].
  destruct (dot c) eqn:Hd.
  - intro H. destruct (IH H) as (run & e & -> & Hrun & He).
    exists (c :: run), e. simpl. now rewrite Hd, Hrun.
  - destruct (N.eqb_spec c CR) as [->|Hcr].
    + destruct t as [|d t]; [discriminate|].
      destruct (N.eqb_spec d LF) as [->|]; [|discriminate].
      intro H; injection H as ->. exists [], CRLF.
      split; [reflexivity|]. split; [reflexivity|]. unfold is_eol; auto.
    + destruct (N.eqb_spec c LF) as [->|]; [|discriminate].
      intro H; injection H as ->. exists [], [LF].
      split; [reflexivity|]. split; [reflexivity|]. unfold is_eol; auto.
Qed.

(** After a unit that is no line terminator, whether the scan succeeds does
    not depend on what follows, as long as what follows has a line end. *)
Lemma line_rest_indep (r0 : jsstring) (c : code_unit) (a b : jsstring) :
  dot c = true -> line_rest a <> None -> line_rest b <> None ->
  line_rest ((r0 ++ [c]) ++ a) = None -> line_rest ((r0 ++ [c]) ++ b) = None.
Proof.
  intros Hc Ha Hb. induction r0 as [|x r0 IH]; simpl.
  - rewrite Hc. intro H. contradiction.
  - destruct (dot x); [exact IH|].
    destruct (N.eqb x CR).
    + destruct r0 as [|y r0]; simpl;
        [|destruct (N.eqb y LF); [discriminate|trivial]].
      unfold dot, is_line_terminator in Hc. apply negb_true_iff in Hc.
      apply orb_false_iff in Hc as [Hc _]. apply orb_false_iff in Hc as [Hc _].
      apply orb_false_iff in Hc as [Hlf _]. now rewrite Hlf.
    + destruct (N.eqb x LF); [discriminate|trivial].
Qed.

(** Whether the scan succeeds is settled by the text up to the first line
    feed. *)
Lemma line_rest_cut (r x y : jsstring) :
  line_rest (r ++ LF :: x) = None -> line_rest (r ++ LF :: y) = None.
Proof.
  induction r as [|c r IH]; simpl.
  - discriminate.
  - destruct (dot c); [exact IH|].
    destruct (N.eqb c CR).
    + destruct r as [|d r]; simpl; [discriminate|].
      destruct (N.eqb d LF); [discriminate|trivial].
    + destruct (N.eqb c LF); [discriminate|trivial].
Qed.

(** [exec] reports the leftmost match. *)
Lemma exec_leftmost (re : regex) :
  forall s pre m post,
    exec re s = Some (pre, m, post) ->
    forall i, (i < List.length pre)%nat -> match_here re (skipn i s) = None.
Proof.
  intro s; induction s as [|c s IH]; intros pre m post H i Hi; simpl in H.
  - destruct (match_here re []); [|discriminate].
    injection H as <- _ _. simpl in Hi. lia.
  - destruct (match_here re (c :: s)) eqn:Hm.
    + injection H as <- _ _. simpl in Hi. lia.
    + destruct (exec re s) as [[[p' m'] q']|] eqn:He; [|discriminate].
      injection H as <- <- <-.
      destruct i as [|i]; [exact Hm|]. simpl.
      apply (IH _ _ _ eq_refl). simpl in Hi. lia.
Qed.

Lemma exec_none_everywhere (re : regex) :
  forall s, exec re s = None ->
            forall i, match_here re (skipn i s) = None.
Proof.
  intro s; induction s as [|c s IH]; intros H i; simpl in H.
  - destruct (match_here re []) eqn:Hm; [discriminate|]. now destruct i.
  - destruct (match_here re (c :: s)) eqn:Hm; [discriminate|].
    destruct (exec re s) as [[[p' m'] q']|] eqn:He; [discriminate|].
    destruct i as [|i]; [exact Hm|]. simpl. now apply IH.
Qed.

(** The text a property pattern matches: the name, a run without line
    terminator, a line end. *)
Lemma match_line_inv (key m post : jsstring) :
  match_here (re_line key) (m ++ post) = Some post ->
  exists run e, m = key ++ run ++ e /\ forallb dot run = true /\ is_eol e.
Proof.
  rewrite match_line_scan.
  destruct (starts_with key (m ++ post)) eqn:Hs; [|discriminate].
  apply starts_with_split in Hs as [x Hx]. rewrite Hx.
  rewrite skipn_app, skipn_all, Nat.sub_diag. simpl.
  intro H. apply line_rest_inv in H as (run & e & -> & Hrun & He).
  exists run, e. split; [|now split].
  apply (app_inv_tail post). rewrite Hx. now rewrite <- !app_assoc.
Qed.

Lemma exec_line_inv (key s pre m post : jsstring) :
  exec (re_line key) s = Some (pre, m, post) ->
  s = pre ++ m ++ post /\
  exists run e, m = key ++ run ++ e /\ forallb dot run = true /\ is_eol e.
Proof.
  intro H. apply exec_sound in H as [-> Hm]. split; [reflexivity|].
  now apply match_line_inv in Hm.
Qed.

Lemma skipn_app_le {A} (i : nat) (a b : list A) :
  (i <= List.length a)%nat -> skipn i (a ++ b) = skipn i a ++ b.
Proof.
  intro H. rewrite skipn_app.
  replace (i - List.length a)%nat with 0%nat by lia. reflexivity.
Qed.

Lemma eol_ends_LF (e : jsstring) : is_eol e -> exists e', e = e' ++ [LF].
Proof. intros [-> | ->]; [now exists [CR]|now exists []]. Qed.

(** A match seen from a position in front of it: the pattern applied at
    [i] reads the name inside [pre ++ key], then scans. *)
Lemma match_before (key pre : jsstring) (i : nat) :
  key <> [] -> (i < List.length pre)%nat ->
  exists r0 c,
    last key 0%N = c /\
    forall a,
      match_here (re_line key) (skipn i (pre ++ key ++ a))
      = if starts_with key (skipn i (pre ++ key))
        then line_rest ((r0 ++ [c]) ++ a) else None.
Proof.
  intros Hk Hi. unfold jsstring, code_unit in *.
  exists (skipn (List.length key) (skipn i (pre ++ removelast key))),
         (last key 0%N).
  split; [reflexivity|]. intro a.
  assert (Hlen : List.length key = S (List.length (removelast key))).
  { rewrite (app_removelast_last 0%N Hk) at 1.
    rewrite length_app. simpl. rewrite Nat.add_1_r. reflexivity. }
  rewrite match_line_scan.
  rewrite app_assoc, skipn_app_le by (rewrite length_app; lia).
  set (w := skipn i (pre ++ key)).
  assert (Hw : (List.length key <= List.length w)%nat).
  { unfold w. rewrite length_skipn, length_app. lia. }
  rewrite starts_with_long by exact Hw.
  destruct (starts_with key w); [|reflexivity].
  rewrite skipn_app_le by exact Hw. f_equal. f_equal.
  unfold w. rewrite (app_removelast_last 0%N Hk) at 2.
  rewrite app_assoc.
  rewrite (skipn_app_le i) by (rewrite length_app; lia).
  rewrite skipn_app_le; [reflexivity|].
  rewrite length_skipn, length_app. unfold jsstring, code_unit in *. lia.
Qed.

Lemma dot_last (key : jsstring) :
  key <> [] -> forallb dot key = true -> dot (last key 0%N) = true.
Proof.
  intros Hk Hd. rewrite forallb_forall in Hd. apply Hd.
  rewrite (app_removelast_last 0%N Hk) at 2. apply in_or_app. right. now left.
Qed.

(** Putting a one-line value in place of the matched line leaves the match
    where it was. *)
Lemma exec_replace_line (key pre m post v : jsstring) :
  key <> [] -> forallb dot key = true -> forallb dot v = true ->
  exec (re_line key) (pre ++ m ++ post) = Some (pre, m, post) ->
  exec (re_line key) (pre ++ (key ++ v ++ CRLF) ++ post)
  = Some (pre, key ++ v ++ CRLF, post).
Proof.
  intros Hk Hkd Hv He.
  pose proof (exec_leftmost _ _ _ _ _ He) as Hleft.
  destruct (exec_line_inv _ _ _ _ _ He) as (_ & run & e & -> & Hrun & Heol).
  apply exec_found; [|rewrite <- !app_assoc; apply match_line; auto;
                      unfold is_eol; auto|reflexivity].
  intros i Hi. specialize (Hleft i Hi).
  destruct (match_before key pre i Hk Hi) as (r0 & c & Hc & Hm).
  rewrite <- !app_assoc in *. rewrite Hm in *.
  destruct (starts_with key (skipn i (pre ++ key))); [|reflexivity].
  apply (line_rest_indep r0 c (run ++ e ++ post)).
  - rewrite <- Hc. now apply dot_last.
  - now rewrite line_rest_shape.
  - rewrite line_rest_shape; [discriminate|exact Hv|now left].
  - exact Hleft.
Qed.

(** What follows the matched line does not decide where the first match
    is. *)
Lemma exec_change_suffix (key pre m post x : jsstring) :
  exec (re_line key) (pre ++ m ++ post) = Some (pre, m, post) ->
  exec (re_line key) (pre ++ m ++ x) = Some (pre, m, x).
Proof.
  intro He.
  pose proof (exec_leftmost _ _ _ _ _ He) as Hleft.
  destruct (exec_line_inv _ _ _ _ _ He) as (_ & run & e & -> & Hrun & Heol).
  apply exec_found; [|rewrite <- !app_assoc; now apply match_line|reflexivity].
  intros i Hi. specialize (Hleft i Hi).
  destruct (eol_ends_LF e Heol) as [e' ->].
  rewrite match_line_scan in *.
  assert (Hsk : forall y,
             skipn i (pre ++ (key ++ run ++ e' ++ [LF]) ++ y)
             = skipn i (pre ++ key ++ run ++ e') ++ LF :: y).
  { intro y. rewrite <- skipn_app_le by (rewrite length_app; lia).
    now rewrite <- !app_assoc. }
  rewrite Hsk in *.
  set (w := skipn i (pre ++ key ++ run ++ e')) in *.
  assert (Hw : (List.length key <= List.length w)%nat).
  { unfold w. rewrite length_skipn, !length_app.
    unfold jsstring, code_unit in *. lia. }
  rewrite starts_with_long in * by exact Hw.
  destruct (starts_with key w); [|reflexivity].
  rewrite skipn_app_le in * by exact Hw.
  now apply (line_rest_cut _ post).
Qed.

(** Replacing the first line of a property by a one-line value twice is
    replacing it once. *)
Lemma replace_line_idem (key v body : jsstring) :
  key <> [] -> forallb dot key = true -> plain key = true ->
  one_line v = true ->
  replace (re_line key) (key ++ v ++ CRLF)
          (replace (re_line key) (key ++ v ++ CRLF) body)
  = replace (re_line key) (key ++ v ++ CRLF) body.
Proof.
  intros Hk Hkd Hkp Hv. apply andb_true_iff in Hv as [Hvd Hvp].
  assert (Hp : plain (key ++ v ++ CRLF) = true)
    by (rewrite !plain_app, Hkp, Hvp; reflexivity).
  destruct (exec (re_line key) body) as [[[pre m] post]|] eqn:He.
  - rewrite (PatchFacts.replace_found _ _ _ _ _ _ He Hp).
    apply exec_sound in He as He'. destruct He' as [-> _].
    pose proof (exec_replace_line key pre m post v Hk Hkd Hvd He) as He2.
    rewrite (PatchFacts.replace_found _ _ _ _ _ _ He2 Hp). reflexivity.
  - rewrite (PatchFacts.replace_absent _ _ _ He).
    now rewrite (PatchFacts.replace_absent _ _ _ He).
Qed.

Lemma starts_with_app_r (key a x : jsstring) :
  starts_with key a = true -> starts_with key (a ++ x) = true.
Proof.
  intro H. apply starts_with_split in H as [r ->].
  rewrite <- app_assoc. apply starts_with_app.
Qed.

(** A name without line terminator does not reach across a line feed. *)
Lemma starts_with_before_LF (key a x : jsstring) :
  forallb dot key = true ->
  starts_with key (a ++ LF :: x) = true -> starts_with key a = true.
Proof.
  revert a; induction key as [|k key IH]; intros a Hd H; [reflexivity|].
  simpl in Hd. apply andb_true_iff in Hd as [Hk Hd].
  destruct a as [|c a]; simpl in *.
  - apply andb_true_iff in H as [H _]. apply N.eqb_eq in H. subst k.
    discriminate Hk.
  - apply andb_true_iff in H as [H1 H2]. rewrite H1. simpl. now apply IH.
Qed.

(** A line put after a line feed, in a text where its name occurs nowhere,
    starts the first occurrence of the name. *)
Lemma exec_inserted_line (key pm v post : jsstring) :
  forallb dot key = true -> forallb dot v = true ->
  includes ((pm ++ [LF]) ++ post) key = false ->
  exec (re_line key) ((pm ++ [LF]) ++ (key ++ v ++ CRLF) ++ post)
  = Some (pm ++ [LF], key ++ v ++ CRLF, post).
Proof.
  intros Hkd Hvd Hinc.
  apply exec_found; [|rewrite <- !app_assoc; apply match_line; auto;
                      unfold is_eol; auto|reflexivity].
  intros i Hi. rewrite match_line_scan.
  destruct (starts_with key (skipn i ((pm ++ [LF]) ++ (key ++ v ++ CRLF) ++ post)))
    eqn:Hs; [|reflexivity].
  exfalso. rewrite length_app in Hi. simpl in Hi.
  rewrite <- app_assoc in Hs.
  rewrite skipn_app_le in Hs by lia. simpl in Hs.
  apply starts_with_before_LF in Hs; [|exact Hkd].
  pose proof (includes_skipn _ _ Hinc i) as Hn.
  rewrite <- app_assoc, skipn_app_le in Hn by lia.
  now rewrite (starts_with_app_r _ _ _ Hs) in Hn.
Qed.

End LineFacts.

(* ================================================================== *)
(** * Laws of the patch steps                                          *)
(* ================================================================== *)

Module PatchLaws.
Import Server Lines JSFacts LineFacts DateFacts PatchFacts.

Lemma key_facts :
  (SUMMARY <> [] /\ forallb dot SUMMARY = true /\ plain SUMMARY = true) /\
  (DESCRIPTION <> [] /\ forallb dot DESCRIPTION = true /\
   plain DESCRIPTION = true) /\
  (LOCATION <> [] /\ forallb dot LOCATION = true /\ plain LOCATION = true) /\
  (DTSTART <> [] /\ forallb dot DTSTART = true /\ plain DTSTART = true) /\
  (DTEND <> [] /\ forallb dot DTEND = true /\ plain DTEND = true).
Proof. repeat split; try discriminate; reflexivity. Qed.

Lemma stamp_unit_dot (s : jsstring) :
  forallb stamp_unit s = true -> forallb dot s = true.
Proof.
  apply forallb_impl. intros c Hc. unfold stamp_unit, digit in Hc.
  unfold dot, is_line_terminator. apply negb_true_iff.
  destruct (N.eqb_spec c LF) as [->|]; [discriminate Hc|].
  destruct (N.eqb_spec c CR) as [->|]; [discriminate Hc|].
  destruct (N.eqb_spec c LS) as [->|]; [discriminate Hc|].
  destruct (N.eqb_spec c PS) as [->|]; [discriminate Hc|]. reflexivity.
Qed.

Lemma stamp_units_formatICalDate (t : Z) :
  forallb stamp_unit (formatICalDate t) = true.
Proof.
  rewrite formatICalDate_fields.
  rewrite !forallb_app, stamp_units_year, !stamp_units_dec. reflexivity.
Qed.

Lemma one_line_formatICalDate (t : Z) : one_line (formatICalDate t) = true.
Proof.
  unfold one_line.
  rewrite (stamp_unit_dot _ (stamp_units_formatICalDate t)).
  now rewrite plain_formatICalDate.
Qed.

Lemma includes_after_replace (key v body : jsstring) :
  plain key = true -> plain v = true ->
  includes body key = true ->
  includes (replace (re_line key) (key ++ v ++ CRLF) body) key = true.
Proof.
  intros Hk Hv Hi.
  assert (Hp : plain (key ++ v ++ CRLF) = true)
    by (rewrite !plain_app, Hk, Hv; reflexivity).
  destruct (exec (re_line key) body) as [[[pre m] post]|] eqn:He.
  - rewrite (replace_found _ _ _ _ _ _ He Hp).
    apply includes_app, includes_here. rewrite <- app_assoc.
    apply starts_with_app.
  - now rewrite (replace_absent _ _ _ He).
Qed.

Lemma insert_or_replace_idem (key v body : jsstring) :
  key <> [] -> forallb dot key = true -> plain key = true ->
  one_line v = true ->
  insert_or_replace key v (insert_or_replace key v body)
  = insert_or_replace key v body.
Proof.
  intros Hk Hkd Hkp Hv. pose proof Hv as Hv'.
  apply andb_true_iff in Hv' as [Hvd Hvp].
  assert (Hp : plain (key ++ v ++ CRLF) = true)
    by (rewrite !plain_app, Hkp, Hvp; reflexivity).
  destruct (includes body key) eqn:Hi.
  - assert (H1 : insert_or_replace key v body
                 = replace (re_line key) (key ++ v ++ CRLF) body)
      by (unfold insert_or_replace; now rewrite Hi).
    rewrite H1. unfold insert_or_replace.
    rewrite (includes_after_replace key v body Hkp Hvp Hi).
    now apply replace_line_idem.
  - assert (H1 : insert_or_replace key v body
                 = replace (re_line SUMMARY) (u "$&" ++ key ++ v ++ CRLF) body)
      by (unfold insert_or_replace; now rewrite Hi).
    rewrite H1. clear H1.
    destruct (exec (re_line SUMMARY) body) as [[[pre m] post]|] eqn:He.
    + rewrite (replace_after _ _ _ _ _ _ He Hp).
      destruct (exec_line_inv _ _ _ _ _ He) as (Hb & run & e & -> & Hrun & Heol).
      destruct (eol_ends_LF e Heol) as [e' ->].
      assert (Hout : pre ++ (SUMMARY ++ run ++ e' ++ [LF]) ++
                       (key ++ v ++ CRLF) ++ post
                     = ((pre ++ SUMMARY ++ run ++ e') ++ [LF]) ++
                       (key ++ v ++ CRLF) ++ post)
        by now rewrite <- !app_assoc.
      rewrite Hout.
      assert (Hex : exec (re_line key)
                      (((pre ++ SUMMARY ++ run ++ e') ++ [LF]) ++
                       (key ++ v ++ CRLF) ++ post)
                    = Some ((pre ++ SUMMARY ++ run ++ e') ++ [LF],
                            key ++ v ++ CRLF, post)).
      { apply exec_inserted_line; try assumption.
        rewrite <- Hi, Hb. now rewrite <- !app_assoc. }
      unfold insert_or_replace.
      rewrite (exec_includes _ _ _ _ _ Hex).
      now rewrite (replace_found _ _ _ _ _ _ Hex Hp).
    + rewrite (replace_absent _ _ _ He).
      unfold insert_or_replace. rewrite Hi.
      now rewrite (replace_absent _ _ _ He).
Qed.

(** One replacement changes one segment. *)
Lemma replace_rewrites_line (key tpl body : jsstring) :
  rewrites_line [key] body (replace (re_line key) tpl body).
Proof.
  unfold replace.
  destruct (exec (re_line key) body) as [[[pre m] post]|] eqn:He;
    [|now left].
  destruct (exec_line_inv _ _ _ _ _ He) as (-> & run & e & -> & Hrun & Heol).
  right. exists pre, key, run, e, (GetSubstitution (key ++ run ++ e) pre post tpl), post.
  repeat split; auto. now left.
Qed.

Lemma rewrites_line_more (keys keys' : list jsstring) (body out : jsstring) :
  incl keys keys' -> rewrites_line keys body out -> rewrites_line keys' body out.
Proof.
  intros Hin [H|(pre & key & run & e & new & post & Hk & H)]; [now left|].
  right. exists pre, key, run, e, new, post. split; [now apply Hin|exact H].
Qed.

Lemma starts_with_units (key s : jsstring) (c : code_unit) :
  starts_with key s = true -> In c key -> In c s.
Proof.
  intros H Hin. apply starts_with_split in H as [r ->].
  apply in_or_app. now left.
Qed.

Lemma lacks_not_in (c : code_unit) (s : jsstring) :
  lacks c s = true -> ~ In c s.
Proof.
  unfold lacks. rewrite forallb_forall. intros H Hin.
  specialize (H c Hin). now rewrite N.eqb_refl in H.
Qed.

(** A text without one of the units of a name does not hold the name. *)
Lemma includes_lacks (c : code_unit) (key s : jsstring) :
  In c key -> lacks c s = true -> includes s key = false.
Proof.
  intros Hin Hl. pose proof (lacks_not_in _ _ Hl) as Hn. clear Hl.
  induction s as [|x s IH].
  - simpl. rewrite orb_false_r.
    destruct (starts_with key []) eqn:H; [|reflexivity].
    exfalso. apply Hn. eapply starts_with_units; eauto.
  - simpl. rewrite IH by (intro H; apply Hn; now right).
    rewrite orb_false_r.
    destruct (starts_with key (x :: s)) eqn:H; [|reflexivity].
    exfalso. apply Hn. eapply starts_with_units; eauto.
Qed.

(** A name without line terminator does not reach across one. *)
Lemma starts_with_before_LT (key a x : jsstring) (c : code_unit) :
  forallb dot key = true -> dot c = false ->
  starts_with key (a ++ c :: x) = starts_with key a.
Proof.
  revert a; induction key as [|k key IH]; intros a Hd Hc; [reflexivity|].
  simpl in Hd. apply andb_true_iff in Hd as [Hk Hd].
  destruct a as [|y a]; simpl.
  - destruct (N.eqb_spec k c) as [->|]; [congruence|reflexivity].
  - now rewrite IH.
Qed.

Lemma includes_nil (key : jsstring) : key <> [] -> includes [] key = false.
Proof. now destruct key. Qed.

(** An occurrence of such a name lies on one side of a line terminator. *)
Lemma includes_split_LT (key a b : jsstring) (c : code_unit) :
  key <> [] -> forallb dot key = true -> dot c = false ->
  includes (a ++ c :: b) key = includes a key || includes b key.
Proof.
  intros Hk Hd Hc. induction a as [|y a IH].
  - rewrite (includes_nil _ Hk).
    pose proof (starts_with_before_LT key [] b c Hd Hc) as H.
    cbn [app] in *. cbn [includes orb]. rewrite H.
    destruct key; [easy|reflexivity].
  - cbn [app includes].
    change (y :: a ++ c :: b) with ((y :: a) ++ c :: b).
    rewrite (starts_with_before_LT key (y :: a) b c Hd Hc), IH.
    now rewrite orb_assoc.
Qed.

Lemma dot_CR : dot CR = false.
Proof. reflexivity. Qed.

Lemma dot_LF : dot LF = false.
Proof. reflexivity. Qed.

Lemma includes_CRLF (key a b : jsstring) :
  key <> [] -> forallb dot key = true ->
  includes (a ++ CRLF ++ b) key = includes a key || includes b key.
Proof.
  intros Hk Hd. change (a ++ CRLF ++ b) with (a ++ CR :: ([] ++ LF :: b)).
  rewrite (includes_split_LT key a _ CR Hk Hd dot_CR).
  rewrite (includes_split_LT key [] b LF Hk Hd dot_LF).
  now rewrite (includes_nil _ Hk).
Qed.

Lemma lacks_app (c : code_unit) (a b : jsstring) :
  lacks c (a ++ b) = lacks c a && lacks c b.
Proof. apply forallb_app. Qed.

Lemma lacks_digits (c : code_unit) (s : jsstring) :
  digit c = false -> forallb digit s = true -> lacks c s = true.
Proof.
  intros Hc. apply forallb_impl. intros x Hx.
  apply negb_true_iff, N.eqb_neq. intros ->. congruence.
Qed.

Lemma lacks_stamp (c : code_unit) (s : jsstring) :
  stamp_unit c = false -> forallb stamp_unit s = true -> lacks c s = true.
Proof.
  intros Hc. apply forallb_impl. intros x Hx.
  apply negb_true_iff, N.eqb_neq. intros ->. congruence.
Qed.

Lemma dec_fuel_digits (f : nat) : forall n, forallb digit (dec_fuel f n) = true.
Proof.
  induction f as [|f IH]; intro n; [reflexivity|]. cbn [dec_fuel].
  destruct (n <? 10)%Z.
  - cbn [forallb]. now rewrite digit_of_digit.
  - rewrite forallb_app, IH. cbn [forallb]. now rewrite digit_of_digit.
Qed.

(** The units of a number written in decimal: digits and the sign. *)
Lemma lacks_Number_toString (c : code_unit) (n : Z) :
  digit c = false -> c <> 45%N -> lacks c (Number_toString n) = true.
Proof.
  intros Hc Hm. unfold Number_toString. destruct (n <? 0)%Z.
  - rewrite lacks_app, (lacks_digits c _ Hc (dec_fuel_digits _ _)).
    apply N.eqb_neq in Hm. rewrite N.eqb_sym in Hm.
    change (u "-") with [45%N]. unfold lacks. cbn [forallb].
    now rewrite Hm.
  - apply (lacks_digits c _ Hc (dec_fuel_digits _ _)).
Qed.

(** The head of a created text holds none of the names the date and title
    steps look for, up to the line of the name itself. *)
Lemma head_free (key x : jsstring) (c : code_unit) (uid : jsstring) (stamp : Z) :
  key <> [] -> forallb dot key = true -> In c key ->
  lacks c (u "UID:") = true -> lacks c uid = true ->
  lacks c (u "DTSTAMP:") = true -> stamp_unit c = false ->
  includes (u "BEGIN:VCALENDAR") key = false ->
  includes (u "VERSION:2.0") key = false ->
  includes (u "PRODID:-//Fastmail Calendar MCP//EN") key = false ->
  includes (u "BEGIN:VEVENT") key = false ->
  includes x key = false ->
  includes (ical_head uid stamp ++ x) key = false.
Proof.
  intros Hk Hd Hin Hu Huid Hs Hc H1 H2 H3 H4 Hx. unfold ical_head.
  rewrite <- !app_assoc.
  rewrite (includes_CRLF key _ _ Hk Hd), H1. cbn [orb].
  rewrite (includes_CRLF key _ _ Hk Hd), H2. cbn [orb].
  rewrite (includes_CRLF key _ _ Hk Hd), H3. cbn [orb].
  rewrite (includes_CRLF key _ _ Hk Hd), H4. cbn [orb].
  rewrite app_assoc.
  rewrite (includes_CRLF key _ _ Hk Hd).
  rewrite (includes_lacks c key (u "UID:" ++ uid) Hin)
    by (rewrite lacks_app, Hu, Huid; reflexivity).
  cbn [orb]. rewrite app_assoc.
  rewrite (includes_CRLF key _ _ Hk Hd).
  rewrite (includes_lacks c key (u "DTSTAMP:" ++ formatICalDate stamp) Hin)
    by (rewrite lacks_app, Hs,
          (lacks_stamp c _ Hc (stamp_units_formatICalDate stamp)); reflexivity).
  exact Hx.
Qed.

Lemma icalString_layout (uid : jsstring) (stamp start end_ : Z)
      (s d l : option jsstring) :
  icalString uid stamp start end_ s d l
  = ical_head uid stamp ++ DTSTART ++ formatICalDate start ++ CRLF ++
    DTEND ++ formatICalDate end_ ++ CRLF ++
    SUMMARY ++ render s ++ CRLF ++ ical_tail d l.
Proof.
  unfold icalString, ical_head, ical_tail.
  generalize (formatICalDate stamp), (formatICalDate start),
    (formatICalDate end_). intros fs fb fe.
  generalize (render s), (render d), (render l). intros rs rd rl.
  destruct (truthy d), (truthy l);
    cbn; rewrite <- ?app_assoc; cbn; rewrite <- ?app_assoc; reflexivity.
Qed.

Lemma lacks_created_uid (c : code_unit) (t : Z) :
  digit c = false -> c <> 45%N -> lacks c (u "@fastmail-mcp") = true ->
  lacks c (created_uid t) = true.
Proof.
  intros Hc Hm Hl. unfold created_uid.
  now rewrite lacks_app, lacks_Number_toString, Hl.
Qed.

Lemma lacks_stamped (c : code_unit) (key : jsstring) (t : Z) :
  lacks c key = true -> stamp_unit c = false ->
  lacks c (key ++ formatICalDate t) = true.
Proof.
  intros Hk Hc.
  now rewrite lacks_app, Hk, (lacks_stamp c _ Hc (stamp_units_formatICalDate t)).
Qed.

(** Where the first [DTSTART], [DTEND] and [SUMMARY] line of a created
    text is. *)
Lemma exec_created_DTSTART (t stamp : Z) (value rest : jsstring) :
  forallb dot value = true ->
  exec (re_line DTSTART)
       (ical_head (created_uid t) stamp ++ DTSTART ++ value ++ CRLF ++ rest)
  = Some (ical_head (created_uid t) stamp, DTSTART ++ value ++ CRLF, rest).
Proof.
  intro Hv. apply exec_first_line; auto; [discriminate|].
  apply (head_free DTSTART _ 82%N); try reflexivity; try discriminate.
  - cbn; tauto.
  - now apply lacks_created_uid.
Qed.

Lemma exec_created_DTEND (t stamp tb : Z) (value rest : jsstring) :
  forallb dot value = true ->
  exec (re_line DTEND)
       ((ical_head (created_uid t) stamp ++
         DTSTART ++ formatICalDate tb ++ CRLF) ++
        DTEND ++ value ++ CRLF ++ rest)
  = Some (ical_head (created_uid t) stamp ++
          DTSTART ++ formatICalDate tb ++ CRLF,
          DTEND ++ value ++ CRLF, rest).
Proof.
  intro Hv. apply exec_first_line; auto; [discriminate|].
  rewrite <- app_assoc.
  apply (head_free DTEND _ 69%N); try reflexivity; try discriminate.
  - cbn; tauto.
  - now apply lacks_created_uid.
  - rewrite <- !app_assoc. rewrite (app_assoc DTSTART).
    rewrite includes_CRLF by (discriminate || reflexivity).
    rewrite (includes_lacks 69%N DTEND (DTSTART ++ formatICalDate tb));
      [reflexivity|cbn; tauto|now apply lacks_stamped].
Qed.

Lemma exec_created_SUMMARY (t stamp tb te : Z) (value rest : jsstring) :
  forallb dot value = true ->
  exec (re_line SUMMARY)
       ((ical_head (created_uid t) stamp ++
         DTSTART ++ formatICalDate tb ++ CRLF ++
         DTEND ++ formatICalDate te ++ CRLF) ++
        SUMMARY ++ value ++ CRLF ++ rest)
  = Some (ical_head (created_uid t) stamp ++
          DTSTART ++ formatICalDate tb ++ CRLF ++
          DTEND ++ formatICalDate te ++ CRLF,
          SUMMARY ++ value ++ CRLF, rest).
Proof.
  intro Hv. apply exec_first_line; auto; [discriminate|].
  rewrite <- app_assoc.
  apply (head_free SUMMARY _ 89%N); try reflexivity; try discriminate.
  - cbn; tauto.
  - now apply lacks_created_uid.
  - rewrite <- !app_assoc.
    rewrite (app_assoc DTSTART).
    rewrite includes_CRLF by (discriminate || reflexivity).
    rewrite (includes_lacks 89%N SUMMARY (DTSTART ++ formatICalDate tb));
      [|cbn; tauto|now apply lacks_stamped].
    rewrite (app_assoc DTEND).
    rewrite includes_CRLF by (discriminate || reflexivity).
    rewrite (includes_lacks 89%N SUMMARY (DTEND ++ formatICalDate te));
      [reflexivity|cbn; tauto|now apply lacks_stamped].
Qed.

Section WithEnv.

Context {E : Env}.

Lemma patch_description_is (a : Args) (d body : jsstring) :
  description a = Some d ->
  patch_description a body = insert_or_replace DESCRIPTION d body.
Proof. unfold patch_description. now intros ->. Qed.

Lemma patch_location_is (a : Args) (l body : jsstring) :
  location a = Some l ->
  patch_location a body = insert_or_replace LOCATION l body.
Proof. unfold patch_location. now intros ->. Qed.

(** X1.  Each of the three text steps of the patch block, done twice, gives
    what it gives done once, on every text, when the value has no line
    terminator and no dollar sign: the title is put once, a description or
    location that had to be inserted after the [SUMMARY] line the first
    time is found and replaced by itself the second time. *)
Theorem text_steps_idempotent (a : Args) (body : jsstring) :
  one_line_opt (summary a) = true ->
  one_line_opt (description a) = true ->
  one_line_opt (location a) = true ->
  patch_summary a (patch_summary a body) = patch_summary a body /\
  patch_description a (patch_description a body) = patch_description a body /\
  patch_location a (patch_location a body) = patch_location a body.
Proof.
  intros Hs Hd Hl.
  destruct key_facts as ((Ks & Ksd & Ksp) & (Kd & Kdd & Kdp) &
                         (Kl & Kld & Klp) & _).
  split; [|split].
  - unfold patch_summary. destruct (truthy (summary a)); [|reflexivity].
    destruct (summary a) as [s|]; now apply replace_line_idem.
  - destruct (description a) as [d|] eqn:Hda.
    + rewrite !(patch_description_is a d) by assumption.
      now apply insert_or_replace_idem.
    + unfold patch_description. now rewrite Hda.
  - destruct (location a) as [l|] eqn:Hla.
    + rewrite !(patch_location_is a l) by assumption.
      now apply insert_or_replace_idem.
    + unfold patch_location. now rewrite Hla.
Qed.

(** X2.  The two date steps are idempotent on every text, whatever the
    date: when the step succeeds, doing it again on its result changes
    nothing; when it throws, it throws the same on any text. *)
Theorem date_steps_idempotent (a : Args) (body : jsstring) :
  match patch_startDate a body with
  | inr once => patch_startDate a once = inr once
  | inl e => forall other, patch_startDate a other = inl e
  end /\
  match patch_endDate a body with
  | inr once => patch_endDate a once = inr once
  | inl e => forall other, patch_endDate a other = inl e
  end.
Proof.
  destruct key_facts as (_ & _ & _ & (Ks & Ksd & Ksp) & (Ke & Ked & Kep)).
  split.
  - unfold patch_startDate. destruct (truthy (startDate a)); [|reflexivity].
    destruct (new_Date (startDate a)) as [t|]; [|reflexivity].
    f_equal. apply replace_line_idem; auto. apply one_line_formatICalDate.
  - unfold patch_endDate. destruct (truthy (endDate a)); [|reflexivity].
    destruct (new_Date (endDate a)) as [t|]; [|reflexivity].
    f_equal. apply replace_line_idem; auto. apply one_line_formatICalDate.
Qed.

(** X3.  Whatever the values, a step rewrites at most one segment of the
    text: a segment that starts at an occurrence of the name of its
    property (or, for a description or location to insert, of [SUMMARY:])
    and ends with the first line end after it.  Everything before and after
    that segment is the same in the result. *)
Theorem steps_rewrite_one_line (a : Args) (body : jsstring) :
  rewrites_line [SUMMARY] body (patch_summary a body) /\
  rewrites_line [DESCRIPTION; SUMMARY] body (patch_description a body) /\
  rewrites_line [LOCATION; SUMMARY] body (patch_location a body) /\
  (forall out, patch_startDate a body = inr out ->
               rewrites_line [DTSTART] body out) /\
  (forall out, patch_endDate a body = inr out ->
               rewrites_line [DTEND] body out).
Proof.
  split; [|split; [|split; [|split]]].
  - unfold patch_summary. destruct (truthy (summary a)); [|now left].
    apply replace_rewrites_line.
  - unfold patch_description. destruct (description a) as [d|]; [|now left].
    destruct (includes body DESCRIPTION).
    + eapply rewrites_line_more; [|apply replace_rewrites_line].
      intros k [<-|[]]. now left.
    + eapply rewrites_line_more; [|apply replace_rewrites_line].
      intros k [<-|[]]. right. now left.
  - unfold patch_location. destruct (location a) as [l|]; [|now left].
    destruct (includes body LOCATION).
    + eapply rewrites_line_more; [|apply replace_rewrites_line].
      intros k [<-|[]]. now left.
    + eapply rewrites_line_more; [|apply replace_rewrites_line].
      intros k [<-|[]]. right. now left.
  - unfold patch_startDate. destruct (truthy (startDate a));
      [|intros out [= <-]; now left].
    destruct (new_Date (startDate a)); [|discriminate].
    intros out [= <-]. apply replace_rewrites_line.
  - unfold patch_endDate. destruct (truthy (endDate a));
      [|intros out [= <-]; now left].
    destruct (new_Date (endDate a)); [|discriminate].
    intros out [= <-]. apply replace_rewrites_line.
Qed.

(** X4.  A description and a location given together to an event that has
    neither: both lines are put right after the first [SUMMARY] line, the
    description first, the location then between the [SUMMARY] line and the
    description; the patched text has [LOCATION] before [DESCRIPTION], the
    text around the two new lines is unchanged. *)
Theorem inserted_lines_order (a : Args) (body d l pre m post : jsstring) :
  description a = Some d -> location a = Some l ->
  one_line d = true -> plain l = true ->
  includes (DESCRIPTION ++ d) LOCATION = false ->
  includes body DESCRIPTION = false ->
  includes body LOCATION = false ->
  exec (re_line SUMMARY) body = Some (pre, m, post) ->
  patch_location a (patch_description a body)
  = pre ++ m ++ (LOCATION ++ l ++ CRLF) ++ (DESCRIPTION ++ d ++ CRLF) ++ post.
Proof.
  intros Hd Hl Hod Hpl Hdl Hbd Hbl He.
  apply andb_true_iff in Hod as [Hdd Hdp].
  rewrite (patch_description_inserted a body d pre m post Hd Hdp Hbd He).
  destruct (exec_line_inv _ _ _ _ _ He) as (Hb & run & e & Hm & Hrun & Heol).
  destruct (eol_ends_LF e Heol) as [e' ->].
  assert (HK : LOCATION <> [] /\ forallb dot LOCATION = true)
    by (split; [discriminate|reflexivity]).
  destruct HK as [Kl Kld].
  assert (Hsplit : forall x,
             includes (pre ++ m ++ x) LOCATION
             = includes (pre ++ SUMMARY ++ run ++ e') LOCATION
               || includes x LOCATION).
  { intro x. rewrite <- (includes_split_LT LOCATION _ x LF Kl Kld dot_LF).
    rewrite Hm. now rewrite <- !app_assoc. }
  pose proof Hbl as Hbl'. rewrite Hb, Hsplit in Hbl'.
  apply orb_false_iff in Hbl' as [Hpm Hpost].
  rewrite Hb in He.
  rewrite (patch_location_inserted a _ l pre m
             (DESCRIPTION ++ d ++ CRLF ++ post) Hl Hpl).
  - now rewrite <- !app_assoc.
  - rewrite Hsplit, Hpm. cbn [orb].
    rewrite (app_assoc DESCRIPTION), (includes_CRLF _ _ _ Kl Kld).
    now rewrite Hdl, Hpost.
  - now apply exec_change_suffix with (post := post).
Qed.

(** X5.  On the text [create_event] writes, the title and date steps of
    [update_event] give the text [create_event] would have written with
    the new value: the [DTSTART], [DTEND] and [SUMMARY] steps find their
    own line (the lines before it hold no such name, whatever the
    identifier and the stamp), and a patch of the three with no description
    and no location turns the created text into the text created from the
    new title and dates.  Only the old title has to be free of line
    terminators, and the new one of dollar signs.  When the new title has
    no line terminator either, the same patch applied to its own result
    changes nothing. *)
Theorem update_of_created_event (a : Args) (t stamp start end_ : Z)
        (s0 d l : option jsstring) :
  let created := icalString (created_uid t) stamp in
  (forall s1, summary a = Some s1 -> s1 <> [] -> plain s1 = true ->
     forallb dot (render s0) = true ->
     patch_summary a (created start end_ s0 d l)
     = created start end_ (Some s1) d l) /\
  (forall sb tb, startDate a = Some sb -> sb <> [] -> Date_parse sb = Some tb ->
     patch_startDate a (created start end_ s0 d l)
     = inr (created tb end_ s0 d l)) /\
  (forall se te, endDate a = Some se -> se <> [] -> Date_parse se = Some te ->
     patch_endDate a (created start end_ s0 d l)
     = inr (created start te s0 d l)) /\
  (forall s1 sb tb se te,
     summary a = Some s1 -> s1 <> [] -> plain s1 = true ->
     forallb dot (render s0) = true ->
     description a = None -> location a = None ->
     startDate a = Some sb -> sb <> [] -> Date_parse sb = Some tb ->
     endDate a = Some se -> se <> [] -> Date_parse se = Some te ->
     applyPatch a (created start end_ s0 d l)
     = inr (created tb te (Some s1) d l) /\
     (forallb dot s1 = true ->
      applyPatch a (created tb te (Some s1) d l)
      = inr (created tb te (Some s1) d l))).
Proof.
  intro created.
  assert (Hdf : forall x, forallb dot (formatICalDate x) = true)
    by (intro x; apply stamp_unit_dot, stamp_units_formatICalDate).
  assert (S1 : forall b e s s1, summary a = Some s1 -> s1 <> [] ->
             plain s1 = true -> forallb dot (render s) = true ->
             patch_summary a (created b e s d l) = created b e (Some s1) d l).
  { intros b e s s1 Hs Hne Hp Hdot. unfold created.
    rewrite !icalString_layout.
    pose proof (exec_created_SUMMARY t stamp b e (render s) (ical_tail d l) Hdot)
      as Hex.
    rewrite <- !app_assoc in Hex.
    rewrite (patch_summary_applied a _ s1 _ _ _ Hs Hne Hp Hex).
    now rewrite <- !app_assoc. }
  assert (S2 : forall b e s sb tb, startDate a = Some sb -> sb <> [] ->
             Date_parse sb = Some tb ->
             patch_startDate a (created b e s d l) = inr (created tb e s d l)).
  { intros b e s sb tb Hs Hne Hp. unfold created.
    rewrite !icalString_layout.
    pose proof (exec_created_DTSTART t stamp (formatICalDate b)
                  (DTEND ++ formatICalDate e ++ CRLF ++
                   SUMMARY ++ render s ++ CRLF ++ ical_tail d l) (Hdf b)) as Hex.
    now rewrite (patch_startDate_applied a _ sb _ _ _ tb Hs Hne Hp Hex). }
  assert (S3 : forall b e s se te, endDate a = Some se -> se <> [] ->
             Date_parse se = Some te ->
             patch_endDate a (created b e s d l) = inr (created b te s d l)).
  { intros b e s se te Hs Hne Hp. unfold created.
    rewrite !icalString_layout.
    pose proof (exec_created_DTEND t stamp b (formatICalDate e)
                  (SUMMARY ++ render s ++ CRLF ++ ical_tail d l) (Hdf e)) as Hex.
    rewrite <- !app_assoc in Hex.
    rewrite (patch_endDate_applied a _ se _ _ _ te Hs Hne Hp Hex).
    now rewrite <- !app_assoc. }
  split; [|split; [|split]].
  - intros; now apply S1.
  - intros; now apply (S2 _ _ _ sb).
  - intros; now apply (S3 _ _ _ se).
  - intros s1 sb tb se te Hs Hne Hp Hdot Hd Hl Hsb Hsbne Hpb Hse Hsene Hpe.
    assert (All : forall b e s, forallb dot (render s) = true ->
              applyPatch a (created b e s d l)
              = inr (created tb te (Some s1) d l)).
    { intros b e s Hs0. unfold applyPatch.
      rewrite (S1 _ _ _ s1 Hs Hne Hp Hs0).
      unfold patch_description. rewrite Hd.
      unfold patch_location. rewrite Hl.
      rewrite (S2 _ _ _ sb tb Hsb Hsbne Hpb).
      now apply (S3 _ _ _ se). }
    split; [now apply All|]. intro Hs1. now apply All.
Qed.

End WithEnv.
End PatchLaws.

(* ================================================================== *)
(** * Laws of the session and of the requests                          *)
(* ================================================================== *)

Module SessionLaws.
Import Server Requests Lines HandlerFacts.

Section WithEnv.

Context {E : Env}.

Notation "x <- m ;; k" := (bind m (fun x => k))
  (at level 61, m at next level, right associativity).

Lemma sends_ret {A} (P : NetCall -> bool) (a : A) : sends P (ret a).
Proof. intro st. exists []. simpl. now rewrite app_nil_r. Qed.

Lemma sends_throw {A} (P : NetCall -> bool) (e : Exn) : sends P (@throw _ A e).
Proof. intro st. exists []. simpl. now rewrite app_nil_r. Qed.

Lemma sends_lift {A} (P : NetCall -> bool) (r : Exn + A) : sends P (lift r).
Proof. intro st. exists []. simpl. now rewrite app_nil_r. Qed.

Lemma sends_get_calendars (P : NetCall -> bool) : sends P get_calendars.
Proof. intro st. exists []. simpl. now rewrite app_nil_r. Qed.

Lemma sends_the_client (P : NetCall -> bool) : sends P the_client.
Proof.
  intro st. exists []. unfold the_client.
  destruct (davClient st); simpl; now rewrite app_nil_r.
Qed.

Lemma sends_now (P : NetCall -> bool) : sends P now.
Proof.
  intro st. exists []. unfold now.
  destruct (clock (world st)); simpl. now rewrite app_nil_r.
Qed.

Lemma sends_await {A} (P : NetCall -> bool) (call : NetCall)
      (f : World -> World * (ExtErr + A)) :
  P call = true -> sends P (await call f).
Proof.
  intros HP st. exists [call]. unfold await.
  destruct (f (world st)) as [w [e|a]]; simpl; now rewrite HP.
Qed.

Lemma sends_bind {A B} (P : NetCall -> bool) (m : M A) (k : A -> M B) :
  sends P m -> (forall a, sends P (k a)) -> sends P (bind m k).
Proof.
  intros Hm Hk st. unfold bind.
  destruct (Hm st) as (c1 & H1 & P1).
  destruct (m st) as [st1 [e|a]]; simpl in *.
  - now exists c1.
  - destruct (Hk a st1) as (c2 & H2 & P2).
    exists (c1 ++ c2). rewrite H2, H1, <- app_assoc. split; [reflexivity|].
    now rewrite forallb_app, P1, P2.
Qed.

Lemma stable_ret {A} (a : A) : stable (ret a).
Proof. now intro st. Qed.

Lemma stable_throw {A} (e : Exn) : stable (@throw _ A e).
Proof. now intro st. Qed.

Lemma stable_lift {A} (r : Exn + A) : stable (lift r).
Proof. now intro st. Qed.

Lemma stable_get_calendars : stable get_calendars.
Proof. now intro st. Qed.

Lemma stable_the_client : stable the_client.
Proof.
  intro st. unfold the_client.
  destruct (davClient st) eqn:H; simpl; now rewrite ?H.
Qed.

Lemma stable_now : stable now.
Proof. intro st. unfold now. now destruct (clock (world st)). Qed.

Lemma stable_await {A} (call : NetCall) (f : World -> World * (ExtErr + A)) :
  stable (await call f).
Proof. intro st. unfold await. now destruct (f (world st)) as [w [e|a]]. Qed.

Lemma stable_bind {A B} (m : M A) (k : A -> M B) :
  stable m -> (forall a, stable (k a)) -> stable (bind m k).
Proof.
  intros Hm Hk st. unfold bind.
  destruct (Hm st) as (H1 & H2).
  destruct (m st) as [st1 [e|a]]; simpl in *; [easy|].
  destruct (Hk a st1) as (H3 & H4). split; congruence.
Qed.

Ltac step :=
  first
    [ apply sends_bind; [|intro]
    | apply sends_ret | apply sends_throw | apply sends_lift
    | apply sends_get_calendars | apply sends_the_client | apply sends_now
    | apply sends_await
    | apply stable_bind; [|intro]
    | apply stable_ret | apply stable_throw | apply stable_lift
    | apply stable_get_calendars | apply stable_the_client | apply stable_now
    | apply stable_await ].

Ltac branch :=
  match goal with
  | |- sends _ (match ?x with _ => _ end) => destruct x
  | |- stable (match ?x with _ => _ end) => destruct x
  end.

Ltac walk := repeat (step || branch).

Lemma sends_initializeClient (P : NetCall -> bool) :
  P CreateDAVClient = true -> P FetchCalendars = true ->
  sends P initializeClient.
Proof.
  intros H1 H2 st. unfold initializeClient.
  destruct (davClient st).
  - exists []. simpl. now rewrite app_nil_r.
  - revert st. unfold set_davClient, set_calendars.
    change (sends P
              (c <- await CreateDAVClient createDAVClient ;;
               _ <- (fun st => ({| davClient := Some c; calendars := calendars st;
                                   world := world st; trace := trace st |}, inr tt)) ;;
               l <- await FetchCalendars (fetchCalendars c) ;;
               (fun st => ({| davClient := davClient st; calendars := l;
                              world := world st; trace := trace st |}, inr tt)))).
    walk; try assumption;
      intro st; exists []; simpl; now rewrite app_nil_r.
Qed.

Lemma sends_list_calendars (P : NetCall -> bool) : sends P list_calendars.
Proof. unfold list_calendars. walk. Qed.

Lemma sends_find_calendar (P : NetCall -> bool) (url : option jsstring) :
  sends P (find_calendar url).
Proof. unfold find_calendar. walk. Qed.

Lemma sends_list_events (P : NetCall -> bool) (args : option Args) :
  (forall cal range, P (FetchCalendarObjects cal range) = true) ->
  sends P (list_events args).
Proof.
  intro H. unfold list_events, destructure, parse_start, parse_end.
  pose proof (sends_find_calendar P). walk; auto.
Qed.

Lemma sends_create_event (P : NetCall -> bool) (args : option Args) :
  (forall cal f text, P (CreateCalendarObject cal f text) = true) ->
  sends P (create_event args).
Proof.
  intro H. unfold create_event, destructure, parse_start, parse_end.
  pose proof (sends_find_calendar P). walk; auto.
Qed.

Lemma sends_locate (P : NetCall -> bool) (cals : list DAVCalendar)
      (url : option jsstring) :
  (forall cal range, P (FetchCalendarObjects cal range) = true) ->
  sends P (locate cals url).
Proof.
  intro H. induction cals as [|cal cals IH]; cbn [locate]; walk; auto.
Qed.

Lemma sends_update_event (P : NetCall -> bool) (args : option Args) :
  (forall cal range, P (FetchCalendarObjects cal range) = true) ->
  (forall url data tag, P (UpdateCalendarObject url data tag) = true) ->
  sends P (update_event args).
Proof.
  intros H1 H2. unfold update_event, destructure.
  pose proof (fun cals url => sends_locate P cals url H1). walk; auto.
Qed.

Lemma sends_delete_event (P : NetCall -> bool) (args : option Args) :
  (forall url tag, P (DeleteCalendarObject url tag) = true) ->
  sends P (delete_event args).
Proof. intro H. unfold delete_event, destructure. walk; auto. Qed.

Lemma stable_find_calendar (url : option jsstring) : stable (find_calendar url).
Proof. unfold find_calendar. walk. Qed.

Lemma stable_locate (cals : list DAVCalendar) (url : option jsstring) :
  stable (locate cals url).
Proof. induction cals as [|cal cals IH]; cbn [locate]; walk; auto. Qed.

Lemma sends_operation (name : jsstring) (args : option Args) :
  sends (allowed name) (operation name args).
Proof.
  unfold operation.
  destruct (jseqb name (u "list_calendars")); [apply sends_list_calendars|].
  destruct (jseqb name (u "list_events")) eqn:H1.
  { apply sends_list_events. intros. unfold allowed. now rewrite H1. }
  destruct (jseqb name (u "create_event")) eqn:H2.
  { apply sends_create_event. intros. exact H2. }
  destruct (jseqb name (u "update_event")) eqn:H3.
  { apply sends_update_event; intros; unfold allowed; rewrite H3;
      [apply orb_true_r|reflexivity]. }
  destruct (jseqb name (u "delete_event")) eqn:H4.
  { apply sends_delete_event. intros. exact H4. }
  apply sends_throw.
Qed.

Lemma sends_data_operation (name : jsstring) (args : option Args) :
  sends data_call (operation name args).
Proof.
  unfold operation.
  destruct (jseqb name (u "list_calendars")); [apply sends_list_calendars|].
  destruct (jseqb name (u "list_events")); [now apply sends_list_events|].
  destruct (jseqb name (u "create_event")); [now apply sends_create_event|].
  destruct (jseqb name (u "update_event")); [now apply sends_update_event|].
  destruct (jseqb name (u "delete_event")); [now apply sends_delete_event|].
  apply sends_throw.
Qed.

Lemma stable_operation (name : jsstring) (args : option Args) :
  stable (operation name args).
Proof.
  pose proof stable_find_calendar. pose proof stable_locate.
  unfold operation.
  destruct (jseqb name (u "list_calendars")); [unfold list_calendars; walk|].
  destruct (jseqb name (u "list_events")).
  { unfold list_events, destructure, parse_start, parse_end. walk; auto. }
  destruct (jseqb name (u "create_event")).
  { unfold create_event, destructure, parse_start, parse_end. walk; auto. }
  destruct (jseqb name (u "update_event")).
  { unfold update_event, destructure. walk; auto. }
  destruct (jseqb name (u "delete_event")).
  { unfold delete_event, destructure. walk; auto. }
  apply stable_throw.
Qed.

Lemma handler_fst (name : jsstring) (args : option Args) (st : State) :
  fst (handler name args st) = fst (dispatch name args st).
Proof. unfold handler. now destruct (dispatch name args st) as [st' [e|r]]. Qed.

Lemma initializeClient_connected (st : State) (c : Client) :
  davClient st = Some c -> initializeClient st = (st, inr tt).
Proof. intro H. unfold initializeClient. now rewrite H. Qed.

Lemma dispatch_connected (name : jsstring) (args : option Args) (st : State)
      (c : Client) :
  davClient st = Some c -> dispatch name args st = operation name args st.
Proof.
  intro H. change (dispatch name args)
    with (bind initializeClient (fun _ => operation name args)).
  now rewrite (bind_ok _ _ _ _ _ (initializeClient_connected st c H)).
Qed.

(** One call in a connected session. *)
Lemma connected_run (name : jsstring) (args : option Args) (st : State)
      (c : Client) :
  davClient st = Some c ->
  davClient (fst (handler name args st)) = Some c /\
  calendars (fst (handler name args st)) = calendars st /\
  exists calls,
    trace (fst (handler name args st)) = trace st ++ calls /\
    forallb data_call calls = true.
Proof.
  intro H. rewrite handler_fst, (dispatch_connected name args st c H).
  destruct (stable_operation name args st) as [H1 H2].
  split; [congruence|]. split; [exact H2|].
  apply sends_data_operation.
Qed.

(** X6.  Once the session has a client, it keeps it: whatever tool calls
    follow, with whatever arguments and whatever their outcome, [davClient]
    and the cached calendar list stay as they are, and none of the calls
    connects again or fetches the calendar list again.  A calendar made on
    the server after the first call is never seen by the session. *)
Theorem connected_session_is_kept (l : list (jsstring * option Args))
        (st : State) (c : Client) :
  davClient st = Some c ->
  davClient (run_calls l st) = Some c /\
  calendars (run_calls l st) = calendars st /\
  exists calls,
    trace (run_calls l st) = trace st ++ calls /\
    forallb data_call calls = true.
Proof.
  revert st c. induction l as [|[name args] l IH]; intros st c H;
    cbn [run_calls].
  - repeat split; try assumption. exists []. now rewrite app_nil_r.
  - destruct (connected_run name args st c H) as (H1 & H2 & c1 & H3 & H4).
    destruct (IH _ c H1) as (H5 & H6 & c2 & H7 & H8).
    split; [exact H5|]. split; [congruence|].
    exists (c1 ++ c2). rewrite H7, H3, <- app_assoc. split; [reflexivity|].
    now rewrite forallb_app, H4, H8.
Qed.

(** X7.  A first call whose connection succeeds and whose calendar fetch
    fails ends with the error of the fetch, and leaves the session with a
    client and the calendar list it had (the empty one at the start): the
    client is assigned before the list is fetched.  The next call, whatever
    it is, finds the client, does not fetch the list and leaves it as it
    was. *)
Theorem failed_calendar_fetch_is_final (name : jsstring) (args : option Args)
        (st : State) (w1 w2 : World) (c : Client) (e : ExtErr) :
  davClient st = None ->
  createDAVClient (world st) = (w1, inr c) ->
  fetchCalendars c w1 = (w2, inl e) ->
  let st1 := fst (handler name args st) in
  snd (handler name args st) = error_result (External e) /\
  davClient st1 = Some c /\
  calendars st1 = calendars st /\
  trace st1 = trace st ++ [CreateDAVClient; FetchCalendars] /\
  forall name' args',
    let st2 := fst (handler name' args' st1) in
    davClient st2 = Some c /\
    calendars st2 = calendars st /\
    exists calls,
      trace st2 = trace st1 ++ calls /\ forallb data_call calls = true.
Proof.
  intros Hc Hcreate Hfetch st1.
  assert (Hi : initializeClient st
               = ({| davClient := Some c; calendars := calendars st;
                     world := w2;
                     trace := trace st ++ [CreateDAVClient; FetchCalendars] |},
                  inl (External e))).
  { unfold initializeClient. rewrite Hc.
    unfold bind, await, set_davClient. rewrite Hcreate. cbn.
    rewrite Hfetch. cbn. now rewrite <- app_assoc. }
  assert (Hh : handler name args st
               = ({| davClient := Some c; calendars := calendars st;
                     world := w2;
                     trace := trace st ++ [CreateDAVClient; FetchCalendars] |},
                  error_result (External e))).
  { unfold handler. now rewrite (dispatch_init_fails _ _ _ _ _ Hi). }
  subst st1. rewrite Hh. cbn [fst snd davClient calendars trace].
  repeat (split; [reflexivity|]).
  intros name' args'.
  exact (connected_run name' args'
           {| davClient := Some c; calendars := calendars st; world := w2;
              trace := trace st ++ [CreateDAVClient; FetchCalendars] |}
           c eq_refl).
Qed.

(** X8.  A tool call sends only the requests of its own operation, apart
    from the two of the session start: [list_calendars] and an unknown name
    send nothing else, [list_events] only fetches objects, [create_event]
    only creates, [delete_event] only deletes, and [update_event] fetches
    and updates.  In particular the two listing tools never write. *)
Theorem tools_send_only_their_requests (name : jsstring) (args : option Args)
        (st : State) :
  exists calls,
    trace (fst (handler name args st)) = trace st ++ calls /\
    forallb (allowed name) calls = true.
Proof.
  rewrite handler_fst.
  change (dispatch name args)
    with (bind initializeClient (fun _ => operation name args)).
  apply sends_bind.
  - now apply sends_initializeClient.
  - intro. apply sends_operation.
Qed.

Lemma dispatch_delete_event (args : option Args) (st : State) (c : Client) :
  davClient st = Some c ->
  dispatch (u "delete_event") args st = delete_event args st.
Proof. intro H. now rewrite (dispatch_connected _ _ _ c H). Qed.

(** X9.  In a connected session [create_event] either sends nothing and
    returns an error, or sends exactly one request: the creation, in the
    first calendar of the list whose address is the [calendarUrl] given,
    of an event whose two dates parsed and whose end is strictly after its
    start; the file is named after the identifier written in the text. *)
Theorem create_event_request (args : option Args) (st : State) (c : Client) :
  davClient st = Some c ->
  let st' := fst (handler (u "create_event") args st) in
  (trace st' = trace st /\
   isError (snd (handler (u "create_event") args st)) = true) \/
  (exists a cal start end_ t stamp,
     args = Some a /\
     find (fun cal => eq_arg (cal_url cal) (calendarUrl a)) (calendars st)
     = Some cal /\
     new_Date (startDate a) = Some start /\
     new_Date (endDate a) = Some end_ /\
     (start < end_)%Z /\
     trace st'
     = trace st ++
       [CreateCalendarObject cal (created_uid t ++ u ".ics")
          (icalString (created_uid t) stamp start end_
                      (summary a) (description a) (location a))]).
Proof.
  intros Hc st'. subst st'. unfold handler.
  rewrite (dispatch_create_event args st st (initializeClient_connected st c Hc)).
  unfold create_event, destructure.
  destruct args as [a|]; [|left; now cbn].
  unfold find_calendar, get_calendars, parse_start, parse_end, bind, ret, throw.
  destruct (find _ (calendars st)) as [cal|] eqn:Hf; [|left; now cbn].
  destruct (new_Date (startDate a)) as [start|] eqn:Hs; [|left; now cbn].
  destruct (new_Date (endDate a)) as [end_|] eqn:He; [|left; now cbn].
  destruct (end_ <=? start)%Z eqn:Hle; [left; now cbn|].
  apply Z.leb_gt in Hle.
  unfold now, the_client, await.
  destruct (clock (world st)) as [wa t] eqn:Ht. cbn [world].
  destruct (clock wa) as [wb stamp] eqn:Hst. cbn [davClient world].
  rewrite Hc. cbn [davClient world calendars trace].
  right; exists a, cal, start, end_, t, stamp.
  do 5 (split; [assumption || reflexivity|]).
  destruct (createCalendarObject c cal _ _ wb) as [wc [e|result_url]];
    reflexivity.
Qed.

(** X18.  [list_events] in a connected session.  Without arguments, with
    a [calendarUrl] that is the address of no calendar of the list, or with
    a date that does not parse, it leaves the state as it is and returns
    the error of the first of these checks that fails.  Otherwise it sends
    exactly one request, whatever the two dates are: the fetch of the
    objects of the first calendar of the list with that address, with the
    two date arguments as time range, as they were written.  The dates are
    parsed and not compared, so a range whose end is before its start is
    sent as it is.  The result lists the objects the server returned, in
    its order. *)
Theorem list_events_request (args : option Args) (st : State) (c : Client) :
  davClient st = Some c ->
  let out := handler (u "list_events") args st in
  match args with
  | None => out = (st, error_result (TypeError TypeError_message))
  | Some a =>
      match find (fun cal => eq_arg (cal_url cal) (calendarUrl a))
                 (calendars st) with
      | None => out = (st, error_result (CalendarNotFound (calendarUrl a)))
      | Some cal =>
          match new_Date (startDate a), new_Date (endDate a) with
          | None, _ =>
              out = (st, error_result (InvalidStartDate (startDate a)))
          | Some _, None =>
              out = (st, error_result (InvalidEndDate (endDate a)))
          | Some _, Some _ =>
              let range := Some (startDate a, endDate a) in
              trace (fst out) = trace st ++ [FetchCalendarObjects cal range] /\
              world (fst out)
              = fst (fetchCalendarObjects c cal range (world st)) /\
              snd out
              = match snd (fetchCalendarObjects c cal range (world st)) with
                | inr objs => {| text := JsonEvents objs; isError := false |}
                | inl e => error_result (External e)
                end
          end
      end
  end.
Proof.
  intros Hc out. subst out. unfold handler.
  rewrite (dispatch_list_events args st st (initializeClient_connected st c Hc)).
  unfold list_events, destructure.
  destruct args as [a|]; [|reflexivity].
  unfold find_calendar, get_calendars, parse_start, parse_end, bind, ret, throw.
  destruct (find _ (calendars st)) as [cal|] eqn:Hf; [|reflexivity].
  destruct (new_Date (startDate a)) as [start|] eqn:Hs; [|reflexivity].
  destruct (new_Date (endDate a)) as [end_|] eqn:He; [|reflexivity].
  unfold the_client, await. rewrite Hc. cbv zeta.
  destruct (fetchCalendarObjects c cal _ (world st)) as [w [e|objs]];
    cbn [fst snd trace world]; repeat split.
  f_equal. f_equal. clear.
  induction objs as [|[a b d] objs IH]; [reflexivity|].
  cbn [map obj_url obj_etag obj_data]. now rewrite IH.
Qed.

(** X10.  In a connected session [delete_event] sends exactly one request,
    the deletion at the address and with the concurrency token of the
    arguments, as they are, missing ones included: the event is not looked
    up first (unlike [update_event], which sends the token it fetched).
    The answer of the server decides the result: the success text, or an
    error result with the message of the refusal. *)
Theorem delete_event_request (a : Args) (st : State) (c : Client) :
  davClient st = Some c ->
  let out := deleteCalendarObject c (eventUrl a) (etag a) (world st) in
  let st' := fst (handler (u "delete_event") (Some a) st) in
  trace st' = trace st ++ [DeleteCalendarObject (eventUrl a) (etag a)] /\
  world st' = fst out /\
  davClient st' = Some c /\ calendars st' = calendars st /\
  snd (handler (u "delete_event") (Some a) st)
  = match snd out with
    | inr _ => {| text := Plain (u "Event deleted successfully: " ++
                                 render (eventUrl a));
                  isError := false |}
    | inl e => error_result (External e)
    end.
Proof.
  intros Hc out st'. subst out st'. unfold handler.
  rewrite (dispatch_delete_event (Some a) st c Hc).
  unfold delete_event, destructure, bind, ret, the_client, await.
  rewrite Hc.
  destruct (deleteCalendarObject c (eventUrl a) (etag a) (world st))
    as [w [e|x]]; cbn; repeat split; assumption.
Qed.

End WithEnv.
End SessionLaws.

(* ================================================================== *)
(** * The laws on sample data                                          *)
(* ================================================================== *)

Module LawCases.
Import Server Requests Lines Scenario Outage Samples.

Lemma text_steps_idempotent_witness :
  one_line_opt (summary review) = true /\
  one_line_opt (description review) = true /\
  one_line_opt (location review) = true /\
  patch_summary review (patch_summary review planning)
  = patch_summary review planning /\
  patch_description review (patch_description review planning)
  = patch_description review planning /\
  patch_location review (patch_location review planning)
  = patch_location review planning.
Proof.
  do 3 (split; [reflexivity|]).
  apply (PatchLaws.text_steps_idempotent review planning); reflexivity.
Defined.

Lemma inserted_lines_order_witness :
  description review = Some (u "Quarterly") /\
  location review = Some (u "Room 2") /\
  one_line (u "Quarterly") = true /\
  plain (u "Room 2") = true /\
  includes (DESCRIPTION ++ u "Quarterly") LOCATION = false /\
  includes planning DESCRIPTION = false /\
  includes planning LOCATION = false /\
  exec (re_line SUMMARY) planning
  = Some (event_head, u "SUMMARY:Planning" ++ CRLF, planning_tail) /\
  patch_location review (patch_description review planning)
  = event_head ++ (u "SUMMARY:Planning" ++ CRLF) ++
    (LOCATION ++ u "Room 2" ++ CRLF) ++
    (DESCRIPTION ++ u "Quarterly" ++ CRLF) ++ planning_tail.
Proof.
  do 8 (split; [reflexivity|]).
  apply (PatchLaws.inserted_lines_order review planning); reflexivity.
Defined.

Lemma connected_session_is_kept_witness :
  davClient initialized = Some tt /\
  davClient (run_calls afternoon initialized) = Some tt /\
  calendars (run_calls afternoon initialized) = calendars initialized /\
  exists calls,
    trace (run_calls afternoon initialized) = trace initialized ++ calls /\
    forallb data_call calls = true.
Proof.
  split; [reflexivity|].
  apply (SessionLaws.connected_session_is_kept (E:=memory) afternoon
           initialized tt).
  reflexivity.
Defined.

Lemma failed_calendar_fetch_is_final_witness :
  @davClient offline cold = None /\
  @createDAVClient offline (@world offline cold) = (account, inr tt) /\
  @fetchCalendars offline tt account
  = (account, inl (refused "503 Service Unavailable")) /\
  snd (@handler offline (u "list_calendars") None cold)
  = error_result (External (refused "503 Service Unavailable")) /\
  @davClient offline (fst (@handler offline (u "list_calendars") None cold))
  = Some tt.
Proof.
  do 3 (split; [reflexivity|]).
  pose proof (SessionLaws.failed_calendar_fetch_is_final (E:=offline)
                (u "list_calendars") None cold account account tt
                (refused "503 Service Unavailable")
                eq_refl eq_refl eq_refl) as H.
  split; [exact (proj1 H)|exact (proj1 (proj2 H))].
Defined.

Lemma create_event_request_witness :
  davClient initialized = Some tt /\
  let args := Some (event_args "/dav/work/" "2024-06-15T11:00:00Z"
                               "2024-06-15T10:00:00Z") in
  let st' := fst (handler (u "create_event") args initialized) in
  (trace st' = trace initialized /\
   isError (snd (handler (u "create_event") args initialized)) = true) \/
  (exists a cal start end_ t stamp,
     args = Some a /\
     find (fun cal => eq_arg (cal_url cal) (calendarUrl a))
          (calendars initialized) = Some cal /\
     new_Date (startDate a) = Some start /\
     new_Date (endDate a) = Some end_ /\
     (start < end_)%Z /\
     trace st'
     = trace initialized ++
       [CreateCalendarObject cal (created_uid t ++ u ".ics")
          (icalString (created_uid t) stamp start end_
                      (summary a) (description a) (location a))]).
Proof.
  split; [reflexivity|].
  apply (SessionLaws.create_event_request (E:=memory)
           (Some (event_args "/dav/work/" "2024-06-15T11:00:00Z"
                             "2024-06-15T10:00:00Z")) initialized tt).
  reflexivity.
Defined.

Lemma delete_event_request_witness :
  davClient initialized = Some tt /\
  trace (fst (handler (u "delete_event") (Some review) initialized))
  = trace initialized ++
    [DeleteCalendarObject (Some (u "/dav/family/planning.ics"))
                          (Some (u "v1"))].
Proof.
  split; [reflexivity|].
  exact (proj1 (SessionLaws.delete_event_request (E:=memory) review
                  initialized tt eq_refl)).
Defined.

End LawCases.

(* ================================================================== *)
(** * The URI codec                                                    *)
(* ================================================================== *)

Module URIFacts.
Import URI.

Local Open Scope N_scope.

Lemma hex_value_digit (n : N) : n < 16 -> hex_value (hex_digit n) = Some n.
Proof.
  intro H. unfold hex_value, hex_digit, digit.
  destruct (N.ltb_spec n 10).
  - replace ((48 <=? 48 + n) && (48 + n <=? 57))%N with true
      by (symmetry; apply andb_true_iff; split; apply N.leb_le; lia).
    f_equal. lia.
  - replace ((48 <=? 55 + n) && (55 + n <=? 57))%N with false
      by (symmetry; apply andb_false_iff; right; apply N.leb_gt; lia).
    replace ((65 <=? 55 + n) && (55 + n <=? 70))%N with true
      by (symmetry; apply andb_true_iff; split; apply N.leb_le; lia).
    f_equal. lia.
Qed.

Lemma ParseHexOctet_escape (b : N) :
  b < 256 -> ParseHexOctet (hex_digit (b / 16)) (hex_digit (b mod 16)) = Some b.
Proof.
  intro H. unfold ParseHexOctet.
  rewrite !hex_value_digit.
  - f_equal. symmetry. apply N.div_mod. discriminate.
  - apply N.mod_lt. discriminate.
  - apply N.Div0.div_lt_upper_bound. exact H.
Qed.

(** An escape read outside a sequence. *)
Lemma Decode_escape (b : N) (r : jsstring) :
  b < 256 ->
  Decode_from 0 [] (escape_octet b ++ r)
  = match leading_ones b with
    | O => prepend [b] (Decode_from 0 [] r)
    | 2%nat => Decode_from 1 [b] r
    | 3%nat => Decode_from 2 [b] r
    | 4%nat => Decode_from 3 [b] r
    | _ => None
    end.
Proof.
  intro H. unfold escape_octet. cbn [app Decode_from].
  rewrite N.eqb_refl, (ParseHexOctet_escape b H). reflexivity.
Qed.

(** An escape read inside a sequence. *)
Lemma Decode_more (need : nat) (octets : list N) (b : N) (r : jsstring) :
  b < 256 ->
  Decode_from (S (S need)) octets (escape_octet b ++ r)
  = Decode_from (S need) (octets ++ [b]) r.
Proof.
  intro H. unfold escape_octet. cbn [app Decode_from].
  rewrite N.eqb_refl, (ParseHexOctet_escape b H). reflexivity.
Qed.

Lemma Decode_last (octets : list N) (b : N) (r : jsstring) :
  b < 256 ->
  Decode_from 1 octets (escape_octet b ++ r)
  = match UTF8_decode (octets ++ [b]) with
    | Some V => prepend (UTF16EncodeCodePoint V) (Decode_from 0 [] r)
    | None => None
    end.
Proof.
  intro H. unfold escape_octet. cbn [app Decode_from].
  rewrite N.eqb_refl, (ParseHexOctet_escape b H). reflexivity.
Qed.

Lemma ltb_true (a b : N) : a < b -> (a <? b) = true.
Proof. apply N.ltb_lt. Qed.

Lemma ltb_false (a b : N) : b <= a -> (a <? b) = false.
Proof. apply N.ltb_ge. Qed.

Lemma leb_true (a b : N) : a <= b -> (a <=? b) = true.
Proof. apply N.leb_le. Qed.

Lemma leb_false (a b : N) : b < a -> (a <=? b) = false.
Proof. apply N.leb_gt. Qed.

Lemma add_sub_l (a b : N) : a + b - a = b.
Proof. lia. Qed.

(** Quotients and remainders of a code point by the powers of 64. *)
Lemma sextets (cp : N) :
  cp = 64 * (cp / 64) + cp mod 64 /\ cp mod 64 < 64 /\
  cp / 64 = 64 * (cp / 4096) + (cp / 64) mod 64 /\ (cp / 64) mod 64 < 64 /\
  cp / 4096 = 64 * (cp / 262144) + (cp / 4096) mod 64 /\
  (cp / 4096) mod 64 < 64.
Proof.
  assert (E2 : cp / 4096 = cp / 64 / 64) by now rewrite N.Div0.div_div.
  assert (E3 : cp / 262144 = cp / 4096 / 64) by now rewrite N.Div0.div_div.
  rewrite E3. rewrite E2 at 1.
  repeat split;
    try (apply N.div_mod; discriminate); apply N.mod_lt; discriminate.
Qed.

(** The escaped UTF-8 form of a code point that is no surrogate decodes to
    its UTF-16 form. *)
Lemma Decode_code_point (cp : N) (r : jsstring) :
  cp <= 0x10FFFF -> is_surrogate cp = false ->
  Decode_from 0 [] (escape (UTF8_encode cp) ++ r)
  = prepend (UTF16EncodeCodePoint cp) (Decode_from 0 [] r).
Proof.
  intros Hmax Hs. unfold UTF8_encode.
  destruct (sextets cp) as (D1 & M1 & D2 & M2 & D3 & M3).
  remember (cp / 64) as q1 eqn:Q1. remember (cp mod 64) as m1 eqn:R1.
  remember (cp / 4096) as q2 eqn:Q2. remember (q1 mod 64) as m2 eqn:R2.
  remember (cp / 262144) as q3 eqn:Q3. remember (q2 mod 64) as m3 eqn:R3.
  clear Q1 R1 Q2 R2 Q3 R3.
  destruct (N.ltb_spec cp 0x80) as [H1|H1].
  { cbn [escape flat_map]. rewrite app_nil_r, Decode_escape by lia.
    unfold leading_ones. rewrite ltb_true by lia.
    unfold UTF16EncodeCodePoint. now rewrite leb_true by lia. }
  destruct (N.ltb_spec cp 0x800) as [H2|H2].
  { cbn [escape flat_map]. rewrite app_nil_r, <- app_assoc.
    rewrite Decode_escape by lia.
    unfold leading_ones.
    rewrite (ltb_false _ 0x80), (ltb_false _ 0xC0), (ltb_true _ 0xE0) by lia.
    rewrite Decode_last by lia.
    cbn [app UTF8_decode]. unfold continuation. rewrite !add_sub_l.
    replace (q1 * 64 + m1) with cp by lia.
    rewrite (leb_true 0x80 (0x80 + _)), (ltb_true _ 0xC0), (leb_true 0x80 cp)
      by lia.
    reflexivity. }
  destruct (N.ltb_spec cp 0x10000) as [H3|H3].
  { cbn [escape flat_map]. rewrite app_nil_r, <- !app_assoc.
    rewrite Decode_escape by lia.
    unfold leading_ones.
    rewrite (ltb_false _ 0x80), (ltb_false _ 0xC0), (ltb_false _ 0xE0),
      (ltb_true _ 0xF0) by lia.
    rewrite Decode_more, Decode_last by lia.
    cbn [app UTF8_decode]. unfold continuation. rewrite !add_sub_l.
    replace (q2 * 4096 + m2 * 64 + m1) with cp by lia.
    rewrite !(leb_true 0x80 (0x80 + _)), !(ltb_true _ 0xC0), (leb_true 0x800 cp)
      by lia.
    rewrite Hs. cbn [andb negb].
    unfold UTF16EncodeCodePoint. now rewrite leb_true by lia. }
  cbn [escape flat_map]. rewrite app_nil_r, <- !app_assoc.
  rewrite Decode_escape by lia.
  unfold leading_ones.
  rewrite (ltb_false _ 0x80), (ltb_false _ 0xC0), (ltb_false _ 0xE0),
    (ltb_false _ 0xF0), (ltb_true _ 0xF8) by lia.
  rewrite !Decode_more, Decode_last by lia.
  cbn [app UTF8_decode]. unfold continuation. rewrite !add_sub_l.
  replace (q3 * 262144 + m3 * 4096 + m2 * 64 + m1) with cp by lia.
  rewrite !(leb_true 0x80 (0x80 + _)), !(ltb_true _ 0xC0),
    (leb_true 0x10000 cp), (leb_true cp 0x10FFFF) by lia.
  reflexivity.
Qed.

Lemma unescaped_small (c : code_unit) : unescaped c = true -> c < 0x80.
Proof.
  unfold unescaped, alpha, digit. cbn [existsb].
  rewrite !orb_true_iff, !andb_true_iff, !N.leb_le, !N.eqb_eq. lia.
Qed.

Lemma unescaped_not_percent (c : code_unit) :
  unescaped c = true -> N.eqb c PERCENT = false.
Proof.
  intro H. apply N.eqb_neq. intros ->. discriminate H.
Qed.

Lemma pair_round_trip (c d : code_unit) :
  is_leading_surrogate c = true -> is_trailing_surrogate d = true ->
  let cp := UTF16SurrogatePairToCodePoint c d in
  cp <= 0x10FFFF /\ is_surrogate cp = false /\
  UTF16EncodeCodePoint cp = [c; d].
Proof.
  unfold is_leading_surrogate, is_trailing_surrogate.
  rewrite !andb_true_iff, !N.leb_le. intros [L1 L2] [T1 T2].
  cbv zeta. unfold UTF16SurrogatePairToCodePoint.
  assert (Hcp : (c - 0xD800) * 0x400 + (d - 0xDC00) + 0x10000 - 0x10000
                = (d - 0xDC00) + (c - 0xD800) * 0x400) by lia.
  split; [lia|]. split.
  - unfold is_surrogate. apply andb_false_iff. right. apply N.leb_gt. lia.
  - unfold UTF16EncodeCodePoint. rewrite leb_false by lia.
    rewrite Hcp, N.div_add, N.Div0.mod_add by discriminate.
    rewrite N.div_small, N.mod_small by lia. f_equal; [lia|f_equal; lia].
Qed.

Lemma prepend_some (a : jsstring) (r : option jsstring) (e : jsstring) :
  prepend a r = Some e -> exists e', r = Some e' /\ e = a ++ e'.
Proof. destruct r as [e'|]; [|discriminate]. intros [= <-]. eauto. Qed.

Lemma round_trip_bounded (n : nat) :
  forall s e, (List.length s <= n)%nat ->
    code_units s = true -> Encode s = Some e -> Decode_from 0 [] e = Some s.
Proof.
  induction n as [|n IH]; intros s e Hn Hu He.
  - destruct s; [|simpl in Hn; lia]. now injection He as <-.
  - destruct s as [|c rest]; [now injection He as <-|].
    simpl in Hn. cbn [code_units forallb] in Hu.
    apply andb_true_iff in Hu as [Hc Hu]. apply N.ltb_lt in Hc.
    cbn [Encode] in He.
    destruct (unescaped c) eqn:Hun.
    { apply prepend_some in He as (e' & He' & ->).
      cbn [app Decode_from]. rewrite (unescaped_not_percent c Hun).
      rewrite (IH rest e') by (assumption || lia). reflexivity. }
    destruct (is_trailing_surrogate c) eqn:Ht; [discriminate|].
    destruct (is_leading_surrogate c) eqn:Hl.
    + destruct rest as [|d rest']; [discriminate|].
      destruct (is_trailing_surrogate d) eqn:Htd; [|discriminate].
      apply prepend_some in He as (e' & He' & ->).
      destruct (pair_round_trip c d Hl Htd) as (P1 & P2 & P3).
      rewrite (Decode_code_point _ e' P1 P2), P3.
      cbn [forallb] in Hu. apply andb_true_iff in Hu as [_ Hu].
      simpl in Hn.
      rewrite (IH rest' e') by (assumption || lia). reflexivity.
    + apply prepend_some in He as (e' & He' & ->).
      assert (Hs : is_surrogate c = false).
      { unfold is_surrogate, is_leading_surrogate, is_trailing_surrogate in *.
        apply andb_false_iff in Ht, Hl. apply andb_false_iff.
        rewrite !N.leb_gt in *. lia. }
      rewrite (Decode_code_point c e') by (lia || assumption).
      unfold UTF16EncodeCodePoint. rewrite leb_true by lia.
      rewrite (IH rest e') by (assumption || lia). reflexivity.
Qed.

Lemma hex_digit_safe (n : N) : n < 16 -> uri_safe (hex_digit n) = true.
Proof.
  intro H. unfold uri_safe, unescaped, alpha, digit, hex_digit.
  destruct (N.ltb_spec n 10).
  - replace ((48 <=? 48 + n) && (48 + n <=? 57)) with true
      by (symmetry; apply andb_true_iff; split; apply N.leb_le; lia).
    now rewrite orb_true_r.
  - replace ((65 <=? 55 + n) && (55 + n <=? 90)) with true
      by (symmetry; apply andb_true_iff; split; apply N.leb_le; lia).
    reflexivity.
Qed.

Lemma escape_octet_safe (b : N) :
  b < 256 -> forallb uri_safe (escape_octet b) = true.
Proof.
  intro H. unfold escape_octet. cbn [forallb].
  rewrite !hex_digit_safe; [reflexivity| |].
  - apply N.mod_lt. discriminate.
  - apply N.Div0.div_lt_upper_bound. exact H.
Qed.

Lemma escape_safe (octets : list N) :
  Forall (fun b => b < 256) octets -> forallb uri_safe (escape octets) = true.
Proof.
  induction 1 as [|b octets Hb _ IH]; [reflexivity|].
  cbn [escape flat_map]. rewrite forallb_app, escape_octet_safe by assumption.
  exact IH.
Qed.

Lemma UTF8_encode_octets (cp : N) :
  cp <= 0x10FFFF -> Forall (fun b => b < 256) (UTF8_encode cp).
Proof.
  intro Hmax. unfold UTF8_encode.
  destruct (sextets cp) as (D1 & M1 & D2 & M2 & D3 & M3).
  remember (cp / 64) as q1 eqn:Q1. remember (cp mod 64) as m1 eqn:R1.
  remember (cp / 4096) as q2 eqn:Q2. remember (q1 mod 64) as m2 eqn:R2.
  remember (cp / 262144) as q3 eqn:Q3. remember (q2 mod 64) as m3 eqn:R3.
  clear Q1 R1 Q2 R2 Q3 R3.
  destruct (N.ltb_spec cp 0x80); [repeat constructor; lia|].
  destruct (N.ltb_spec cp 0x800); [repeat constructor; lia|].
  destruct (N.ltb_spec cp 0x10000); repeat constructor; lia.
Qed.

Lemma prepend_safe (a : jsstring) (r : option jsstring) (e : jsstring) :
  forallb uri_safe a = true ->
  (forall e', r = Some e' -> forallb uri_safe e' = true) ->
  prepend a r = Some e -> forallb uri_safe e = true.
Proof.
  intros Ha Hr H. apply prepend_some in H as (e' & -> & ->).
  rewrite forallb_app, Ha. now apply Hr.
Qed.

Lemma encoded_safe_bounded (n : nat) :
  forall s e, (List.length s <= n)%nat ->
    code_units s = true -> Encode s = Some e -> forallb uri_safe e = true.
Proof.
  induction n as [|n IH]; intros s e Hn Hu He.
  - destruct s; [|simpl in Hn; lia]. now injection He as <-.
  - destruct s as [|c rest]; [now injection He as <-|].
    simpl in Hn. cbn [code_units forallb] in Hu.
    apply andb_true_iff in Hu as [Hc Hu]. apply N.ltb_lt in Hc.
    cbn [Encode] in He.
    destruct (unescaped c) eqn:Hun.
    { apply (prepend_safe _ _ _) in He; [exact He| |].
      - cbn [forallb]. unfold uri_safe. now rewrite Hun.
      - intros e' He'. apply (IH rest e'); assumption || lia. }
    destruct (is_trailing_surrogate c) eqn:Ht; [discriminate|].
    destruct (is_leading_surrogate c) eqn:Hl.
    + destruct rest as [|d rest']; [discriminate|].
      destruct (is_trailing_surrogate d) eqn:Htd; [|discriminate].
      destruct (pair_round_trip c d Hl Htd) as (P1 & _ & _).
      cbn [forallb] in Hu. apply andb_true_iff in Hu as [_ Hu].
      simpl in Hn.
      apply (prepend_safe _ _ _) in He; [exact He| |].
      * apply escape_safe, UTF8_encode_octets, P1.
      * intros e' He'. apply (IH rest' e'); assumption || lia.
    + apply (prepend_safe _ _ _) in He; [exact He| |].
      * apply escape_safe, UTF8_encode_octets. lia.
      * intros e' He'. apply (IH rest e'); assumption || lia.
Qed.

Lemma unescaped_no_surrogate (c : code_unit) :
  unescaped c = true ->
  is_trailing_surrogate c = false /\ is_leading_surrogate c = false.
Proof.
  intro H. apply unescaped_small in H.
  unfold is_trailing_surrogate, is_leading_surrogate.
  split; apply andb_false_iff; left; apply N.leb_gt; lia.
Qed.

Lemma prepend_none (a : jsstring) (r : option jsstring) :
  prepend a r = None <-> r = None.
Proof. destruct r; simpl; split; congruence. Qed.

Lemma well_formed_bounded (n : nat) :
  forall s, (List.length s <= n)%nat ->
    (Encode s = None <-> isWellFormed s = false).
Proof.
  induction n as [|n IH]; intros s Hn.
  - destruct s; [|simpl in Hn; lia]. simpl. split; discriminate.
  - destruct s as [|c rest]; [simpl; split; discriminate|].
    simpl in Hn. cbn [Encode isWellFormed].
    destruct (unescaped c) eqn:Hun.
    { destruct (unescaped_no_surrogate c Hun) as [-> ->].
      rewrite prepend_none. apply IH. lia. }
    destruct (is_trailing_surrogate c); [tauto|].
    destruct (is_leading_surrogate c).
    + destruct rest as [|d rest']; [tauto|].
      destruct (is_trailing_surrogate d); [|tauto].
      rewrite prepend_none. cbn [andb]. apply IH. simpl in Hn. lia.
    + rewrite prepend_none. apply IH. lia.
Qed.

(** X11.  Decoding an encoded string gives the string back: whenever
    [encodeURIComponent] returns (the string has no unpaired surrogate),
    [decodeURIComponent] of the result returns the string. *)
Theorem decode_encode (s e : jsstring) :
  code_units s = true ->
  encodeURIComponent s = Some e -> decodeURIComponent e = Some s.
Proof. apply (round_trip_bounded (List.length s)). apply Nat.le_refl. Qed.

(** X12.  [encodeURIComponent] throws exactly for the strings that are
    not well formed, those with a surrogate code unit that is not part of a
    pair; every other string, whatever its characters, is encoded. *)
Theorem encode_fails_on_lone_surrogates (s : jsstring) :
  encodeURIComponent s = None <-> isWellFormed s = false.
Proof. apply (well_formed_bounded (List.length s)). apply Nat.le_refl. Qed.

End URIFacts.

Module DateLaws.
Import LocalDates DateFacts.

Local Open Scope Z_scope.

Lemma MonthFromTime_range (t : Z) : 0 <= MonthFromTime t <= 11.
Proof.
  unfold MonthFromTime.
  repeat match goal with
         | |- context [if ?b then _ else _] => destruct b
         end; lia.
Qed.

(** The day number of a time value from its year, month and date. *)
Lemma MakeDay_fields (t k : Z) :
  MakeDay (YearFromTime t) (MonthFromTime t) (DateFromTime t + k) = Day t + k.
Proof.
  unfold MakeDay.
  pose proof (MonthFromTime_range t) as Hm.
  rewrite (Z.div_small (MonthFromTime t) 12), (Z.mod_small (MonthFromTime t) 12)
    by lia.
  rewrite Z.add_0_r.
  unfold DateFromTime, MonthStart.
  assert (Hd : DayWithinYear t = Day t - DayFromYear (YearFromTime t))
    by reflexivity.
  assert (Hl : InLeapYear t
               = if DaysInYear (YearFromTime t) =? 366 then 1 else 0)
    by reflexivity.
  rewrite <- Hl.
  destruct (MonthFromTime t) as [|p|p]; [lia| |lia].
  do 4 (destruct p as [p|p|]; try lia).
Qed.

Lemma MakeDate_parts (t k : Z) :
  MakeDate (Day t + k) (TimeWithinDay t) = t + k * msPerDay.
Proof.
  unfold MakeDate, Day, TimeWithinDay.
  pose proof (Z.div_mod t msPerDay ltac:(discriminate)). lia.
Qed.

Section Hosted.

Context {zone : Zone}.

(** X16.  [d.setDate (d.getDate () + k)] moves a date by [k] days of
    local time: the new time value is the UTC time of the local time [k]
    times twenty-four hours later, or [NaN] beyond the range of time
    values; the month and year roll over as needed.  Where the offset of
    local time is the same at both ends, that is exactly [k] times
    86,400,000 milliseconds later; across a change of offset it is not. *)
Theorem add_days_is_local_days (t k : Z) :
  add_days t k = TimeClip (UTC (LocalTime t + k * msPerDay)) /\
  ((forall x b, LocalTZA x b = LocalTZA t true) ->
   add_days t k = TimeClip (t + k * msPerDay)).
Proof.
  assert (H : add_days t k = TimeClip (UTC (LocalTime t + k * msPerDay))).
  { unfold add_days, setDate, getDate.
    now rewrite MakeDay_fields, MakeDate_parts. }
  split; [exact H|]. intro Hz. rewrite H. f_equal.
  unfold UTC, LocalTime. rewrite (Hz _ false). lia.
Qed.

End Hosted.

Lemma before_T_app (a b : jsstring) :
  forallb (fun c => negb (N.eqb c 84)) a = true ->
  before_T (a ++ 84%N :: b) = a.
Proof.
  induction a as [|c a IH]; intro H; simpl in *; [reflexivity|].
  apply andb_true_iff in H as [Hc Ha]. apply negb_true_iff in Hc.
  now rewrite Hc, IH.
Qed.

Lemma digits_not_T (s : jsstring) :
  forallb digit s = true -> forallb (fun c => negb (N.eqb c 84)) s = true.
Proof.
  apply forallb_impl. intros c Hc. apply negb_true_iff, N.eqb_neq.
  intros ->. discriminate Hc.
Qed.

Lemma iso_year_not_T (y : Z) :
  forallb (fun c => negb (N.eqb c 84)) (iso_year y) = true.
Proof.
  unfold iso_year.
  destruct ((0 <=? y) && (y <=? 9999)); [|destruct (y <? 0)];
    rewrite ?forallb_app, (digits_not_T (fixed_dec _ _))
      by apply fixed_dec_digits; reflexivity.
Qed.

Lemma iso_date_not_T (t : Z) :
  forallb (fun c => negb (N.eqb c 84)) (iso_date t) = true.
Proof.
  unfold iso_date. rewrite !forallb_app, iso_year_not_T.
  rewrite !(digits_not_T (fixed_dec _ _)) by apply fixed_dec_digits.
  reflexivity.
Qed.

Lemma toISOString_date (t : Z) :
  exists time, toISOString t = iso_date t ++ 84%N :: time.
Proof.
  eexists. unfold toISOString, iso_date. rewrite <- !app_assoc. reflexivity.
Qed.

Lemma before_T_toISOString (t : Z) : before_T (toISOString t) = iso_date t.
Proof.
  destruct (toISOString_date t) as [time ->].
  apply before_T_app, iso_date_not_T.
Qed.

End DateLaws.

(* ================================================================== *)
(** * Laws of the resource and prompt handlers                         *)
(* ================================================================== *)

Module ResourceLaws.
Import Server URI LocalDates Resources Prompts JSFacts HandlerFacts.

Lemma split_at_first_eq (pattern s : jsstring) :
  split_at_first pattern s
  = if starts_with pattern s then Some ([], skipn (List.length pattern) s)
    else
      match s with
      | [] => None
      | c :: s' =>
          match split_at_first pattern s' with
          | Some (pre, post) => Some (c :: pre, post)
          | None => None
          end
      end.
Proof. now destruct s. Qed.

Lemma skipn_prefix (p s : jsstring) : skipn (List.length p) (p ++ s) = s.
Proof. induction p as [|c p IH]; [reflexivity|exact IH]. Qed.

(** Taking the scheme off an address that starts with it. *)
Lemma replace_scheme (e : jsstring) : replace_string scheme [] (scheme ++ e) = e.
Proof.
  unfold replace_string.
  rewrite split_at_first_eq, starts_with_app, skipn_prefix. reflexivity.
Qed.

Lemma find_by_url (cals : list DAVCalendar) (cal : DAVCalendar) :
  In cal cals ->
  exists cal',
    find (fun c => jseqb (cal_url c) (cal_url cal)) cals = Some cal' /\
    cal_url cal' = cal_url cal.
Proof.
  intro Hin.
  destruct (find (fun c => jseqb (cal_url c) (cal_url cal)) cals)
    as [cal'|] eqn:Hf.
  - exists cal'. split; [reflexivity|].
    apply find_some in Hf as [_ Hf]. now apply jseqb_eq in Hf.
  - exfalso. pose proof (find_none _ _ Hf cal Hin) as H. cbv beta in H.
    now rewrite jseqb_refl in H.
Qed.

Lemma resolve_encoded (cals : list DAVCalendar) (cal : DAVCalendar)
      (e : jsstring) :
  In cal cals -> code_units (cal_url cal) = true ->
  encodeURIComponent (cal_url cal) = Some e ->
  exists cal',
    resolve cals (scheme ++ e) = inr cal' /\ cal_url cal' = cal_url cal /\
    find (fun c => jseqb (cal_url c) (cal_url cal)) cals = Some cal'.
Proof.
  intros Hin Hu He.
  destruct (find_by_url cals cal Hin) as (cal' & Hf & Hurl).
  exists cal'. unfold resolve.
  rewrite starts_with_app, replace_scheme.
  unfold decodeURIComponent, Decode.
  rewrite (URIFacts.round_trip_bounded _ _ e (Nat.le_refl _) Hu He), Hf.
  auto.
Qed.

Lemma resource_of_uri (cal : DAVCalendar) (r : Resource) :
  resource_of cal = Some r ->
  exists e, encodeURIComponent (cal_url cal) = Some e /\ res_uri r = scheme ++ e.
Proof.
  unfold resource_of. destruct (encodeURIComponent (cal_url cal)) as [e|];
    [|discriminate].
  intros [= <-]. now exists e.
Qed.

Lemma listed_resolve (cals sub : list DAVCalendar) :
  incl sub cals ->
  Forall (fun cal => code_units (cal_url cal) = true) cals ->
  forall l, map_or_throw resource_of sub = Some l ->
    Forall2 (fun cal r =>
               exists cal', resolve cals (res_uri r) = inr cal' /\
                            cal_url cal' = cal_url cal /\
                            find (fun c => jseqb (cal_url c) (cal_url cal)) cals
                            = Some cal')
            sub l.
Proof.
  intros Hsub Hu. rewrite Forall_forall in Hu.
  induction sub as [|cal sub IH]; intros l Hl; cbn [map_or_throw] in Hl.
  - injection Hl as <-. constructor.
  - destruct (resource_of cal) as [r|] eqn:Hr; [|discriminate].
    destruct (map_or_throw resource_of sub) as [l'|]; [|discriminate].
    injection Hl as <-. constructor.
    + destruct (resource_of_uri cal r Hr) as (e & He & ->).
      apply resolve_encoded; auto.
      * apply Hsub. now left.
      * apply Hu, Hsub. now left.
    + apply IH; [|reflexivity]. intros x Hx. apply Hsub. now right.
Qed.

Section WithEnv.

Context {E : Env} {zone : Zone}.

Lemma ListResources_run (st st1 : State) (l : list Resource) :
  ListResources st = (st1, inr l) ->
  initializeClient st = (st1, inr tt) /\
  map_or_throw resource_of (calendars st1) = Some l.
Proof.
  unfold ListResources, and_then, run, get_calendars, or_throw, give.
  destruct (initializeClient st) as [st' [e|[]]]; [discriminate|].
  destruct (map_or_throw resource_of (calendars st')) as [l'|] eqn:Hm;
    [|discriminate].
  intros [= <- <-]. now split.
Qed.

(** X13.  Every address [ListResources] gives out can be read back: for
    each calendar of the session, in order, the list has one resource, and
    [ReadResource] resolves its address to the first calendar of the list
    that has the url of that calendar; the scheme test, the decoding and
    the search cannot fail on it. *)
Theorem listed_resources_resolve (st st1 : State) (l : list Resource) :
  Forall (fun cal => code_units (cal_url cal) = true) (calendars st1) ->
  ListResources st = (st1, inr l) ->
  Forall2 (fun cal r =>
             exists cal',
               resolve (calendars st1) (res_uri r) = inr cal' /\
               cal_url cal' = cal_url cal /\
               find (fun c => jseqb (cal_url c) (cal_url cal)) (calendars st1)
               = Some cal')
          (calendars st1) l.
Proof.
  intros Hu Hl. apply ListResources_run in Hl as [_ Hl].
  now apply (listed_resolve (calendars st1) (calendars st1)
               (incl_refl _) Hu).
Qed.

Lemma or_else_nonempty (x : option jsstring) (d : jsstring) :
  d <> [] -> or_else x d <> [].
Proof.
  intro Hd. unfold or_else. destruct x as [[|c s]|]; try exact Hd.
  discriminate.
Qed.

Lemma listed_shape (cals : list DAVCalendar) :
  Forall (fun cal => code_units (cal_url cal) = true) cals ->
  forall l, map_or_throw resource_of cals = Some l ->
    Forall (fun r =>
              exists e, res_uri r = scheme ++ e /\
                        forallb uri_safe e = true /\
                        res_name r <> [] /\ res_description r <> [] /\
                        res_mimeType r = u "application/json") l.
Proof.
  induction 1 as [|cal cals Hu _ IH]; intros l Hl; cbn [map_or_throw] in Hl.
  - injection Hl as <-. constructor.
  - unfold resource_of in Hl at 1.
    destruct (encodeURIComponent (cal_url cal)) as [e|] eqn:He; [|discriminate].
    destruct (map_or_throw resource_of cals) as [l'|]; [|discriminate].
    injection Hl as <-. constructor; [|now apply IH].
    exists e. cbn [res_uri res_name res_description res_mimeType].
    split; [reflexivity|]. split.
    { exact (URIFacts.encoded_safe_bounded _ _ e (Nat.le_refl _) Hu He). }
    split; [apply or_else_nonempty; discriminate|].
    split; [apply or_else_nonempty; discriminate|reflexivity].
Qed.

(** X17.  What [ListResources] gives out.  The address of every resource
    is [calendar://] followed by units of the unescaped set and percent
    signs only, so it holds no slash, colon, question mark, number sign or
    space after the scheme, whatever the url of the calendar; its name and
    its description are never empty (a calendar without a display name is
    named [Unnamed Calendar]). *)
Theorem listed_resource_shape (st st1 : State) (l : list Resource) :
  Forall (fun cal => code_units (cal_url cal) = true) (calendars st1) ->
  ListResources st = (st1, inr l) ->
  List.length l = List.length (calendars st1) /\
  Forall (fun r =>
            exists e, res_uri r = scheme ++ e /\
                      forallb uri_safe e = true /\
                      res_name r <> [] /\ res_description r <> [] /\
                      res_mimeType r = u "application/json") l.
Proof.
  intros Hu Hl. apply ListResources_run in Hl as [_ Hl]. split.
  - clear Hu. revert l Hl.
    induction (calendars st1) as [|cal cals IH]; intros l Hl;
      cbn [map_or_throw] in Hl.
    + now injection Hl as <-.
    + destruct (resource_of cal); [|discriminate].
      destruct (map_or_throw resource_of cals) as [l'|]; [|discriminate].
      injection Hl as <-. cbn [List.length]. now rewrite (IH l').
  - now apply (listed_shape (calendars st1)).
Qed.

(** X14.  [ReadResource] in a connected session.  An address that does
    not resolve (another scheme, a malformed escape, a url of no calendar
    of the list) makes it throw at once: nothing is sent, the clock is not
    read.  For an address that resolves it sends exactly one request, the
    fetch of the objects of that calendar between the current time and
    thirty local days later, both in ISO form, and returns the calendar,
    the objects, their number and the same two bounds; a time out of range
    is thrown before the request is sent. *)
Theorem read_resource_connected (uri : jsstring) (st : State) (c : Client) :
  davClient st = Some c ->
  match resolve (calendars st) uri with
  | inl e => ReadResource uri st = (st, inl e)
  | inr calendar =>
      let t := snd (clock (world st)) in
      match add_days t 30 with
      | None =>
          snd (ReadResource uri st) = inl RangeError /\
          trace (fst (ReadResource uri st)) = trace st
      | Some later =>
          let range := Some (Some (toISOString t), Some (toISOString later)) in
          trace (fst (ReadResource uri st))
          = trace st ++ [FetchCalendarObjects calendar range] /\
          snd (ReadResource uri st)
          = match snd (fetchCalendarObjects c calendar range
                                            (fst (clock (world st)))) with
            | inr objs =>
                inr {| con_uri := uri;
                       con_mimeType := u "application/json";
                       con_calendar := calendar;
                       con_events := objs;
                       con_eventCount := List.length objs;
                       con_start := toISOString t;
                       con_end := toISOString later |}
            | inl e => inl (Thrown (External e))
            end
      end
  end.
Proof.
  intro Hc. unfold ReadResource, and_then, run, get_calendars, give.
  rewrite (SessionLaws.initializeClient_connected st c Hc).
  destruct (resolve (calendars st) uri) as [e|calendar]; [reflexivity|].
  unfold now, the_client, or_throw, give, await.
  destruct (clock (world st)) as [w1 t]. cbn [snd fst davClient world].
  rewrite Hc.
  destruct (add_days t 30) as [later|]; cbn [option_map];
    [|split; reflexivity].
  cbn [world davClient calendars trace].
  destruct (fetchCalendarObjects c calendar _ w1) as [w2 [e|objs]];
    cbn [fst snd trace]; split; try reflexivity.
  f_equal. f_equal.
  - clear. induction objs as [|[a b d] objs IH]; [reflexivity|].
    cbn [map obj_url obj_etag obj_data]. now rewrite IH.
  - now rewrite length_map.
Qed.

(** X15.  The dates of the prompts.  [daily_agenda] uses the [date]
    argument as it is when it is present and not empty, and does not read
    the clock then; otherwise it uses the date part of the ISO form of the
    current time, which is the date in UTC, not the local one.
    [weekly_summary] names the UTC dates of the current time and of the
    time seven local days later. *)
Theorem prompt_dates (args : option PromptArgs) (w : World) :
  GetPrompt (u "daily_agenda") args w
  = (if truthy (field args date)
     then (w, inr (daily_agenda_text (render (field args date))))
     else (fst (clock w), inr (daily_agenda_text (iso_date (snd (clock w)))))) /\
  GetPrompt (u "weekly_summary") args w
  = (fst (clock w),
     match add_days (snd (clock w)) 7 with
     | Some nextWeek =>
         inr (weekly_summary_text (iso_date (snd (clock w)))
                                  (iso_date nextWeek))
     | None => inl InvalidTime
     end).
Proof.
  unfold GetPrompt.
  change (jseqb (u "daily_agenda") (u "schedule_meeting")) with false.
  change (jseqb (u "daily_agenda") (u "daily_agenda")) with true.
  change (jseqb (u "weekly_summary") (u "schedule_meeting")) with false.
  change (jseqb (u "weekly_summary") (u "daily_agenda")) with false.
  change (jseqb (u "weekly_summary") (u "find_free_time")) with false.
  change (jseqb (u "weekly_summary") (u "weekly_summary")) with true.
  cbv iota. split.
  - destruct (truthy (field args date)); [reflexivity|].
    destruct (clock w) as [w' t]. cbn [fst snd].
    now rewrite DateLaws.before_T_toISOString.
  - destruct (clock w) as [w' t]. cbn [fst snd].
    destruct (add_days t 7) as [nextWeek|]; [|reflexivity].
    now rewrite !DateLaws.before_T_toISOString.
Qed.

End WithEnv.

End ResourceLaws.

(* ================================================================== *)
(** * The resource laws on sample data                                 *)
(* ================================================================== *)

Module ResourceCases.
Import Server URI LocalDates Resources Scenario Samples.

(** A url with a euro sign and a character outside the basic plane. *)
Lemma decode_encode_witness :
  code_units (u "/dav/" ++ [8364; 55357; 56832])%N = true /\
  encodeURIComponent (u "/dav/" ++ [8364; 55357; 56832])%N
  = Some (u "%2Fdav%2F%E2%82%AC%F0%9F%98%80") /\
  decodeURIComponent (u "%2Fdav%2F%E2%82%AC%F0%9F%98%80")
  = Some (u "/dav/" ++ [8364; 55357; 56832])%N.
Proof.
  split; [reflexivity|]. split; [reflexivity|].
  apply URIFacts.decode_encode; reflexivity.
Defined.

Lemma units_of_account :
  Forall (fun cal => code_units (cal_url cal) = true) (calendars initialized).
Proof. repeat constructor. Qed.

Lemma account_listed : ListResources (fresh account) = (initialized, inr listed).
Proof.
  unfold ListResources, and_then, run.
  rewrite Cases.first_call_initializes. reflexivity.
Qed.

Lemma listed_resources_resolve_witness :
  Forall (fun cal => code_units (cal_url cal) = true) (calendars initialized) /\
  ListResources (fresh account) = (initialized, inr listed) /\
  Forall2 (fun cal r =>
             exists cal',
               resolve (calendars initialized) (res_uri r) = inr cal' /\
               cal_url cal' = cal_url cal /\
               find (fun c => jseqb (cal_url c) (cal_url cal))
                    (calendars initialized) = Some cal')
          (calendars initialized) listed.
Proof.
  split; [exact units_of_account|]. split; [exact account_listed|].
  exact (ResourceLaws.listed_resources_resolve (E:=memory)
           (fresh account) initialized listed units_of_account account_listed).
Defined.

Lemma read_resource_connected_witness :
  davClient initialized = Some tt /\
  trace (fst (ReadResource (zone:=utc) (u "calendar://%2Fdav%2Ffamily%2F")
                           initialized))
  = trace initialized ++
    [FetchCalendarObjects family
       (Some (Some (u "2024-06-15T10:00:00.123Z"),
              Some (u "2024-07-15T10:00:00.123Z")))].
Proof.
  split; [reflexivity|].
  pose proof (ResourceLaws.read_resource_connected (E:=memory) (zone:=utc)
                (u "calendar://%2Fdav%2Ffamily%2F") initialized tt eq_refl)
    as H.
  assert (Hr : resolve (calendars initialized)
                       (u "calendar://%2Fdav%2Ffamily%2F") = inr family)
    by (vm_compute; reflexivity).
  rewrite Hr in H. cbv zeta in H.
  assert (Ht : snd (@clock memory (world initialized)) = june15)
    by reflexivity.
  rewrite Ht in H.
  assert (Ha : add_days (zone:=utc) june15 30 = Some 1721037600123%Z)
    by (vm_compute; reflexivity).
  rewrite Ha in H. destruct H as [H _]. rewrite H.
  assert (H1 : toISOString june15 = u "2024-06-15T10:00:00.123Z")
    by (vm_compute; reflexivity).
  assert (H2 : toISOString 1721037600123 = u "2024-07-15T10:00:00.123Z")
    by (vm_compute; reflexivity).
  now rewrite H1, H2.
Defined.

Lemma listed_resource_shape_witness :
  Forall (fun cal => code_units (cal_url cal) = true) (calendars initialized) /\
  ListResources (fresh account) = (initialized, inr listed) /\
  List.length listed = List.length (calendars initialized) /\
  Forall (fun r =>
            exists e, res_uri r = scheme ++ e /\
                      forallb uri_safe e = true /\
                      res_name r <> [] /\ res_description r <> [] /\
                      res_mimeType r = u "application/json") listed.
Proof.
  split; [exact units_of_account|]. split; [exact account_listed|].
  exact (ResourceLaws.listed_resource_shape (E:=memory)
           (fresh account) initialized listed units_of_account account_listed).
Defined.

Lemma list_events_request_witness :
  davClient initialized = Some tt /\
  trace (fst (handler (u "list_events")
                      (Some (event_args "/dav/family/" "2024-06-16"
                                        "2024-06-15"))
                      initialized))
  = trace initialized ++
    [FetchCalendarObjects family
       (Some (Some (u "2024-06-16"), Some (u "2024-06-15")))].
Proof.
  split; [reflexivity|].
  pose proof (SessionLaws.list_events_request (E:=memory)
                (Some (event_args "/dav/family/" "2024-06-16" "2024-06-15"))
                initialized tt eq_refl) as H.
  cbv beta iota zeta in H.
  assert (Hf : find (fun cal => eq_arg (cal_url cal)
                         (calendarUrl (event_args "/dav/family/" "2024-06-16"
                                                  "2024-06-15")))
                    (calendars initialized) = Some family)
    by reflexivity.
  assert (Hs : new_Date (startDate (event_args "/dav/family/" "2024-06-16"
                                               "2024-06-15"))
               = Some 1718496000000%Z) by reflexivity.
  assert (He : new_Date (endDate (event_args "/dav/family/" "2024-06-16"
                                             "2024-06-15"))
               = Some 1718409600000%Z) by reflexivity.
  rewrite Hf, Hs, He in H. exact (proj1 H).
Defined.

End ResourceCases.

(* ================================================================== *)
(** * Description and location of a created event                      *)
(* ================================================================== *)

Module CreatedLaws.
Import Server Lines JSFacts LineFacts DateFacts PatchFacts PatchLaws.

Lemma ical_tail_description (d l : option jsstring) :
  truthy d = true ->
  ical_tail d l = DESCRIPTION ++ render d ++ CRLF ++ ical_tail None l.
Proof.
  intro H. unfold ical_tail. rewrite H. cbn [truthy].
  generalize (render d), (render l). intros rd rl.
  destruct (truthy l); cbn; rewrite <- ?app_assoc; reflexivity.
Qed.

Lemma ical_tail_no_description (d l : option jsstring) :
  truthy d = false -> ical_tail d l = ical_tail None l.
Proof. intro H. unfold ical_tail. rewrite H. reflexivity. Qed.

Lemma ical_tail_location (l : option jsstring) :
  truthy l = true ->
  ical_tail None l = LOCATION ++ render l ++ CRLF ++ ical_tail None None.
Proof.
  intro H. unfold ical_tail. rewrite H. cbn [truthy].
  generalize (render l). intro rl.
  cbn; rewrite <- ?app_assoc; reflexivity.
Qed.

Lemma ical_tail_no_location (l : option jsstring) :
  truthy l = false -> ical_tail None l = ical_tail None None.
Proof. intro H. unfold ical_tail. rewrite H. reflexivity. Qed.

Lemma truthy_render (s : jsstring) : s <> [] -> truthy (Some s) = true.
Proof. now destruct s. Qed.

(** The lines of a created text in front of its [SUMMARY] line. *)
Lemma dates_free (key x : jsstring) (c : code_unit) (t stamp tb te : Z) :
  key <> [] -> forallb dot key = true -> In c key ->
  lacks c (u "UID:") = true -> lacks c (u "@fastmail-mcp") = true ->
  digit c = false -> c <> 45%N ->
  lacks c (u "DTSTAMP:") = true -> stamp_unit c = false ->
  lacks c DTSTART = true -> lacks c DTEND = true ->
  includes (u "BEGIN:VCALENDAR") key = false ->
  includes (u "VERSION:2.0") key = false ->
  includes (u "PRODID:-//Fastmail Calendar MCP//EN") key = false ->
  includes (u "BEGIN:VEVENT") key = false ->
  includes x key = false ->
  includes (ical_head (created_uid t) stamp ++
            DTSTART ++ formatICalDate tb ++ CRLF ++
            DTEND ++ formatICalDate te ++ CRLF ++ x) key = false.
Proof.
  intros Hk Hd Hin Hu Hm Hdig H45 Hs Hc Hb He H1 H2 H3 H4 Hx.
  apply (head_free key _ c); try assumption.
  - now apply lacks_created_uid.
  - rewrite (app_assoc DTSTART), (includes_CRLF _ _ _ Hk Hd).
    rewrite (includes_lacks c key (DTSTART ++ formatICalDate tb) Hin)
      by now apply lacks_stamped.
    rewrite (app_assoc DTEND), (includes_CRLF _ _ _ Hk Hd).
    rewrite (includes_lacks c key (DTEND ++ formatICalDate te) Hin)
      by now apply lacks_stamped.
    exact Hx.
Qed.

Lemma dates_free_DESCRIPTION (x : jsstring) (t stamp tb te : Z) :
  includes x DESCRIPTION = false ->
  includes (ical_head (created_uid t) stamp ++
            DTSTART ++ formatICalDate tb ++ CRLF ++
            DTEND ++ formatICalDate te ++ CRLF ++ x) DESCRIPTION = false.
Proof.
  intro Hx. apply (dates_free DESCRIPTION x 67%N);
    try reflexivity; try discriminate; try assumption.
  cbn; tauto.
Qed.

Lemma dates_free_LOCATION (x : jsstring) (t stamp tb te : Z) :
  includes x LOCATION = false ->
  includes (ical_head (created_uid t) stamp ++
            DTSTART ++ formatICalDate tb ++ CRLF ++
            DTEND ++ formatICalDate te ++ CRLF ++ x) LOCATION = false.
Proof.
  intro Hx. apply (dates_free LOCATION x 76%N);
    try reflexivity; try discriminate; try assumption.
  cbn; tauto.
Qed.

Section WithEnv.

Context {E : Env}.

(** X19.  The description and location steps on the text [create_event]
    writes.  When the title (and, for the location, the description) of
    the created event does not hold the name of the property, the step
    finds the line of the property itself: a description or a location
    that is there is replaced, and the result is the text [create_event]
    would have written with the new value.  A description the event lacks
    is put where [create_event] puts it, and so is a location when the
    event has no description.  The old values must be free of line
    terminators, the new ones of dollar signs and not empty. *)
Theorem text_patch_of_created_event (a : Args) (t stamp start end_ : Z)
        (s0 d0 l0 : option jsstring) :
  let created := icalString (created_uid t) stamp start end_ s0 in
  (forall d1, description a = Some d1 -> d1 <> [] -> plain d1 = true ->
     truthy d0 = true -> forallb dot (render d0) = true ->
     includes (SUMMARY ++ render s0) DESCRIPTION = false ->
     patch_description a (created d0 l0) = created (Some d1) l0) /\
  (forall d1, description a = Some d1 -> d1 <> [] -> plain d1 = true ->
     truthy d0 = false -> forallb dot (render s0) = true ->
     includes (created d0 l0) DESCRIPTION = false ->
     patch_description a (created d0 l0) = created (Some d1) l0) /\
  (forall l1, location a = Some l1 -> l1 <> [] -> plain l1 = true ->
     truthy l0 = true -> forallb dot (render l0) = true ->
     includes (SUMMARY ++ render s0) LOCATION = false ->
     (truthy d0 = true -> includes (DESCRIPTION ++ render d0) LOCATION = false) ->
     patch_location a (created d0 l0) = created d0 (Some l1)) /\
  (forall l1, location a = Some l1 -> l1 <> [] -> plain l1 = true ->
     truthy d0 = false -> truthy l0 = false ->
     forallb dot (render s0) = true ->
     includes (created d0 l0) LOCATION = false ->
     patch_location a (created d0 l0) = created d0 (Some l1)).
Proof.
  intro created. subst created.
  assert (KD : DESCRIPTION <> [] /\ forallb dot DESCRIPTION = true)
    by (split; [discriminate|reflexivity]).
  assert (KL : LOCATION <> [] /\ forallb dot LOCATION = true)
    by (split; [discriminate|reflexivity]).
  destruct KD as [KD1 KD2]. destruct KL as [KL1 KL2].
  split; [|split; [|split]].
  - intros d1 Hd Hne Hp Ht Hdot Hs.
    rewrite !icalString_layout.
    rewrite (ical_tail_description d0 l0 Ht).
    rewrite (ical_tail_description (Some d1) l0 (truthy_render d1 Hne)).
    cbn [render].
    set (pre := ical_head (created_uid t) stamp ++
                DTSTART ++ formatICalDate start ++ CRLF ++
                DTEND ++ formatICalDate end_ ++ CRLF ++
                SUMMARY ++ render s0 ++ CRLF).
    assert (Hex : exec (re_line DESCRIPTION)
                    (pre ++ DESCRIPTION ++ render d0 ++ CRLF ++ ical_tail None l0)
                  = Some (pre, DESCRIPTION ++ render d0 ++ CRLF,
                          ical_tail None l0)).
    { apply exec_first_line; auto. subst pre. rewrite <- !app_assoc.
      apply dates_free_DESCRIPTION.
      rewrite (app_assoc SUMMARY), (includes_CRLF _ _ _ KD1 KD2), Hs.
      reflexivity. }
    subst pre. rewrite <- !app_assoc in Hex.
    rewrite (patch_description_replaced a _ d1 _ _ _ Hd Hp Hex).
    now rewrite <- !app_assoc.
  - intros d1 Hd Hne Hp Ht Hdot Hi.
    rewrite (patch_description_inserted a _ d1
               (ical_head (created_uid t) stamp ++
                DTSTART ++ formatICalDate start ++ CRLF ++
                DTEND ++ formatICalDate end_ ++ CRLF)
               (SUMMARY ++ render s0 ++ CRLF) (ical_tail d0 l0) Hd Hp Hi).
    + rewrite icalString_layout.
      rewrite (ical_tail_description (Some d1) l0 (truthy_render d1 Hne)).
      rewrite (ical_tail_no_description d0 l0 Ht). cbn [render].
      now rewrite <- !app_assoc.
    + rewrite icalString_layout.
      pose proof (exec_created_SUMMARY t stamp start end_ (render s0)
                    (ical_tail d0 l0) Hdot) as Hex.
      now rewrite <- !app_assoc in Hex.
  - intros l1 Hl Hne Hp Ht Hdot Hs Hdl.
    rewrite !icalString_layout.
    destruct (truthy d0) eqn:Htd.
    + rewrite !(ical_tail_description d0 _ Htd).
      rewrite (ical_tail_location l0 Ht).
      rewrite (ical_tail_location (Some l1) (truthy_render l1 Hne)).
      cbn [render].
      set (pre := ical_head (created_uid t) stamp ++
                  DTSTART ++ formatICalDate start ++ CRLF ++
                  DTEND ++ formatICalDate end_ ++ CRLF ++
                  SUMMARY ++ render s0 ++ CRLF ++
                  DESCRIPTION ++ render d0 ++ CRLF).
      assert (Hex : exec (re_line LOCATION)
                      (pre ++ LOCATION ++ render l0 ++ CRLF ++ ical_tail None None)
                    = Some (pre, LOCATION ++ render l0 ++ CRLF,
                            ical_tail None None)).
      { apply exec_first_line; auto. subst pre. rewrite <- !app_assoc.
        apply dates_free_LOCATION.
        rewrite (app_assoc SUMMARY), (includes_CRLF _ _ _ KL1 KL2), Hs.
        rewrite (app_assoc DESCRIPTION), (includes_CRLF _ _ _ KL1 KL2).
        rewrite (Hdl eq_refl). reflexivity. }
      subst pre. rewrite <- !app_assoc in Hex.
      rewrite (patch_location_replaced a _ l1 _ _ _ Hl Hp Hex).
      now rewrite <- !app_assoc.
    + rewrite !(ical_tail_no_description d0 _ Htd).
      rewrite (ical_tail_location l0 Ht).
      rewrite (ical_tail_location (Some l1) (truthy_render l1 Hne)).
      cbn [render].
      set (pre := ical_head (created_uid t) stamp ++
                  DTSTART ++ formatICalDate start ++ CRLF ++
                  DTEND ++ formatICalDate end_ ++ CRLF ++
                  SUMMARY ++ render s0 ++ CRLF).
      assert (Hex : exec (re_line LOCATION)
                      (pre ++ LOCATION ++ render l0 ++ CRLF ++ ical_tail None None)
                    = Some (pre, LOCATION ++ render l0 ++ CRLF,
                            ical_tail None None)).
      { apply exec_first_line; auto. subst pre. rewrite <- !app_assoc.
        apply dates_free_LOCATION.
        rewrite (app_assoc SUMMARY), (includes_CRLF _ _ _ KL1 KL2), Hs.
        reflexivity. }
      subst pre. rewrite <- !app_assoc in Hex.
      rewrite (patch_location_replaced a _ l1 _ _ _ Hl Hp Hex).
      now rewrite <- !app_assoc.
  - intros l1 Hl Hne Hp Htd Htl Hdot Hi.
    rewrite (patch_location_inserted a _ l1
               (ical_head (created_uid t) stamp ++
                DTSTART ++ formatICalDate start ++ CRLF ++
                DTEND ++ formatICalDate end_ ++ CRLF)
               (SUMMARY ++ render s0 ++ CRLF) (ical_tail d0 l0) Hl Hp Hi).
    + rewrite icalString_layout.
      rewrite (ical_tail_no_description d0 (Some l1) Htd).
      rewrite (ical_tail_location (Some l1) (truthy_render l1 Hne)).
      rewrite (ical_tail_no_description d0 l0 Htd).
      rewrite (ical_tail_no_location l0 Htl). cbn [render].
      now rewrite <- !app_assoc.
    + rewrite icalString_layout.
      pose proof (exec_created_SUMMARY t stamp start end_ (render s0)
                    (ical_tail d0 l0) Hdot) as Hex.
      now rewrite <- !app_assoc in Hex.
Qed.

End WithEnv.

End CreatedLaws.

(* ================================================================== *)
(** * Patches of created events on sample data                         *)
(* ================================================================== *)

Module CreatedCases.
Import Server Lines Scenario Samples.

Lemma update_of_created_event_witness :
  applyPatch moved planning
  = inr (icalString (created_uid june15) june15
                    1718528400000 1718530200000 (Some (u "Review")) None None).
Proof.
  exact (proj1
           (proj2 (proj2 (proj2
              (PatchLaws.update_of_created_event (E:=memory) moved
                 june15 june15 june15 (june15 + 3600000)
                 (Some (u "Planning")) None None)))
              (u "Review") (u "2024-06-16T09:00:00Z") 1718528400000%Z
              (u "2024-06-16T09:30:00Z") 1718530200000%Z
              eq_refl ltac:(discriminate) eq_refl eq_refl eq_refl eq_refl
              eq_refl ltac:(discriminate) eq_refl
              eq_refl ltac:(discriminate) eq_refl)).
Defined.

Lemma text_patch_of_created_event_witness :
  patch_description review
    (offsite (Some (u "Bring laptops")) (Some (u "Room 1")))
  = offsite (Some (u "Quarterly")) (Some (u "Room 1")) /\
  patch_location review
    (offsite (Some (u "Bring laptops")) (Some (u "Room 1")))
  = offsite (Some (u "Bring laptops")) (Some (u "Room 2")) /\
  patch_description review (offsite None None)
  = offsite (Some (u "Quarterly")) None /\
  patch_location review (offsite None None)
  = offsite None (Some (u "Room 2")).
Proof.
  split; [|split; [|split]].
  - apply (proj1 (CreatedLaws.text_patch_of_created_event review
                    june15 june15 june15 (june15 + 3600000)
                    (Some (u "Offsite")) (Some (u "Bring laptops"))
                    (Some (u "Room 1")))); reflexivity || discriminate.
  - apply (proj1 (proj2 (proj2
             (CreatedLaws.text_patch_of_created_event review
                june15 june15 june15 (june15 + 3600000)
                (Some (u "Offsite")) (Some (u "Bring laptops"))
                (Some (u "Room 1"))))));
      reflexivity || discriminate.
  - apply (proj1 (proj2
             (CreatedLaws.text_patch_of_created_event review
                june15 june15 june15 (june15 + 3600000)
                (Some (u "Offsite")) None None)));
      reflexivity || discriminate.
  - apply (proj2 (proj2 (proj2
             (CreatedLaws.text_patch_of_created_event review
                june15 june15 june15 (june15 + 3600000)
                (Some (u "Offsite")) None None))));
      reflexivity || discriminate.
Defined.

End CreatedCases.
